(** * appscreen: the screenshot compositor, its settings and its languages

    A shallow embedding of the parts of the appscreen sources that the
    specification talks about and of the code around them, followed by the
    properties proved of them.

    Conventions of the embedding.
    - A JavaScript number is a real number ([R]); [Math.cos], [Math.sin] and
      [Math.PI] are the real cosine, sine and pi.  Rounding of IEEE doubles,
      infinities and NaN are not modelled; division is the total division of
      [R], and a property that depends on a divisor assumes it positive.
    - A JavaScript string is a [string] of 8-bit characters.
    - A 2D canvas context is modelled by the sequence of calls made on it
      since the canvas was last reset (type [cmd]).  What the browser paints
      for a call is outside the sources; two equal sequences of calls on
      canvases of equal size paint the same pixels.
    - Browser services whose result the code consumes are parameters:
      text measurement ([text_width]), pixel read-back ([getImageData]) and
      [Math.random] (an oracle indexed by call number).  The optional 3D
      renderer is one call in the sequence.
    - An object keyed by language codes is the finite map of its own
      properties.  An assignment under the name [__proto__] creates no
      property ([Proto.assign]), and a statement that reads such an object
      under a name it inherits from [Object.prototype] says so.  A table
      written as an object literal ([presets], [deviceDimensions],
      [llmProviders]) also answers the inherited names; [Proto] lists them.
    - The calls into the page and the store with which a function ends
      change no field of the state and are left out: its result is the state
      it has reached by then.  Where such calls stand before the end
      ([removeProjectLanguage]), or where a statement is about the function
      returning ([applyPositionPreset]), an oracle [pageCalls] tells whether
      they return. *)

From Stdlib Require Import Reals Lra Lia ZArith List String Ascii Bool.
From stdpp Require Import base gmap strings list pretty.

(** ** Strings *)

Module Str.

(** [s.split(c)] for a one-character separator: never empty, one more piece
    than there are separators. *)
Fixpoint split (sep : ascii) (s : string) : list string :=
  match s with
  | EmptyString => [EmptyString]
  | String c rest =>
      if Ascii.eqb c sep then EmptyString :: split sep rest
      else match split sep rest with
           | w :: ws => String c w :: ws
           | [] => [String c EmptyString]
           end
  end.

(** [s.includes(c)] for a one-character needle. *)
Fixpoint includes (c : ascii) (s : string) : bool :=
  match s with
  | EmptyString => false
  | String d rest => Ascii.eqb d c || includes c rest
  end.

(** Truthiness of a string: the empty string is falsy. *)
Definition truthy (s : string) : bool :=
  match s with EmptyString => false | _ => true end.

(** [a || b] on strings. *)
Definition or_else (a b : string) : string := if truthy a then a else b.

(** [ws.join(sep)] *)
Fixpoint join (sep : string) (ws : list string) : string :=
  match ws with
  | [] => EmptyString
  | [w] => w
  | w :: rest => w +:+ sep +:+ join sep rest
  end.

(** A word of a text: not empty and without a space. *)
Definition plainWord (w : string) : Prop :=
  truthy w = true /\ includes " " w = false.

End Str.

(** ** Names every object inherits *)

Module Proto.

(** The property names every object literal inherits from
    [Object.prototype].  An object indexed by one of them that it does not
    have itself answers with a function (with the prototype itself for
    [__proto__]): a truthy value that has none of the properties the code
    looks for. *)
Definition inheritedNames : list string :=
  [ "constructor"; "__defineGetter__"; "__defineSetter__"; "hasOwnProperty";
    "__lookupGetter__"; "__lookupSetter__"; "isPrototypeOf";
    "propertyIsEnumerable"; "toString"; "valueOf"; "__proto__";
    "toLocaleString" ].

Definition inherited (k : string) : bool := bool_decide (k ∈ inheritedNames).

(** [m[k] = v] for a string [v] on an object used as a map.  Under the name
    [__proto__] the assignment reaches the inherited setter, which ignores a
    string, unless the object has a property of that name itself. *)
Definition assign (k v : string) (m : gmap string string) : gmap string string :=
  if String.eqb k "__proto__" && negb (bool_decide (is_Some (m !! k))) then m
  else <[k := v]> m.

End Proto.

(** ** The data model (part_001:567-650) *)

Module Model.

Local Open Scope R_scope.

Record Dims := { width : R; height : R }.

(** A decoded raster: only its identity and natural size are read. *)
Record Image := { img_src : string; img_width : R; img_height : R }.

Record GradientStop := { stop_color : string; stop_position : R }.

Record Gradient := { angle : R; stops : list GradientStop }.

Record Background := {
  bg_type : string;
  gradient : Gradient;
  solid : string;
  bg_image : option Image;
  imageFit : string;
  imageBlur : R;
  overlayColor : string;
  overlayOpacity : R;
  noise : bool;
  noiseIntensity : R
}.

Record Shadow := {
  shadow_enabled : bool;
  shadow_color : string;
  shadow_blur : R;
  shadow_opacity : R;
  shadow_x : R;
  shadow_y : R
}.

Record Frame := {
  frame_enabled : bool;
  frame_color : string;
  frame_width : R;
  frame_opacity : R
}.

(** [cornerRadius], [shadow] and [frame] are read under a guard
    ([settings.cornerRadius || 0], [settings.shadow && ...]), so they may be
    absent. *)
Record ScreenshotSettings := {
  scale : R;
  y : R;
  x : R;
  rotation : R;
  perspective : R;
  cornerRadius : option R;
  use3D : bool;
  shadow : option Shadow;
  frame : option Frame
}.

(** The text settings, with the fields of [state.defaults.text].
    [headlineEnabled] is read as [!== false], so its absence counts as true;
    the current languages are read as [|| 'en']. *)
Record Text := {
  headlineEnabled : option bool;
  headlines : gmap string string;
  headlineLanguages : list string;
  currentHeadlineLang : option string;
  headlineFont : string;
  headlineSize : R;
  headlineWeight : string;
  headlineItalic : bool;
  headlineUnderline : bool;
  headlineStrikethrough : bool;
  headlineColor : string;
  position : string;
  offsetY : R;
  lineHeight : R;
  subheadlineEnabled : bool;
  subheadlines : gmap string string;
  subheadlineLanguages : list string;
  currentSubheadlineLang : option string;
  subheadlineFont : string;
  subheadlineSize : R;
  subheadlineWeight : string;
  subheadlineItalic : bool;
  subheadlineUnderline : bool;
  subheadlineStrikethrough : bool;
  subheadlineColor : string;
  subheadlineOpacity : R
}.

Record LocalizedImage := { li_image : option Image; li_src : string; li_name : string }.

(** A composition unit, an element of [state.screenshots]. *)
Record Screenshot := {
  image : option Image;
  localizedImages : gmap string LocalizedImage;
  background : Background;
  screenshot : ScreenshotSettings;
  text : Text
}.

Record Defaults := {
  d_background : Background;
  d_screenshot : ScreenshotSettings;
  d_text : Text
}.

Record State := {
  screenshots : list Screenshot;
  selectedIndex : nat;
  currentLanguage : string;
  projectLanguages : list string;
  defaults : Defaults
}.

Definition with_screenshots (st : State) (us : list Screenshot) : State :=
  {| screenshots := us;
     selectedIndex := selectedIndex st;
     currentLanguage := currentLanguage st;
     projectLanguages := projectLanguages st;
     defaults := defaults st |}.

End Model.

(** ** The canvas and the renderers (part_001:4329-4668, 5004-5026) *)

Module Canvas.

Import Model.
Local Open Scope R_scope.

(** The font assigned to [context.font], kept in its four parts rather than
    as the concatenated CSS string. *)
Record Font := {
  font_style : string;
  font_weight : string;
  font_size : R;
  font_family : string
}.

(** Values assigned to [fillStyle]: a CSS colour, the [rgba(...)] colour
    built by [hexToRgba] from a hex colour and an alpha, or a linear gradient
    with its colour stops in insertion order. *)
Inductive FillStyle :=
| CssColor (c : string)
| HexAlpha (hex : string) (alpha : R)
| LinearGradient (x1 y1 x2 y2 : R) (colorStops : list (R * string)).

(** Values assigned to [shadowColor]: the hex colour followed by the opacity
    as a byte, or ['transparent']. *)
Inductive ShadowColor :=
| ShadowHex (hex : string) (alphaByte : Z)
| ShadowTransparent.

Inductive Filter := FilterNone | FilterBlur (px : R).

Inductive Baseline := BaselineTop | BaselineBottom.

(** One call (or property assignment) on a 2D context. *)
Inductive cmd :=
| ClearRect (x y w h : R)
| Save
| Restore
| Translate (x y : R)
| Rotate (a : R)
| Transform (a b c d e f : R)
| SetFillStyle (s : FillStyle)
| SetStrokeStyle (c : string)
| SetLineWidth (w : R)
| SetGlobalAlpha (a : R)
| SetFilter (f : Filter)
| SetShadowColor (c : ShadowColor)
| SetShadowBlur (b : R)
| SetShadowOffsetX (v : R)
| SetShadowOffsetY (v : R)
| FillRect (x y w h : R)
| BeginPath
| RoundRect (x y w h r : R)
| Fill
| Clip
| Stroke
| DrawImage (img : Image) (x y w h : R)
| DrawImageCrop (img : Image) (sx sy sw sh dx dy dw dh : R)
| SetTextAlignCenter
| SetTextBaseline (b : Baseline)
| SetFont (f : Font)
| FillText (s : string) (x y : R)
| PutImageData (data : list Z) (x y : R)
| RenderThreeJS (w h : R) (index : nat).

(** A canvas element with its 2D context: bitmap size, CSS size in pixels
    and the calls made since the bitmap was last reset. *)
Record Surface := {
  s_width : R;
  s_height : R;
  s_style_width : R;
  s_style_height : R;
  s_ops : list cmd
}.

(** Assigning [canvas.width] (or [canvas.height]) resets the bitmap and the
    context state. *)
Definition set_width (s : Surface) (w : R) : Surface :=
  {| s_width := w; s_height := s_height s;
     s_style_width := s_style_width s; s_style_height := s_style_height s;
     s_ops := [] |}.

Definition set_height (s : Surface) (h : R) : Surface :=
  {| s_width := s_width s; s_height := h;
     s_style_width := s_style_width s; s_style_height := s_style_height s;
     s_ops := [] |}.

Definition set_style (s : Surface) (w h : R) : Surface :=
  {| s_width := s_width s; s_height := s_height s;
     s_style_width := w; s_style_height := h;
     s_ops := s_ops s |}.

Definition draw (s : Surface) (cs : list cmd) : Surface :=
  {| s_width := s_width s; s_height := s_height s;
     s_style_width := s_style_width s; s_style_height := s_style_height s;
     s_ops := s_ops s ++ cs |}.

(** [Math.round]: the nearest integer, halves upwards. *)
Definition Math_round (v : R) : Z := Int_part (v + 1 / 2).

(** [a !== 0] on numbers. *)
Definition nonzero (a : R) : bool := if Req_dec_T a 0 then false else true.

(** [a > b] on numbers. *)
Definition Rgtb (a b : R) : bool := if Rgt_dec a b then true else false.

(** *** drawBackgroundToContext (part_001:4368-4432) *)

Definition drawBackgroundToContext (dims : Dims) (bg : Background) : list cmd :=
  if String.eqb (bg_type bg) "gradient" then
    let angle := angle (gradient bg) * PI / 180 in
    let x1 := width dims / 2 - cos angle * width dims in
    let y1 := height dims / 2 - sin angle * height dims in
    let x2 := width dims / 2 + cos angle * width dims in
    let y2 := height dims / 2 + sin angle * height dims in
    let colorStops :=
      List.map (fun stop => (stop_position stop / 100, stop_color stop))
               (stops (gradient bg)) in
    [ SetFillStyle (LinearGradient x1 y1 x2 y2 colorStops);
      FillRect 0 0 (width dims) (height dims) ]
  else if String.eqb (bg_type bg) "solid" then
    [ SetFillStyle (CssColor (solid bg));
      FillRect 0 0 (width dims) (height dims) ]
  else if String.eqb (bg_type bg) "image" then
    match bg_image bg with
    | None => []
    | Some img =>
        let imgRatio := img_width img / img_height img in
        let canvasRatio := width dims / height dims in
        let '(sx, sy, sw, sh) :=
          if String.eqb (imageFit bg) "cover" then
            if Rgtb imgRatio canvasRatio then
              let sw := img_height img * canvasRatio in
              ((img_width img - sw) / 2, 0, sw, img_height img)
            else
              let sh := img_width img / canvasRatio in
              (0, (img_height img - sh) / 2, img_width img, sh)
          else (0, 0, img_width img, img_height img) in
        let isContain :=
          negb (String.eqb (imageFit bg) "cover")
          && String.eqb (imageFit bg) "contain" in
        let '(dx, dy, dw, dh) :=
          if isContain then
            if Rgtb imgRatio canvasRatio then
              let dh := width dims / imgRatio in
              (0, (height dims - dh) / 2, width dims, dh)
            else
              let dw := height dims * imgRatio in
              ((width dims - dw) / 2, 0, dw, height dims)
          else (0, 0, width dims, height dims) in
        (if isContain then
           [ SetFillStyle (CssColor "#000");
             FillRect 0 0 (width dims) (height dims) ]
         else [])
        ++ (if Rgtb (imageBlur bg) 0 then [SetFilter (FilterBlur (imageBlur bg))]
            else [])
        ++ [ DrawImageCrop img sx sy sw sh dx dy dw dh; SetFilter FilterNone ]
        ++ (if Rgtb (overlayOpacity bg) 0 then
              [ SetFillStyle (CssColor (overlayColor bg));
                SetGlobalAlpha (overlayOpacity bg / 100);
                FillRect 0 0 (width dims) (height dims);
                SetGlobalAlpha 1 ]
            else [])
    end
  else [].

(** *** drawScreenshotToContext (part_001:4449-4545) *)

(** The rotation and shear about the centre of the placed box, as issued
    between [save] and the drawing calls (lines 4469-4481 and 4519-4526). *)
Definition placeTransform (centerX centerY : R) (settings : ScreenshotSettings)
  : list cmd :=
  [Translate centerX centerY]
  ++ (if nonzero (rotation settings)
      then [Rotate (rotation settings * PI / 180)] else [])
  ++ (if nonzero (perspective settings)
      then [Transform 1 (perspective settings * (1 / 100)) 0 1 0 0] else [])
  ++ [Translate (- centerX) (- centerY)].

Definition cornerRadius_or_0 (settings : ScreenshotSettings) : R :=
  match cornerRadius settings with Some r => r | None => 0 end.

Definition drawDeviceFrameToContext (x y width height : R)
    (settings : ScreenshotSettings) (fr : Frame) : list cmd :=
  let frameColor := frame_color fr in
  let frameWidth := frame_width fr * (width / 400) in
  let frameOpacity := frame_opacity fr / 100 in
  let radius := cornerRadius_or_0 settings * (width / 400) + frameWidth in
  [ SetGlobalAlpha frameOpacity;
    SetStrokeStyle frameColor;
    SetLineWidth frameWidth;
    BeginPath;
    RoundRect (x - frameWidth / 2) (y - frameWidth / 2)
              (width + frameWidth) (height + frameWidth) radius;
    Stroke;
    SetGlobalAlpha 1 ].

Definition drawScreenshotToContext (dims : Dims) (img : option Image)
    (settings : ScreenshotSettings) : list cmd :=
  match img with
  | None => []
  | Some img =>
      let scale := scale settings / 100 in
      let imgWidth0 := width dims * scale in
      let imgHeight0 := (img_height img / img_width img) * imgWidth0 in
      let '(imgWidth, imgHeight) :=
        if Rgtb imgHeight0 (height dims * scale) then
          let imgHeight := height dims * scale in
          ((img_width img / img_height img) * imgHeight, imgHeight)
        else (imgWidth0, imgHeight0) in
      let x := (width dims - imgWidth) * (x settings / 100) in
      let y := (height dims - imgHeight) * (y settings / 100) in
      let centerX := x + imgWidth / 2 in
      let centerY := y + imgHeight / 2 in
      let radius := cornerRadius_or_0 settings * (imgWidth / 400) in
      [Save]
      ++ placeTransform centerX centerY settings
      ++ match shadow settings with
         | Some sh =>
             if shadow_enabled sh then
               let shadowOpacity := shadow_opacity sh / 100 in
               [ SetShadowColor
                   (ShadowHex (shadow_color sh) (Math_round (shadowOpacity * 255)));
                 SetShadowBlur (shadow_blur sh);
                 SetShadowOffsetX (shadow_x sh);
                 SetShadowOffsetY (shadow_y sh);
                 SetFillStyle (CssColor "#000");
                 BeginPath;
                 RoundRect x y imgWidth imgHeight radius;
                 Fill;
                 SetShadowColor ShadowTransparent;
                 SetShadowBlur 0;
                 SetShadowOffsetX 0;
                 SetShadowOffsetY 0 ]
             else []
         | None => []
         end
      ++ [ BeginPath;
           RoundRect x y imgWidth imgHeight radius;
           Clip;
           DrawImage img x y imgWidth imgHeight;
           Restore ]
      ++ match frame settings with
         | Some fr =>
             if frame_enabled fr then
               [Save]
               ++ placeTransform centerX centerY settings
               ++ drawDeviceFrameToContext x y imgWidth imgHeight settings fr
               ++ [Restore]
             else []
         | None => []
         end
  end.

(** The box of lines 4452-4462 on its own, as [(x, y, imgWidth, imgHeight)]. *)
Definition placement (dims : Dims) (img : Image) (settings : ScreenshotSettings)
  : R * R * R * R :=
  let scale := scale settings / 100 in
  let imgWidth0 := width dims * scale in
  let imgHeight0 := (img_height img / img_width img) * imgWidth0 in
  let '(imgWidth, imgHeight) :=
    if Rgtb imgHeight0 (height dims * scale) then
      let imgHeight := height dims * scale in
      ((img_width img / img_height img) * imgHeight, imgHeight)
    else (imgWidth0, imgHeight0) in
  let x := (width dims - imgWidth) * (x settings / 100) in
  let y := (height dims - imgHeight) * (y settings / 100) in
  (x, y, imgWidth, imgHeight).

Definition isDrawImage (c : cmd) : bool :=
  match c with DrawImage _ _ _ _ _ => true | _ => false end.

(** *** wrapText (part_001:5004-5026) *)

Section Browser.

(** [ctx.measureText(s).width] under the context's current font. *)
Variable text_width : Font -> string -> R.

(** [ctx.getImageData(x, y, w, h).data]: the RGBA bytes of the surface. *)
Variable getImageData : Surface -> R -> R -> R -> R -> list Z.

(** [Math.random()]: the value returned by the call number [k]. *)
Variable random : nat -> R.

(** One turn of the [words.forEach] callback on [(lines, currentLine)]. *)
Definition wrapStep (font : Font) (maxWidth : R)
    (acc : list string * string) (word : string) : list string * string :=
  let '(lines, currentLine) := acc in
  let testLine :=
    currentLine +:+ (if Str.truthy currentLine then " " else "") +:+ word in
  if Rgtb (text_width font testLine) maxWidth && Str.truthy currentLine
  then (lines ++ [currentLine], word)
  else (lines, testLine).

Definition wrapText (font : Font) (text : string) (maxWidth : R) : list string :=
  let words := Str.split " "%char text in
  let '(lines, currentLine) :=
    fold_left (wrapStep font maxWidth) words ([], EmptyString) in
  if Str.truthy currentLine then lines ++ [currentLine] else lines.

(** *** drawTextToContext (part_001:4547-4668) *)

Definition lang_or_en (l : option string) : string :=
  match l with Some s => Str.or_else s "en" | None => "en" end.

Definition italic_or_normal (b : bool) : string :=
  if b then "italic" else "normal".

(** The body of the [lines.forEach] callback of the headline. *)
Definition headlineLine (font : Font) (dims : Dims) (txt : Text)
    (currentY lineHeight : R) (i : nat) (line : string) : list cmd :=
  let y := currentY + INR i * lineHeight in
  let textWidth := text_width font line in
  let fontSize := headlineSize txt in
  let lineThickness := Rmax 2 (fontSize * (5 / 100)) in
  let x := width dims / 2 - textWidth / 2 in
  [FillText line (width dims / 2) y]
  ++ (if headlineUnderline txt then
        let underlineY :=
          if String.eqb (position txt) "top"
          then y + fontSize * (9 / 10) else y + fontSize * (1 / 10) in
        [FillRect x underlineY textWidth lineThickness]
      else [])
  ++ (if headlineStrikethrough txt then
        let strikeY :=
          if String.eqb (position txt) "top"
          then y + fontSize * (4 / 10) else y - fontSize * (4 / 10) in
        [FillRect x strikeY textWidth lineThickness]
      else []).

(** The body of the [lines.forEach] callback of the subheadline. *)
Definition subheadlineLine (font : Font) (dims : Dims) (txt : Text)
    (subY subLineHeight : R) (i : nat) (line : string) : list cmd :=
  let y := subY + INR i * subLineHeight in
  let textWidth := text_width font line in
  let fontSize := subheadlineSize txt in
  let lineThickness := Rmax 2 (fontSize * (5 / 100)) in
  let x := width dims / 2 - textWidth / 2 in
  [FillText line (width dims / 2) y]
  ++ (if subheadlineUnderline txt
      then [FillRect x (y + fontSize * (9 / 10)) textWidth lineThickness]
      else [])
  ++ (if subheadlineStrikethrough txt
      then [FillRect x (y + fontSize * (4 / 10)) textWidth lineThickness]
      else []).

(** The strings are read as properties the maps have themselves.  For a
    shown language that a map only inherits (see [Proto]) the code reads a
    built-in object in the place of a string and throws in [wrapText]; the
    statements leave such languages out.

    [currentY] becomes NaN when the headline wraps to no line at all
    ([lastLineY] stays undefined); it is [None] then, and the drawing calls
    that receive it are dropped, as a canvas ignores calls with a NaN
    argument. *)
Definition drawTextToContext (dims : Dims) (txt : Text) : list cmd :=
  let headlineEnabled :=
    match headlineEnabled txt with Some false => false | _ => true end in
  let subheadlineEnabled := subheadlineEnabled txt in
  let headline :=
    if headlineEnabled
    then default EmptyString (headlines txt !! lang_or_en (currentHeadlineLang txt))
    else EmptyString in
  let subheadline :=
    if subheadlineEnabled
    then default EmptyString
           (subheadlines txt !! lang_or_en (currentSubheadlineLang txt))
    else EmptyString in
  if negb (Str.truthy headline) && negb (Str.truthy subheadline) then []
  else
    let isTop := String.eqb (position txt) "top" in
    let isBottom := String.eqb (position txt) "bottom" in
    let padding := width dims * (8 / 100) in
    let textY :=
      if isTop then height dims * (offsetY txt / 100)
      else height dims * (1 - offsetY txt / 100) in
    let '(headlineCmds, currentY) :=
      if Str.truthy headline then
        let font :=
          {| font_style := italic_or_normal (headlineItalic txt);
             font_weight := headlineWeight txt;
             font_size := headlineSize txt;
             font_family := headlineFont txt |} in
        let lines := wrapText font headline (width dims - padding * 2) in
        let lineHeight := headlineSize txt * (lineHeight txt / 100) in
        let currentY :=
          if isBottom then textY - (INR (length lines) - 1) * lineHeight
          else textY in
        let lastLineY :=
          match length lines with
          | O => None
          | S n => Some (currentY + INR n * lineHeight)
          end in
        let gap := lineHeight - headlineSize txt in
        ([SetFont font; SetFillStyle (CssColor (headlineColor txt))]
         ++ concat (imap (headlineLine font dims txt currentY lineHeight) lines),
         match lastLineY with
         | Some lastLineY =>
             Some (if isTop then lastLineY + headlineSize txt + gap
                   else lastLineY + gap)
         | None => None
         end)
      else ([], Some textY) in
    let subheadlineCmds :=
      if Str.truthy subheadline then
        let font :=
          {| font_style := italic_or_normal (subheadlineItalic txt);
             font_weight := Str.or_else (subheadlineWeight txt) "400";
             font_size := subheadlineSize txt;
             font_family := Str.or_else (subheadlineFont txt) (headlineFont txt) |} in
        let lines := wrapText font subheadline (width dims - padding * 2) in
        let subLineHeight := subheadlineSize txt * (14 / 10) in
        [SetFont font;
         SetFillStyle (HexAlpha (subheadlineColor txt) (subheadlineOpacity txt / 100))]
        ++ (if isBottom then [SetTextBaseline BaselineTop] else [])
        ++ match currentY with
           | Some subY =>
               concat (imap (subheadlineLine font dims txt subY subLineHeight) lines)
           | None => []
           end
        ++ (if isBottom then [SetTextBaseline BaselineBottom] else [])
      else [] in
    [SetTextAlignCenter;
     SetTextBaseline (if isTop then BaselineTop else BaselineBottom)]
    ++ headlineCmds ++ subheadlineCmds.

(** *** drawNoiseToContext (part_001:4434-4447) *)

(** Storing a number into a [Uint8ClampedArray]: the nearest integer (a tie
    goes to the even one), clamped to a byte. *)
Definition round_half_even (v : R) : Z :=
  let f := Int_part v in
  let d := v - IZR f in
  if Rlt_dec d (1 / 2) then f
  else if Rlt_dec (1 / 2) d then (f + 1)%Z
  else if Z.even f then f else (f + 1)%Z.

Definition toUint8Clamped (v : R) : Z :=
  Z.max 0 (Z.min 255 (round_half_even v)).

(** [data[j] = Math.max(0, Math.min(255, data[j] + noise))]; a write past the
    end of a typed array is ignored. *)
Definition addNoise (data : list Z) (j : nat) (noise : R) : list Z :=
  match data !! j with
  | Some v => <[j := toUint8Clamped (Rmax 0 (Rmin 255 (IZR v + noise)))]> data
  | None => data
  end.

(** The [for (let i = 0; i < data.length; i += 4)] loop from index [i], with
    [k] calls of [Math.random] made so far; [fuel] bounds the number of
    turns. *)
Fixpoint noiseLoop (fuel : nat) (noiseAmount : R) (i : nat) (data : list Z)
    (k : nat) : list Z * nat :=
  match fuel with
  | O => (data, k)
  | S fuel' =>
      if (i <? length data)%nat then
        let noise := (random k - 1 / 2) * 255 * noiseAmount in
        let data := addNoise data i noise in
        let data := addNoise data (i + 1) noise in
        let data := addNoise data (i + 2) noise in
        noiseLoop fuel' noiseAmount (i + 4) data (S k)
      else (data, k)
  end.

(** The loop is entered with as much fuel as there are bytes, which it never
    exhausts: every turn advances [i] by four. *)
Definition drawNoiseToContext (s : Surface) (dims : Dims) (intensity : R)
    (k : nat) : list cmd * nat :=
  let data := getImageData s 0 0 (width dims) (height dims) in
  let noiseAmount := intensity / 100 in
  let '(data, k) := noiseLoop (length data) noiseAmount 0 data k in
  ([PutImageData data 0 0], k).

(** *** renderScreenshotToCanvas (part_001:4329-4366) *)

(** Whether [renderThreeJSForScreenshot] is a function, and the global
    [phoneModelLoaded]. *)
Record Env := { hasRenderThreeJS : bool; phoneModelLoaded : bool }.

(** [targetCanvas] and [targetCtx] are one [Surface]: every caller passes a
    canvas together with its own 2D context. *)
Definition renderScreenshotToCanvas (st : State) (env : Env) (index : nat)
    (target : Surface) (dims : Dims) (previewScale : R) (k : nat)
  : Surface * nat :=
  match screenshots st !! index with
  | None => (target, k)
  | Some screenshot =>
      match image screenshot with
      | None => (target, k)
      | Some _ =>
          let target := set_width target (width dims) in
          let target := set_height target (height dims) in
          let target :=
            set_style target (width dims * previewScale)
                      (height dims * previewScale) in
          let target := draw target [ClearRect 0 0 (width dims) (height dims)] in
          let bg := background screenshot in
          let target := draw target (drawBackgroundToContext dims bg) in
          let '(target, k) :=
            if noise bg then
              let '(cs, k) := drawNoiseToContext target dims (noiseIntensity bg) k in
              (draw target cs, k)
            else (target, k) in
          let settings := Model.screenshot screenshot in
          let target :=
            if use3D settings && hasRenderThreeJS env && phoneModelLoaded env
            then draw target [RenderThreeJS (width dims) (height dims) index]
            else draw target
                   (drawScreenshotToContext dims (image screenshot) settings) in
          let txt := text screenshot in
          (draw target (drawTextToContext dims txt), k)
      end
  end.

End Browser.

End Canvas.

(** ** Language detection (part_001:65-86, 728-734) *)

Module Lang.

(** [Object.keys(languageFlags)], in insertion order. *)
Definition supportedLangs : list string :=
  [ "en"; "en-gb"; "de"; "fr"; "es";
    "it"; "pt"; "pt-br"; "nl"; "ru";
    "ja"; "ko"; "zh"; "zh-tw"; "ar";
    "hi"; "tr"; "pl"; "sv"; "da";
    "no"; "fi"; "th"; "vi"; "id" ].

(** [Array.prototype.sort] with a comparator is a stable sort; [insert]
    puts [a] in front of the first element it does not have to follow. *)
Fixpoint insert (cmp : string -> string -> Z) (a : string) (l : list string)
  : list string :=
  match l with
  | [] => [a]
  | b :: l' => if (cmp a b <=? 0)%Z then a :: b :: l' else b :: insert cmp a l'
  end.

Definition sort (cmp : string -> string -> Z) (l : list string) : list string :=
  fold_right (insert cmp) [] l.

(** [(a, b) => b.length - a.length] *)
Definition byLengthDesc (a b : string) : Z :=
  (Z.of_nat (String.length b) - Z.of_nat (String.length a))%Z.

(** The regular expressions the detector builds, all with the [i] flag. *)
Inductive regex :=
| Lit (c : ascii)
| OneOf (cs : list ascii)
| Range (lo hi : ascii)
| Cat (r1 r2 : regex)
| Opt (r : regex).

Definition lowerChar (c : ascii) : ascii :=
  let n := nat_of_ascii c in
  if ((65 <=? n) && (n <=? 90))%nat then ascii_of_nat (n + 32) else c.

Definition upperChar (c : ascii) : ascii :=
  let n := nat_of_ascii c in
  if ((97 <=? n) && (n <=? 122))%nat then ascii_of_nat (n - 32) else c.

Fixpoint toLowerCase (s : string) : string :=
  match s with
  | EmptyString => EmptyString
  | String c rest => String (lowerChar c) (toLowerCase rest)
  end.

Definition inRange (lo hi c : ascii) : bool :=
  ((nat_of_ascii lo <=? nat_of_ascii c) && (nat_of_ascii c <=? nat_of_ascii hi))%nat.

(** One character against an atom, ignoring case. *)
Definition charIn (cs : list ascii) (c : ascii) : bool :=
  existsb (fun a => Ascii.eqb (lowerChar a) (lowerChar c)) cs.

(** Backtracking match of [r] at the start of [s]; [k] receives what is
    left.  An optional part is tried first (it is greedy), then skipped. *)
Fixpoint accept (r : regex) (s : string) (k : string -> bool) : bool :=
  match r with
  | Lit a =>
      match s with
      | String c rest => Ascii.eqb (lowerChar a) (lowerChar c) && k rest
      | EmptyString => false
      end
  | OneOf cs =>
      match s with
      | String c rest => charIn cs c && k rest
      | EmptyString => false
      end
  | Range lo hi =>
      match s with
      | String c rest =>
          (inRange lo hi c || inRange lo hi (lowerChar c)
           || inRange lo hi (upperChar c)) && k rest
      | EmptyString => false
      end
  | Cat r1 r2 => accept r1 s (fun rest => accept r2 rest k)
  | Opt r1 => accept r1 s k || k s
  end.

(** [pattern.test(s)]: a match starting anywhere in [s]. *)
Fixpoint test (r : regex) (s : string) : bool :=
  accept r s (fun _ => true)
  || match s with
     | EmptyString => false
     | String _ rest => test r rest
     end.

(** [lang.replace('-', '[-_]?')] read as a regular expression: the first
    hyphen becomes an optional hyphen or underscore, every other character
    of a language code stands for itself. *)
Fixpoint escapedLang (replaced : bool) (lang : string) (tail : regex) : regex :=
  match lang with
  | EmptyString => tail
  | String c rest =>
      if Ascii.eqb c "-" && negb replaced
      then Cat (Opt (OneOf ["-"; "_"]%char)) (escapedLang true rest tail)
      else Cat (Lit c) (escapedLang replaced rest tail)
  end.

(** [[_-]${escapedLang}(?:[_-][a-z]{2})?\.] *)
Definition langPattern (lang : string) : regex :=
  Cat (OneOf ["_"; "-"]%char)
      (escapedLang false lang
         (Cat (Opt (Cat (OneOf ["_"; "-"]%char)
                        (Cat (Range "a" "z") (Range "a" "z"))))
              (Lit "."))).

Definition sortedLangs : list string := sort byLengthDesc supportedLangs.

Definition detectLanguageFromFilename (filename : string) : string :=
  let lower := toLowerCase filename in
  match List.find (fun lang => test (langPattern lang) lower) sortedLangs with
  | Some lang => lang
  | None => "en"
  end.

(** The two characters that may stand in front of a language code. *)
Definition isDelim (c : ascii) : bool := Ascii.eqb c "_" || Ascii.eqb c "-".

(** A string without underscore and hyphen. *)
Fixpoint noDelim (s : string) : bool :=
  match s with
  | EmptyString => true
  | String c rest => negb (isDelim c) && noDelim rest
  end.

End Lang.

(** ** Project languages (part_001:2930-2944, 3045-3096) *)

Module Project.

Import Model.

(** [l.indexOf(x)], with [None] for [-1]. *)
Definition indexOf (x : string) (l : list string) : option nat :=
  fst <$> list_find (fun y => y = x) l.

Definition with_languages (t : Text)
    (hs : gmap string string) (hls : list string) (hcur : option string)
    (ss : gmap string string) (sls : list string) (scur : option string) : Text :=
  {| headlineEnabled := headlineEnabled t;
     headlines := hs;
     headlineLanguages := hls;
     currentHeadlineLang := hcur;
     headlineFont := headlineFont t;
     headlineSize := headlineSize t;
     headlineWeight := headlineWeight t;
     headlineItalic := headlineItalic t;
     headlineUnderline := headlineUnderline t;
     headlineStrikethrough := headlineStrikethrough t;
     headlineColor := headlineColor t;
     position := position t;
     offsetY := offsetY t;
     lineHeight := lineHeight t;
     subheadlineEnabled := subheadlineEnabled t;
     subheadlines := ss;
     subheadlineLanguages := sls;
     currentSubheadlineLang := scur;
     subheadlineFont := subheadlineFont t;
     subheadlineSize := subheadlineSize t;
     subheadlineWeight := subheadlineWeight t;
     subheadlineItalic := subheadlineItalic t;
     subheadlineUnderline := subheadlineUnderline t;
     subheadlineStrikethrough := subheadlineStrikethrough t;
     subheadlineColor := subheadlineColor t;
     subheadlineOpacity := subheadlineOpacity t |}.

Definition with_text (u : Screenshot) (t : Text) : Screenshot :=
  {| image := image u;
     localizedImages := localizedImages u;
     background := background u;
     screenshot := screenshot u;
     text := t |}.

(** [switchGlobalLanguage], without its calls into the page and the store
    ([updateLanguageButton], [syncUIWithState], [updateCanvas],
    [saveState]), which leave the fields below alone. *)
Definition switchGlobalLanguage (st : State) (lang : string) : State :=
  {| screenshots :=
       (fun u =>
          let t := text u in
          with_text u
            (with_languages t
               (headlines t) (headlineLanguages t) (Some lang)
               (subheadlines t) (subheadlineLanguages t) (Some lang)))
       <$> screenshots st;
     selectedIndex := selectedIndex st;
     currentLanguage := lang;
     projectLanguages := projectLanguages st;
     defaults := defaults st |}.

(** The [indexOf]/[splice]/[delete] triple applied to a language list and
    its string map. *)
Definition dropLanguage (lang : string)
    (langs : list string) (strings : gmap string string)
  : list string * gmap string string :=
  match indexOf lang langs with
  | Some i => (delete i langs, delete lang strings)
  | None => (langs, strings)
  end.

(** [x === lang ? first : x] on a current-language field; [first] is
    [state.projectLanguages[0]] and is undefined for an empty list. *)
Definition repoint (lang : string) (first : option string)
    (cur : option string) : option string :=
  if decide (cur = Some lang) then first else cur.

(** The body of the [state.screenshots.forEach] callback. *)
Definition removeFromScreenshot (lang : string) (first : option string)
    (u : Screenshot) : Screenshot :=
  let t := text u in
  let '(hls, hs) := dropLanguage lang (headlineLanguages t) (headlines t) in
  let '(sls, ss) := dropLanguage lang (subheadlineLanguages t) (subheadlines t) in
  with_text u
    (with_languages t
       hs hls (repoint lang first (currentHeadlineLang t))
       ss sls (repoint lang first (currentSubheadlineLang t))).

Definition removeFromDefaults (lang : string) (d : Defaults) : Defaults :=
  let t := d_text d in
  let '(hls, hs) := dropLanguage lang (headlineLanguages t) (headlines t) in
  let '(sls, ss) := dropLanguage lang (subheadlineLanguages t) (subheadlines t) in
  {| d_background := d_background d;
     d_screenshot := d_screenshot d;
     d_text :=
       with_languages t hs hls (currentHeadlineLang t)
                      ss sls (currentSubheadlineLang t) |}.

Definition with_projectLanguages (st : State) (langs : list string) : State :=
  {| screenshots := screenshots st;
     selectedIndex := selectedIndex st;
     currentLanguage := currentLanguage st;
     projectLanguages := langs;
     defaults := defaults st |}.

(** The loop over the units and the statements on the defaults that follow
    the switch (lines 3057-3086); [state.projectLanguages[0]] is read in the
    loop. *)
Definition purge (lang : string) (st : State) : State :=
  let first := projectLanguages st !! 0%nat in
  {| screenshots := removeFromScreenshot lang first <$> screenshots st;
     selectedIndex := selectedIndex st;
     currentLanguage := currentLanguage st;
     projectLanguages := projectLanguages st;
     defaults := removeFromDefaults lang (defaults st) |}.

(** How a function that calls into the page part-way ends: it ran to its
    end, or a call threw and the rest was skipped.  In both cases the state
    is the one it had reached. *)
Inductive ending :=
| Finished (st : State)
| Aborted (st : State).

Definition stateOf (e : ending) : State :=
  match e with Finished st | Aborted st => st end.

(** [removeProjectLanguage], without the page and store calls at its end.
    When the language is the active one, [switchGlobalLanguage] is called
    before the units are touched, and it ends with [updateLanguageButton();
    syncUIWithState(); updateCanvas(); saveState()].  These do not change the
    fields below, but they may throw ([updateCanvas] does for a current unit
    whose settings lack the shadow or the frame object), and the rest of
    [removeProjectLanguage] is skipped then: [pageCalls st] says whether
    they return normally in the state [st].  After the splice the list is
    not empty (it had two entries at least), so [state.projectLanguages[0]]
    is defined where [switchGlobalLanguage] is called. *)
Definition removeProjectLanguage (pageCalls : State -> bool)
    (st : State) (lang : string) : ending :=
  if (length (projectLanguages st) <=? 1)%nat then Finished st
  else
    match indexOf lang (projectLanguages st) with
    | None => Finished st
    | Some index =>
        let st := with_projectLanguages st (delete index (projectLanguages st)) in
        if decide (currentLanguage st = lang) then
          match projectLanguages st !! 0%nat with
          | Some l =>
              let st := switchGlobalLanguage st l in
              if pageCalls st then Finished (purge lang st) else Aborted st
          | None => Finished (purge lang st)
          end
        else Finished (purge lang st)
    end.

End Project.

(** ** The settings setters (part_001:653-709) *)

Module Settings.

(** The setters walk a dotted path through whatever objects they find, so
    here the settings are untyped JavaScript values.  An object is the list
    of its own properties in insertion order, and two properties never share
    one object.  What an object inherits from [Object.prototype] (see
    [Proto.inheritedNames]) is no value of this type: the statements on the
    setters are made for keys that read no inherited name and do not write
    [__proto__]. *)
#[warnings="-register-all"] Inductive jsval :=
| JUndefined
| JNull
| JBool (b : bool)
| JNum (n : R)
| JStr (s : string)
| JObj (props : list (string * jsval)).

(** The result of a statement that may throw a [TypeError]. *)
Inductive outcome (A : Type) :=
| Ok (a : A)
| TypeError.

Arguments Ok {A} a.
Arguments TypeError {A}.

Fixpoint lookup_prop (k : string) (props : list (string * jsval)) : option jsval :=
  match props with
  | [] => None
  | (k', v) :: rest => if String.eqb k' k then Some v else lookup_prop k rest
  end.

(** Writing a property keeps its place when it exists and appends it when it
    does not. *)
Fixpoint assign_prop (k : string) (v : jsval) (props : list (string * jsval))
  : list (string * jsval) :=
  match props with
  | [] => [(k, v)]
  | (k', v') :: rest =>
      if String.eqb k' k then (k, v) :: rest else (k', v') :: assign_prop k v rest
  end.

(** [obj[k]] for a name [k] that the value does not inherit: reading through
    [undefined] or [null] throws, a property an object lacks reads as
    [undefined], and so does a property of a primitive (the walk of the
    setters is followed through objects only).  For an inherited name the
    code reads a built-in object instead, and does not throw on the next
    step. *)
Definition get (obj : jsval) (k : string) : outcome jsval :=
  match obj with
  | JUndefined | JNull => TypeError
  | JObj props => Ok (default JUndefined (lookup_prop k props))
  | _ => Ok JUndefined
  end.

(** [obj[k] = v] for a name [k] other than [__proto__]: writing through
    [undefined] or [null] throws; outside strict mode a write to a primitive
    is dropped.  A write to [__proto__] reaches the inherited setter and
    creates no property. *)
Definition set (obj : jsval) (k : string) (v : jsval) : outcome jsval :=
  match obj with
  | JUndefined | JNull => TypeError
  | JObj props => Ok (JObj (assign_prop k v props))
  | _ => Ok obj
  end.

(** The walk of lines 684-688 (and 700-704): follow every part but the last
    with [obj = obj[part]], then assign the last one.  The objects on the way
    are mutated in place, which the result shows as the same tree with the
    changed leaf. *)
Fixpoint assignPath (obj : jsval) (parts : list string) (value : jsval)
  : outcome jsval :=
  match parts with
  | [] => Ok obj
  | [last] => set obj last value
  | part :: (_ :: _) as rest =>
      match get obj part with
      | TypeError => TypeError
      | Ok child =>
          match assignPath child rest value with
          | TypeError => TypeError
          | Ok child' =>
              match obj with
              | JObj props =>
                  match lookup_prop part props with
                  | Some _ => Ok (JObj (assign_prop part child' props))
                  | None => Ok obj
                  end
              | _ => Ok obj
              end
          end
      end
  end.

(** A unit as the setters see it. *)
Record Screenshot := { background : jsval; screenshot : jsval }.

Record State := { screenshots : list Screenshot; selectedIndex : nat }.

(** [getCurrentScreenshot]: [null] for an empty list, otherwise the element
    at [selectedIndex], [undefined] when there is none; both are falsy. *)
Definition getCurrentScreenshot (st : State) : option Screenshot :=
  if (length (screenshots st) =? 0)%nat then None
  else screenshots st !! selectedIndex st.

Definition assignKey (obj : jsval) (key : string) (value : jsval) : outcome jsval :=
  if Str.includes "." key
  then assignPath obj (Str.split "." key) value
  else set obj key value.


Definition setScreenshotSetting (st : State) (key : string) (value : jsval)
  : outcome State :=
  match getCurrentScreenshot st with
  | None => Ok st
  | Some u =>
      match assignKey (screenshot u) key value with
      | TypeError => TypeError
      | Ok ss =>
          Ok {| screenshots :=
                  <[selectedIndex st := {| background := background u;
                                           screenshot := ss |}]>
                    (screenshots st);
                selectedIndex := selectedIndex st |}
      end
  end.



End Settings.

(** ** Project and text languages, continued
       (part_001:653-671, 3008-3043, 3099-3168, 3592-3594) *)

Module Languages.

Import Model Project.

(** [getCurrentScreenshot] on the typed model: [null] for an empty list,
    otherwise the element at [selectedIndex], if any. *)
Definition getCurrentScreenshot (st : State) : option Screenshot :=
  if (length (screenshots st) =? 0)%nat then None
  else screenshots st !! selectedIndex st.

(** [getText] (and [getTextSettings], which calls it). *)
Definition getText (st : State) : Text :=
  match getCurrentScreenshot st with
  | Some u => text u
  | None => d_text (defaults st)
  end.

(** The [includes]/[push]/assignment triple applied to a language list and
    its string map. *)
Definition enableLanguage (lang : string)
    (langs : list string) (strings : gmap string string)
  : list string * gmap string string :=
  if bool_decide (lang ∈ langs) then (langs, strings)
  else (langs ++ [lang], Proto.assign lang EmptyString strings).

(** The body of the [state.screenshots.forEach] callback of
    [addProjectLanguage]. *)
Definition addToScreenshot (lang : string) (u : Screenshot) : Screenshot :=
  let t := text u in
  let '(hls, hs) := enableLanguage lang (headlineLanguages t) (headlines t) in
  let '(sls, ss) := enableLanguage lang (subheadlineLanguages t) (subheadlines t) in
  with_text u
    (with_languages t hs hls (currentHeadlineLang t)
                    ss sls (currentSubheadlineLang t)).

Definition addToDefaults (lang : string) (d : Defaults) : Defaults :=
  let t := d_text d in
  let '(hls, hs) := enableLanguage lang (headlineLanguages t) (headlines t) in
  let '(sls, ss) := enableLanguage lang (subheadlineLanguages t) (subheadlines t) in
  {| d_background := d_background d;
     d_screenshot := d_screenshot d;
     d_text :=
       with_languages t hs hls (currentHeadlineLang t)
                      ss sls (currentSubheadlineLang t) |}.

(** [addProjectLanguage], without the page and store calls at its end. *)
Definition addProjectLanguage (st : State) (lang : string) : State :=
  if negb (Str.truthy lang) || bool_decide (lang ∈ projectLanguages st) then st
  else
    {| screenshots := addToScreenshot lang <$> screenshots st;
       selectedIndex := selectedIndex st;
       currentLanguage := currentLanguage st;
       projectLanguages := projectLanguages st ++ [lang];
       defaults := addToDefaults lang (defaults st) |}.

(** A statement on [getTextSettings()]: the text settings of the current
    unit when there is one, of the defaults otherwise, are replaced by
    [f] of them. *)
Definition onTextSettings (f : Text -> Text) (st : State) : State :=
  match getCurrentScreenshot st with
  | Some u =>
      with_screenshots st
        (<[selectedIndex st := with_text u (f (text u))]> (screenshots st))
  | None =>
      {| screenshots := screenshots st;
         selectedIndex := selectedIndex st;
         currentLanguage := currentLanguage st;
         projectLanguages := projectLanguages st;
         defaults :=
           {| d_background := d_background (defaults st);
              d_screenshot := d_screenshot (defaults st);
              d_text := f (d_text (defaults st)) |} |}
  end.

(** [switchHeadlineLanguage], without the text box it fills and the
    repaint. *)
Definition switchHeadlineLanguage (lang : option string) : State -> State :=
  onTextSettings (fun t =>
    with_languages t (headlines t) (headlineLanguages t) lang
                   (subheadlines t) (subheadlineLanguages t)
                   (currentSubheadlineLang t)).

(** [addHeadlineLanguage]; the [flag] argument is not read. *)
Definition addHeadlineLanguage (st : State) (lang : string) : State :=
  let text := getText st in
  if bool_decide (lang ∈ headlineLanguages text) then st
  else
    let st :=
      onTextSettings (fun t =>
        with_languages t (Proto.assign lang EmptyString (headlines t))
                       (headlineLanguages t ++ [lang])
                       (currentHeadlineLang t)
                       (subheadlines t) (subheadlineLanguages t)
                       (currentSubheadlineLang t)) st in
    switchHeadlineLanguage (Some lang) st.

(** [removeHeadlineLanguage] *)
Definition removeHeadlineLanguage (st : State) (lang : string) : State :=
  let text := getText st in
  if String.eqb lang "en" then st
  else
    match indexOf lang (headlineLanguages text) with
    | None => st
    | Some index =>
        let st :=
          onTextSettings (fun t =>
            with_languages t (delete lang (headlines t))
                           (delete index (headlineLanguages t))
                           (if decide (currentHeadlineLang t = Some lang)
                            then Some "en" else currentHeadlineLang t)
                           (subheadlines t) (subheadlineLanguages t)
                           (currentSubheadlineLang t)) st in
        switchHeadlineLanguage (currentHeadlineLang (getText st)) st
    end.


(** The text settings [t] list every language of [langs]. *)
Definition lists (langs : list string) (t : Text) : Prop :=
  forall l, l ∈ langs -> l ∈ headlineLanguages t /\ l ∈ subheadlineLanguages t.

(** What the language functions keep true of a project: the enabled
    languages are distinct, the active one is enabled, and every unit and the
    defaults list every enabled language. *)
Definition consistent (st : State) : Prop :=
  NoDup (projectLanguages st)
  /\ currentLanguage st ∈ projectLanguages st
  /\ (forall u, u ∈ screenshots st -> lists (projectLanguages st) (text u))
  /\ lists (projectLanguages st) (d_text (defaults st)).


End Languages.

(** ** Localized images (part_001:94-233) *)

Module Localized.

Import Model.

(** [m?.[lang]?.image] *)
Definition imageOf (m : gmap string LocalizedImage) (lang : string)
  : option Image :=
  m !! lang ≫= li_image.

(** The first language of [langs] with an image in [m]. *)
Fixpoint firstImage (m : gmap string LocalizedImage) (langs : list string)
  : option Image :=
  match langs with
  | [] => None
  | l :: rest =>
      match imageOf m l with
      | Some img => Some img
      | None => firstImage m rest
      end
  end.

(** [getScreenshotImage].  [keys] is [Object.keys(screenshot.localizedImages)],
    the languages of the unit's images in the order the object enumerates
    them, which the map does not record. *)
Definition getScreenshotImage (st : State) (keys : list string)
    (screenshot : option Screenshot) : option Image :=
  match screenshot with
  | None => None
  | Some u =>
      let m := localizedImages u in
      match imageOf m (currentLanguage st) with
      | Some img => Some img
      | None =>
          match firstImage m (projectLanguages st) with
          | Some img => Some img
          | None =>
              match firstImage m keys with
              | Some img => Some img
              | None => image u
              end
          end
      end
  end.

Definition with_localizedImages (u : Screenshot)
    (m : gmap string LocalizedImage) : Screenshot :=
  {| image := image u;
     localizedImages := m;
     background := background u;
     screenshot := screenshot u;
     text := text u |}.

(** [m[lang] = record] on the images of a unit.  Under the name
    [__proto__] the assignment reaches the inherited setter, which makes the
    record the prototype of [m] and creates no property, unless [m] has a
    property of that name itself: a finite map cannot hold the outcome, and
    there is none then. *)
Definition store (lang : string) (record : LocalizedImage)
    (m : gmap string LocalizedImage) : option (gmap string LocalizedImage) :=
  if String.eqb lang "__proto__" && negb (bool_decide (is_Some (m !! lang)))
  then None
  else Some (<[lang := record]> m).

(** [migrateScreenshotToLocalized]; [name] is [screenshot.name], which may
    be missing, and [detectedLang] defaults to ['en'] at the call. *)
Definition migrateScreenshotToLocalized (name : option string)
    (u : Screenshot) (detectedLang : string) : option Screenshot :=
  if (0 <? size (localizedImages u))%nat then Some u
  else
    match image u with
    | Some img =>
        with_localizedImages u
          <$> store detectedLang
                {| li_image := Some img;
                   li_src := img_src img;
                   li_name :=
                     match name with
                     | Some n => Str.or_else n "screenshot.png"
                     | None => "screenshot.png"
                     end |}
                (localizedImages u)
    | None => Some u
    end.

(** [addLocalizedImage], without the page, repaint and store calls at its
    end. *)
Definition addLocalizedImage (st : State) (screenshotIndex : nat)
    (lang : string) (image : Image) (src name : string) : option State :=
  match screenshots st !! screenshotIndex with
  | None => Some st
  | Some u =>
      match store lang {| li_image := Some image; li_src := src; li_name := name |}
                  (localizedImages u) with
      | None => None
      | Some m =>
          let u := with_localizedImages u m in
          let st := with_screenshots st (<[screenshotIndex := u]> (screenshots st)) in
          Some (if bool_decide (lang ∈ projectLanguages st) then st
                else Languages.addProjectLanguage st lang)
      end
  end.

(** [removeLocalizedImage], likewise.  The guard also passes on a name the
    images only inherit; [delete] removes nothing then, as here. *)
Definition removeLocalizedImage (st : State) (screenshotIndex : nat)
    (lang : string) : State :=
  match screenshots st !! screenshotIndex with
  | None => st
  | Some u =>
      match localizedImages u !! lang with
      | None => st
      | Some _ =>
          with_screenshots st
            (<[screenshotIndex := with_localizedImages u (delete lang (localizedImages u))]>
               (screenshots st))
      end
  end.

End Localized.

(** ** The unit list: reordering, deleting, copying a style
       (part_001:3848-3887, 3943-3955, 4002-4038) *)

Module Units.

Import Model Project.

Definition with_selection (st : State) (us : list Screenshot) (sel : nat)
  : State :=
  {| screenshots := us;
     selectedIndex := sel;
     currentLanguage := currentLanguage st;
     projectLanguages := projectLanguages st;
     defaults := defaults st |}.

(** [l.splice(i, 0, x)]: [x] goes in front of the element at [i], or to the
    end when there is none. *)
Definition spliceIn {A} (i : nat) (x : A) (l : list A) : list A :=
  take i l ++ x :: drop i l.

(** The index at which the [drop] handler of the item at [index] puts the
    dragged unit. *)
Definition dropTarget (dragged index : nat) (dropAbove : bool) : nat :=
  let targetIndex := if dropAbove then index else (index + 1)%nat in
  if (dragged <? targetIndex)%nat then (targetIndex - 1)%nat else targetIndex.

(** The [drop] handler of the list item at [index], with
    [draggedScreenshotIndex] and whether the pointer is in the upper half of
    the item; the repaint is left out.  A dragged index that names no unit
    would put [undefined] into the list, which the typed list cannot hold:
    the result is [None] then. *)
Definition dropOn (st : State) (draggedScreenshotIndex : option nat)
    (index : nat) (dropAbove : bool) : option State :=
  match draggedScreenshotIndex with
  | None => Some st
  | Some dragged =>
      if (dragged =? index)%nat then Some st
      else
        let targetIndex := dropTarget dragged index dropAbove in
        match screenshots st !! dragged with
        | None => None
        | Some draggedItem =>
            let us := delete dragged (screenshots st) in
            let us := spliceIn targetIndex draggedItem us in
            let sel := selectedIndex st in
            let sel :=
              if (sel =? dragged)%nat then targetIndex
              else if (dragged <? sel)%nat && (sel <=? targetIndex)%nat
                   then (sel - 1)%nat
                   else if (sel <? dragged)%nat && (targetIndex <=? sel)%nat
                        then (sel + 1)%nat
                        else sel in
            Some (with_selection st us sel)
        end
  end.

(** The click handler of the delete button of the item at [index]. *)
Definition deleteAt (st : State) (index : nat) : State :=
  let us := delete index (screenshots st) in
  let sel :=
    if (length us <=? selectedIndex st)%nat
    then Nat.max 0 (length us - 1)
    else selectedIndex st in
  with_selection st us sel.

(** [transferStyle], with [state.transferTarget] as the second component of
    the result; the repaint is left out.  A settings object survives
    [JSON.parse(JSON.stringify(...))] unchanged, the background image being
    put back by hand. *)
Definition transferStyle (st : State) (sourceIndex targetIndex : nat)
  : State * option nat :=
  match screenshots st !! sourceIndex, screenshots st !! targetIndex with
  | Some source, Some target =>
      let targetHeadlines := headlines (text target) in
      let targetSubheadlines := subheadlines (text target) in
      let t := text source in
      let target :=
        {| image := image target;
           localizedImages := localizedImages target;
           background := background source;
           screenshot := screenshot source;
           text :=
             with_languages t
               targetHeadlines (headlineLanguages t) (currentHeadlineLang t)
               targetSubheadlines (subheadlineLanguages t)
               (currentSubheadlineLang t) |} in
      (with_screenshots st (<[targetIndex := target]> (screenshots st)), None)
  | _, _ => (st, None)
  end.

End Units.

(** ** Position presets (part_001:3642-3674) *)

Module Presets.

Import Settings.
Local Open Scope R_scope.

Record Preset := {
  p_scale : R; p_x : R; p_y : R; p_rotation : R; p_perspective : R
}.

(** The entries of the [presets] table. *)
Definition presets (preset : string) : option Preset :=
  if String.eqb preset "centered" then
    Some {| p_scale := 70; p_x := 50; p_y := 50; p_rotation := 0; p_perspective := 0 |}
  else if String.eqb preset "bleed-bottom" then
    Some {| p_scale := 85; p_x := 50; p_y := 120; p_rotation := 0; p_perspective := 0 |}
  else if String.eqb preset "bleed-top" then
    Some {| p_scale := 85; p_x := 50; p_y := -20; p_rotation := 0; p_perspective := 0 |}
  else if String.eqb preset "float-center" then
    Some {| p_scale := 60; p_x := 50; p_y := 50; p_rotation := 0; p_perspective := 0 |}
  else if String.eqb preset "tilt-left" then
    Some {| p_scale := 65; p_x := 50; p_y := 55; p_rotation := -8; p_perspective := 0 |}
  else if String.eqb preset "tilt-right" then
    Some {| p_scale := 65; p_x := 50; p_y := 55; p_rotation := 8; p_perspective := 0 |}
  else if String.eqb preset "perspective" then
    Some {| p_scale := 65; p_x := 50; p_y := 50; p_rotation := 0; p_perspective := 15 |}
  else if String.eqb preset "float-bottom" then
    Some {| p_scale := 55; p_x := 50; p_y := 70; p_rotation := 0; p_perspective := 0 |}
  else None.

(** The state with [u] in the place of the active unit. *)
Definition replaceCurrent (st : State) (u : Screenshot) : State :=
  {| screenshots := <[selectedIndex st := u]> (screenshots st);
     selectedIndex := selectedIndex st |}.

(** Sequencing of statements that may throw. *)
Definition andThen {A B} (o : outcome A) (f : A -> outcome B) : outcome B :=
  match o with
  | Ok a => f a
  | TypeError => TypeError
  end.

(** The five [setScreenshotSetting] calls. *)
Definition setFive (st : State) (scale x y rotation perspective : jsval)
  : outcome State :=
  andThen (setScreenshotSetting st "scale" scale) (fun st =>
  andThen (setScreenshotSetting st "x" x) (fun st =>
  andThen (setScreenshotSetting st "y" y) (fun st =>
  andThen (setScreenshotSetting st "rotation" rotation) (fun st =>
  setScreenshotSetting st "perspective" perspective)))).

(** [applyPositionPreset].  The statements after the five setter calls fill
    the controls and repaint ([updateCanvas]); they change no setting, and
    [pageCalls st] tells whether they return in the state [st]: the call
    throws when they do not.  For an inherited name [p] is truthy and its
    five properties are [undefined]. *)
Definition applyPositionPreset (pageCalls : State -> bool) (st : State)
    (preset : string) : outcome State :=
  let finish st := if pageCalls st then Ok st else TypeError in
  match presets preset with
  | Some p =>
      andThen (setFive st (JNum (p_scale p)) (JNum (p_x p)) (JNum (p_y p))
                       (JNum (p_rotation p)) (JNum (p_perspective p)))
              finish
  | None =>
      if Proto.inherited preset
      then andThen (setFive st JUndefined JUndefined JUndefined JUndefined
                            JUndefined)
                   finish
      else Ok st
  end.

End Presets.

(** ** Line wrapping, continued (part_001:5004-5026) *)

Module Wrap.

(** The lines [wrapText] returns from the accumulator its loop ends with:
    [if (currentLine) lines.push(currentLine); return lines]. *)
Definition finish (acc : list string * string) : list string :=
  if Str.truthy acc.2 then acc.1 ++ [acc.2] else acc.1.

End Wrap.

(** ** The main canvas and the export (part_001:1301-1316, 1508-1548,
       4091-4228, 4670-5002, 5028-5082) *)

Module Preview.

Import Model Canvas.
Local Open Scope R_scope.

(** The entries of the [deviceDimensions] table. *)
Definition deviceDimensions (device : string) : option Dims :=
  if String.eqb device "iphone-6.9" then Some {| width := 1320; height := 2868 |}
  else if String.eqb device "iphone-6.7" then Some {| width := 1290; height := 2796 |}
  else if String.eqb device "iphone-6.5" then Some {| width := 1284; height := 2778 |}
  else if String.eqb device "iphone-5.5" then Some {| width := 1242; height := 2208 |}
  else if String.eqb device "ipad-12.9" then Some {| width := 2048; height := 2732 |}
  else if String.eqb device "ipad-11" then Some {| width := 1668; height := 2388 |}
  else if String.eqb device "android-phone" then Some {| width := 1080; height := 1920 |}
  else if String.eqb device "android-phone-hd" then Some {| width := 1440; height := 2560 |}
  else if String.eqb device "android-tablet-7" then Some {| width := 1200; height := 1920 |}
  else if String.eqb device "android-tablet-10" then Some {| width := 1600; height := 2560 |}
  else if String.eqb device "web-og" then Some {| width := 1200; height := 630 |}
  else if String.eqb device "web-twitter" then Some {| width := 1200; height := 675 |}
  else if String.eqb device "web-hero" then Some {| width := 1920; height := 1080 |}
  else if String.eqb device "web-feature" then Some {| width := 1024; height := 500 |}
  else None.

(** The project state together with the output fields of [state]. *)
Record App := {
  state : State;
  outputDevice : string;
  customWidth : R;
  customHeight : R
}.

(** [getCanvasDimensions]; [None] is [undefined], the answer for a device
    name that the table neither has nor inherits.  For an inherited name
    ([Proto.inherited]) the answer is an object without width and height,
    which [Dims] cannot hold: the statements below leave such names out. *)
Definition getCanvasDimensions (app : App) : option Dims :=
  if String.eqb (outputDevice app) "custom"
  then Some {| width := customWidth app; height := customHeight app |}
  else deviceDimensions (outputDevice app).

Definition getBackground (st : State) : Background :=
  match Languages.getCurrentScreenshot st with
  | Some u => background u
  | None => d_background (defaults st)
  end.

Definition getScreenshotSettings (st : State) : ScreenshotSettings :=
  match Languages.getCurrentScreenshot st with
  | Some u => screenshot u
  | None => d_screenshot (defaults st)
  end.

(** [state.selectedIndex = i] *)
Definition select (app : App) (i : nat) : App :=
  {| state :=
       {| screenshots := screenshots (state app);
          selectedIndex := i;
          currentLanguage := currentLanguage (state app);
          projectLanguages := projectLanguages (state app);
          defaults := defaults (state app) |};
     outputDevice := outputDevice app;
     customWidth := customWidth app;
     customHeight := customHeight app |}.

(** A call on the context of the main canvas that the renderers of the side
    canvases do not make, or one they make too ([Ctx]): the path calls of
    the [roundRect] helper, a shadow colour built by [hexToRgba], and the
    two calls into the 3D module. *)
Inductive call :=
| Ctx (c : cmd)
| MoveTo (x y : R)
| LineTo (x y : R)
| QuadraticCurveTo (cpx cpy x y : R)
| ClosePath
| SetShadowColorRgba (hex : string) (alpha : R)
| UpdateScreenTexture
| RenderThreeJSToCanvas (w h : R).

(** The main canvas element with its context. *)
Record MainCanvas := {
  m_width : R;
  m_height : R;
  m_style_width : R;
  m_style_height : R;
  m_ops : list call
}.

Definition m_draw (c : MainCanvas) (cs : list call) : MainCanvas :=
  {| m_width := m_width c; m_height := m_height c;
     m_style_width := m_style_width c; m_style_height := m_style_height c;
     m_ops := m_ops c ++ cs |}.

(** [drawBackground]: the body of [drawBackgroundToContext] on the main
    context, with [getCanvasDimensions()] and [getBackground()]. *)
Definition drawBackground (dims : Dims) (st : State) : list call :=
  Ctx <$> drawBackgroundToContext dims (getBackground st).

(** The [roundRect] helper.  The radius is NaN when [cornerRadius] is
    missing ([None] here); a path call with a NaN argument is ignored, which
    leaves [closePath]. *)
Definition roundRect (x y width height : R) (radius : option R) : list call :=
  match radius with
  | Some radius =>
      [ MoveTo (x + radius) y;
        LineTo (x + width - radius) y;
        QuadraticCurveTo (x + width) y (x + width) (y + radius);
        LineTo (x + width) (y + height - radius);
        QuadraticCurveTo (x + width) (y + height) (x + width - radius) (y + height);
        LineTo (x + radius) (y + height);
        QuadraticCurveTo x (y + height) x (y + height - radius);
        LineTo x (y + radius);
        QuadraticCurveTo x y (x + radius) y;
        ClosePath ]
  | None => [ClosePath]
  end.

(** The result of a function that may throw a [TypeError]. *)
Local Abbreviation outcome := Settings.outcome.
Local Abbreviation Ok := Settings.Ok.
Local Abbreviation TypeError := Settings.TypeError.

(** [drawDeviceFrame]; [fr] is [settings.frame], which its caller has
    read. *)
Definition drawDeviceFrame (x y width height : R)
    (settings : ScreenshotSettings) (fr : Frame) : list call :=
  let frameColor := frame_color fr in
  let frameWidth := frame_width fr * (width / 400) in
  let frameOpacity := frame_opacity fr / 100 in
  let radius :=
    match cornerRadius settings with
    | Some r => Some (r * (width / 400) + frameWidth)
    | None => None
    end in
  [ Ctx (SetGlobalAlpha frameOpacity);
    Ctx (SetStrokeStyle frameColor);
    Ctx (SetLineWidth frameWidth);
    Ctx BeginPath ]
  ++ roundRect (x - frameWidth / 2) (y - frameWidth / 2)
               (width + frameWidth) (height + frameWidth) radius
  ++ [ Ctx Stroke; Ctx (SetGlobalAlpha 1) ].

(** The calls of [drawScreenshot] once the image, [settings.shadow] and
    [settings.frame] have been read. *)
Definition screenshotCalls (dims : Dims) (img : Image)
    (settings : ScreenshotSettings) (sh : Shadow) (fr : Frame) : list call :=
  let scale := scale settings / 100 in
  let imgWidth0 := width dims * scale in
  let imgHeight0 := (img_height img / img_width img) * imgWidth0 in
  let '(imgWidth, imgHeight) :=
    if Rgtb imgHeight0 (height dims * scale) then
      let imgHeight := height dims * scale in
      ((img_width img / img_height img) * imgHeight, imgHeight)
    else (imgWidth0, imgHeight0) in
  let x := (width dims - imgWidth) * (x settings / 100) in
  let y := (height dims - imgHeight) * (y settings / 100) in
  let centerX := x + imgWidth / 2 in
  let centerY := y + imgHeight / 2 in
  let radius :=
    match cornerRadius settings with
    | Some r => Some (r * (imgWidth / 400))
    | None => None
    end in
  [Ctx Save]
  ++ (Ctx <$> placeTransform centerX centerY settings)
  ++ (if shadow_enabled sh then
        [ SetShadowColorRgba (shadow_color sh) (shadow_opacity sh / 100);
          Ctx (SetShadowBlur (shadow_blur sh));
          Ctx (SetShadowOffsetX (shadow_x sh));
          Ctx (SetShadowOffsetY (shadow_y sh));
          Ctx (SetFillStyle (CssColor "#000"));
          Ctx BeginPath ]
        ++ roundRect x y imgWidth imgHeight radius
        ++ [ Ctx Fill;
             Ctx (SetShadowColor ShadowTransparent);
             Ctx (SetShadowBlur 0);
             Ctx (SetShadowOffsetX 0);
             Ctx (SetShadowOffsetY 0) ]
      else [])
  ++ [Ctx BeginPath]
  ++ roundRect x y imgWidth imgHeight radius
  ++ [ Ctx Clip;
       Ctx (DrawImage img x y imgWidth imgHeight);
       Ctx Restore ]
  ++ (if frame_enabled fr then
        [Ctx Save]
        ++ (Ctx <$> placeTransform centerX centerY settings)
        ++ drawDeviceFrame x y imgWidth imgHeight settings fr
        ++ [Ctx Restore]
      else []).

(** [drawScreenshot].  There is no guard on the image, the shadow and the
    frame: reading a property of a missing one throws. *)
Definition drawScreenshot (dims : Dims) (st : State) : outcome (list call) :=
  match screenshots st !! selectedIndex st with
  | None => Ok []
  | Some screenshot =>
      match image screenshot with
      | None => TypeError
      | Some img =>
          let settings := getScreenshotSettings st in
          match shadow settings with
          | None => TypeError
          | Some sh =>
              match frame settings with
              | None => TypeError
              | Some fr => Ok (screenshotCalls dims img settings sh fr)
              end
          end
      end
  end.

Section Browser.

Variable text_width : Font -> string -> R.

(** [getImageData] on a side canvas and on the main canvas. *)
Variable getImageData : Surface -> R -> R -> R -> R -> list Z.
Variable getMainImageData : MainCanvas -> R -> R -> R -> R -> list Z.

Variable random : nat -> R.

(** [drawText]: the body of [drawTextToContext] on the main context, with
    [getCanvasDimensions()] and [getTextSettings()]. *)
Definition drawText (dims : Dims) (st : State) : list call :=
  Ctx <$> drawTextToContext text_width dims (Languages.getText st).

(** [data[j] = Math.min(255, Math.max(0, data[j] + noise))] *)
Definition addNoise (data : list Z) (j : nat) (noise : R) : list Z :=
  match data !! j with
  | Some v => <[j := toUint8Clamped (Rmin 255 (Rmax 0 (IZR v + noise)))]> data
  | None => data
  end.

(** The loop of [drawNoise], as [Canvas.noiseLoop] is that of
    [drawNoiseToContext]. *)
Fixpoint noiseLoop (fuel : nat) (intensity : R) (i : nat) (data : list Z)
    (k : nat) : list Z * nat :=
  match fuel with
  | O => (data, k)
  | S fuel' =>
      if (i <? length data)%nat then
        let noise := (random k - 1 / 2) * intensity in
        let data := addNoise data i noise in
        let data := addNoise data (i + 1) noise in
        let data := addNoise data (i + 2) noise in
        noiseLoop fuel' intensity (i + 4) data (S k)
      else (data, k)
  end.

Definition drawNoise (c : MainCanvas) (dims : Dims) (st : State) (k : nat)
  : list call * nat :=
  let data := getMainImageData c 0 0 (width dims) (height dims) in
  let intensity := noiseIntensity (getBackground st) / 100 * 50 in
  let '(data, k) := noiseLoop (length data) intensity 0 data k in
  ([Ctx (PutImageData data 0 0)], k).

(** What the functions below read of the page: whether the store is open
    ([db]), whether [renderThreeJSToCanvas] and [updateScreenTexture] are
    functions, what the side renderer reads, and [skipSidePreviewRender]. *)
Record MainEnv := {
  db : bool;
  hasRenderThreeJSToCanvas : bool;
  hasUpdateScreenTexture : bool;
  side : Env;
  skipSidePreviewRender : bool
}.

(** The main canvas and the four side canvases. *)
Record Canvases := {
  main : MainCanvas;
  canvasLeft : Surface;
  canvasFarLeft : Surface;
  canvasRight : Surface;
  canvasFarRight : Surface
}.

(** [saveState], as far as it can fail: with the store open it reads
    [s.image.src] of every unit.  What it writes is outside the model. *)
Definition saveState (env : MainEnv) (st : State) : outcome unit :=
  if db env
     && existsb (fun s => match image s with None => true | Some _ => false end)
                (screenshots st)
  then TypeError else Ok tt.

(** [updateSidePreviews], without the placement and the visibility of the
    side canvases and the preloading of 3D models. *)
Definition updateSidePreviews (dims : Dims) (env : MainEnv) (st : State)
    (cs : Canvases) (k : nat) : Canvases * nat :=
  let previewScale := Rmin (400 / width dims) (700 / height dims) in
  let render := renderScreenshotToCanvas text_width getImageData random st (side env) in
  let n := length (screenshots st) in
  let sel := selectedIndex st in
  let '(cLeft, k) :=
    if (1 <=? sel)%nat && (1 <? n)%nat && negb (skipSidePreviewRender env)
    then render (sel - 1)%nat (canvasLeft cs) dims previewScale k
    else (canvasLeft cs, k) in
  let '(cFarLeft, k) :=
    if (2 <=? sel)%nat && (2 <? n)%nat
    then render (sel - 2)%nat (canvasFarLeft cs) dims previewScale k
    else (canvasFarLeft cs, k) in
  let '(cRight, k) :=
    if (sel + 1 <? n)%nat && (1 <? n)%nat && negb (skipSidePreviewRender env)
    then render (sel + 1)%nat (canvasRight cs) dims previewScale k
    else (canvasRight cs, k) in
  let '(cFarRight, k) :=
    if (sel + 2 <? n)%nat && (2 <? n)%nat
    then render (sel + 2)%nat (canvasFarRight cs) dims previewScale k
    else (canvasFarRight cs, k) in
  ({| main := main cs; canvasLeft := cLeft; canvasFarLeft := cFarLeft;
      canvasRight := cRight; canvasFarRight := cFarRight |}, k).

(** The image layer of [updateCanvas] (lines 4121-4133). *)
Definition drawImageLayer (dims : Dims) (env : MainEnv) (st : State)
  : outcome (list call) :=
  if (0 <? length (screenshots st))%nat then
    let ss := getScreenshotSettings st in
    let use3D := use3D ss || false in
    if use3D && hasRenderThreeJSToCanvas env && phoneModelLoaded (side env) then
      Ok ((if hasUpdateScreenTexture env then [UpdateScreenTexture] else [])
          ++ [RenderThreeJSToCanvas (width dims) (height dims)])
    else if negb use3D then drawScreenshot dims st
    else Ok []
  else Ok [].

(** [updateCanvas].  Assigning [canvas.width] resets the main canvas; an
    output device without dimensions makes that assignment throw. *)
Definition updateCanvas (env : MainEnv) (app : App) (cs : Canvases) (k : nat)
  : outcome (Canvases * nat) :=
  let st := state app in
  match saveState env st with
  | Settings.TypeError => TypeError
  | Settings.Ok _ =>
      match getCanvasDimensions app with
      | None => TypeError
      | Some dims =>
          let scale := Rmin (400 / width dims) (700 / height dims) in
          let canvas :=
            {| m_width := width dims; m_height := height dims;
               m_style_width := width dims * scale;
               m_style_height := height dims * scale;
               m_ops := [] |} in
          let canvas := m_draw canvas (drawBackground dims st) in
          let '(canvas, k) :=
            if noise (getBackground st) then
              let '(calls, k) := drawNoise canvas dims st k in
              (m_draw canvas calls, k)
            else (canvas, k) in
          match drawImageLayer dims env st with
          | Settings.TypeError => TypeError
          | Settings.Ok calls =>
              let canvas := m_draw canvas calls in
              let canvas := m_draw canvas (drawText dims st) in
              let cs :=
                {| main := canvas; canvasLeft := canvasLeft cs;
                   canvasFarLeft := canvasFarLeft cs;
                   canvasRight := canvasRight cs;
                   canvasFarRight := canvasFarRight cs |} in
              Ok (updateSidePreviews dims env st cs k)
          end
      end
  end.

(** [`screenshot-${i + 1}.png`] *)
Definition fileName (i : nat) : string :=
  "screenshot-" +:+ pretty (i + 1)%nat +:+ ".png".

(** The [for] loop of [exportAll] over [indices]; [zip] maps a file
    name to the main canvas whose picture the file holds, a later file
    replacing an earlier one of the same name.  The loop runs without
    another handler changing the state during its waits. *)
Fixpoint exportLoop (env : MainEnv) (app : App) (indices : list nat)
    (zip : gmap string MainCanvas) (cs : Canvases) (k : nat)
  : outcome (gmap string MainCanvas * Canvases * nat) :=
  match indices with
  | [] => Ok (zip, cs, k)
  | i :: rest =>
      match updateCanvas env (select app i) cs k with
      | Settings.TypeError => TypeError
      | Settings.Ok (cs, k) =>
          exportLoop env app rest (<[fileName i := main cs]> zip) cs k
      end
  end.

(** [exportAll]: the archive offered for download, if any, and the
    application afterwards.  An exception ends the function before the
    archive is made. *)
Definition exportAll (env : MainEnv) (app : App) (cs : Canvases) (k : nat)
  : outcome (option (gmap string MainCanvas) * App * Canvases * nat) :=
  let n := length (screenshots (state app)) in
  if (n =? 0)%nat then Ok (None, app, cs, k)
  else
    let originalIndex := selectedIndex (state app) in
    match exportLoop env app (seq 0 n) ∅ cs k with
    | Settings.TypeError => TypeError
    | Settings.Ok (zip, cs, k) =>
        let app := select app originalIndex in
        match updateCanvas env app cs k with
        | Settings.TypeError => TypeError
        | Settings.Ok (cs, k) => Ok (Some zip, app, cs, k)
        end
    end.

End Browser.


(** The calls of the main canvas that a side canvas can receive too. *)
Definition shared (c : call) : option cmd :=
  match c with
  | Ctx c => Some c
  | _ => None
  end.

(** A call other than the two things the main and the side renderer do
    differently: building a rounded path and setting a shadow colour. *)
Definition common (c : cmd) : bool :=
  match c with
  | RoundRect _ _ _ _ _ | SetShadowColor (ShadowHex _ _) => false
  | _ => true
  end.

End Preview.

(** ** File names of localized screenshots (part_001:13-57) *)

Module Files.

Import Model Lang.

(** A string without a dot. *)
Fixpoint noDot (s : string) : bool :=
  match s with
  | EmptyString => true
  | String c rest => negb (Ascii.eqb c ".") && noDot rest
  end.

(** [filename.replace(/\.[^.]+$/, '')]: the leftmost place where a dot is
    followed by one character at least and no further dot, up to the end,
    is where the string is cut. *)
Fixpoint withoutExt (filename : string) : string :=
  match filename with
  | EmptyString => EmptyString
  | String c rest =>
      if Ascii.eqb c "." && Str.truthy rest && noDot rest then EmptyString
      else String c (withoutExt rest)
  end.

(** [[_-]${escapedLang}(?:[_-][a-z]{2})?$], without the end anchor, which
    the matcher below supplies. *)
Definition basePattern (lang : string) : regex :=
  Cat (OneOf ["_"; "-"]%char)
      (escapedLang false lang
         (Opt (Cat (OneOf ["_"; "-"]%char)
                   (Cat (Range "a" "z") (Range "a" "z"))))).

(** [$]: nothing is left. *)
Definition atEnd (rest : string) : bool := negb (Str.truthy rest).

(** [pattern.test(s)] and [s.replace(pattern, '')] for a pattern anchored
    at the end: the leftmost place from which the pattern reaches the end is
    where the string is cut; [None] when the pattern does not match. *)
Fixpoint cutMatch (r : regex) (s : string) : option string :=
  if accept r s atEnd then Some EmptyString
  else match s with
       | EmptyString => None
       | String c rest => String c <$> cutMatch r rest
       end.

(** The [for (const lang of sortedLangs)] loop. *)
Fixpoint firstCut (langs : list string) (withoutExt : string) : string :=
  match langs with
  | [] => withoutExt
  | lang :: rest =>
      match cutMatch (basePattern lang) withoutExt with
      | Some base => base
      | None => firstCut rest withoutExt
      end
  end.

Definition getBaseFilename (filename : string) : string :=
  firstCut sortedLangs (withoutExt filename).

(** Whether a stored image of the unit has the base name [baseName]; the
    answer does not depend on the order in which the languages are
    visited. *)
Definition hasBaseName (baseName : string) (u : Screenshot) : bool :=
  existsb (fun li =>
             Str.truthy (li_name li)
             && String.eqb (getBaseFilename (li_name li)) baseName)
          (map_to_list (localizedImages u)).*2.

(** [findScreenshotByBaseFilename], with [None] for [-1]. *)
Definition findScreenshotByBaseFilename (st : State) (filename : string)
  : option nat :=
  let baseName := getBaseFilename filename in
  fst <$> list_find (fun u => hasBaseName baseName u = true) (screenshots st).

End Files.

(** ** The AI providers (part_000:4-82) *)

Module Providers.

Record Provider := {
  name : string;
  keyPrefix : string;
  storageKey : string;
  modelStorageKey : string;
  models : list (string * string);
  defaultModel : string
}.

(** The entries of the [llmProviders] table. *)
Definition llmProviders (provider : string) : option Provider :=
  if String.eqb provider "anthropic" then
    Some {| name := "Anthropic (Claude)";
            keyPrefix := "sk-ant-";
            storageKey := "claudeApiKey";
            modelStorageKey := "anthropicModel";
            models := [ ("claude-haiku-4-5-20251001", "Claude Haiku 4.5 ($)");
                        ("claude-sonnet-4-5-20250929", "Claude Sonnet 4.5 ($$)");
                        ("claude-opus-4-5-20251101", "Claude Opus 4.5 ($$$)") ];
            defaultModel := "claude-sonnet-4-5-20250929" |}
  else if String.eqb provider "openai" then
    Some {| name := "OpenAI (GPT)";
            keyPrefix := "sk-";
            storageKey := "openaiApiKey";
            modelStorageKey := "openaiModel";
            models := [ ("gpt-5.1-2025-11-13", "GPT-5.1 ($$$)");
                        ("gpt-5-mini-2025-08-07", "GPT-5 Mini ($$)");
                        ("gpt-5-nano-2025-08-07", "GPT-5 Nano ($)") ];
            defaultModel := "gpt-5-mini-2025-08-07" |}
  else if String.eqb provider "google" then
    Some {| name := "Google (Gemini)";
            keyPrefix := "AIza";
            storageKey := "googleApiKey";
            modelStorageKey := "googleModel";
            models := [ ("gemini-3-pro-preview", "Gemini 3 Pro Preview ($$$)");
                        ("gemini-3-flash-preview", "Gemini 3 Flash Preview ($$)") ];
            defaultModel := "gemini-3-flash-preview" |}
  else None.

(** [localStorage]: [getItem] of a key that is not stored gives [null]. *)
Definition Storage := gmap string string.

(** [getSelectedModel].  For an inherited name [config] is truthy and
    its properties are [undefined]: the item stored under 'undefined' is
    read, and [undefined] returned without one. *)
Definition getSelectedModel (localStorage : Storage) (provider : string)
  : Settings.jsval :=
  match llmProviders provider with
  | Some config =>
      Settings.JStr
        (match localStorage !! modelStorageKey config with
         | Some v => Str.or_else v (defaultModel config)
         | None => defaultModel config
         end)
  | None =>
      if Proto.inherited provider then
        match localStorage !! "undefined" with
        | Some v => if Str.truthy v then Settings.JStr v else Settings.JUndefined
        | None => Settings.JUndefined
        end
      else Settings.JNull
  end.

(** [validateApiKeyFormat].  [startsWith] turns the [undefined] prefix of
    an inherited name into the string 'undefined'. *)
Definition validateApiKeyFormat (provider key : string) : bool :=
  match llmProviders provider with
  | Some config => String.prefix (keyPrefix config) key
  | None =>
      if Proto.inherited provider then String.prefix "undefined" key else false
  end.

End Providers.

(** ** The drawing state of a 2D context *)

Module Look.

Import Canvas.
Local Open Scope R_scope.

(** The part of a context's drawing state that decides how later calls
    look: opacity, filter, shadow, and whether a transform or a clip has been
    applied since the state was fresh. *)
Record Look := {
  globalAlpha : R;
  filter : Filter;
  shadowColor : ShadowColor;
  shadowBlur : R;
  shadowOffsetX : R;
  shadowOffsetY : R;
  transformed : bool;
  clipped : bool
}.

(** The state of a context whose canvas has just been sized. *)
Definition fresh : Look :=
  {| globalAlpha := 1; filter := FilterNone; shadowColor := ShadowTransparent;
     shadowBlur := 0; shadowOffsetX := 0; shadowOffsetY := 0;
     transformed := false; clipped := false |}.

(** The effect of one call other than [save] and [restore]. *)
Definition apply (l : Look) (c : cmd) : Look :=
  match c with
  | SetGlobalAlpha a =>
      {| globalAlpha := a; filter := filter l; shadowColor := shadowColor l;
         shadowBlur := shadowBlur l; shadowOffsetX := shadowOffsetX l;
         shadowOffsetY := shadowOffsetY l; transformed := transformed l;
         clipped := clipped l |}
  | SetFilter f =>
      {| globalAlpha := globalAlpha l; filter := f; shadowColor := shadowColor l;
         shadowBlur := shadowBlur l; shadowOffsetX := shadowOffsetX l;
         shadowOffsetY := shadowOffsetY l; transformed := transformed l;
         clipped := clipped l |}
  | SetShadowColor s =>
      {| globalAlpha := globalAlpha l; filter := filter l; shadowColor := s;
         shadowBlur := shadowBlur l; shadowOffsetX := shadowOffsetX l;
         shadowOffsetY := shadowOffsetY l; transformed := transformed l;
         clipped := clipped l |}
  | SetShadowBlur b =>
      {| globalAlpha := globalAlpha l; filter := filter l;
         shadowColor := shadowColor l;
         shadowBlur := b; shadowOffsetX := shadowOffsetX l;
         shadowOffsetY := shadowOffsetY l; transformed := transformed l;
         clipped := clipped l |}
  | SetShadowOffsetX v =>
      {| globalAlpha := globalAlpha l; filter := filter l;
         shadowColor := shadowColor l;
         shadowBlur := shadowBlur l; shadowOffsetX := v;
         shadowOffsetY := shadowOffsetY l; transformed := transformed l;
         clipped := clipped l |}
  | SetShadowOffsetY v =>
      {| globalAlpha := globalAlpha l; filter := filter l;
         shadowColor := shadowColor l;
         shadowBlur := shadowBlur l; shadowOffsetX := shadowOffsetX l;
         shadowOffsetY := v; transformed := transformed l;
         clipped := clipped l |}
  | Translate _ _ | Rotate _ | Transform _ _ _ _ _ _ =>
      {| globalAlpha := globalAlpha l; filter := filter l;
         shadowColor := shadowColor l;
         shadowBlur := shadowBlur l; shadowOffsetX := shadowOffsetX l;
         shadowOffsetY := shadowOffsetY l; transformed := true;
         clipped := clipped l |}
  | Clip =>
      {| globalAlpha := globalAlpha l; filter := filter l;
         shadowColor := shadowColor l;
         shadowBlur := shadowBlur l; shadowOffsetX := shadowOffsetX l;
         shadowOffsetY := shadowOffsetY l; transformed := transformed l;
         clipped := true |}
  | _ => l
  end.

(** The state and the stack of saved states after a list of calls.
    [restore] on an empty stack does nothing. *)
Fixpoint run (l : Look) (saved : list Look) (cs : list cmd) : Look * list Look :=
  match cs with
  | [] => (l, saved)
  | Save :: cs => run l (l :: saved) cs
  | Restore :: cs =>
      match saved with
      | [] => run l [] cs
      | l' :: saved => run l' saved cs
      end
  | c :: cs => run (apply l c) saved cs
  end.

(** Neither [save] nor [restore]. *)
Definition plain (c : cmd) : bool :=
  match c with Save | Restore => false | _ => true end.

End Look.

(** ** The specification's wording, as definitions to compare the code with *)

Module Spec.

Import Model.
Local Open Scope R_scope.

(** Section 4.4: display width is [dims.width * scalePercent/100], the height
    keeps the source aspect ratio; if that height exceeds
    [dims.height * scalePercent/100], width and height are re-derived from
    that height. *)
Definition displaySize (dims : Dims) (img : Image) (scalePercent : R) : R * R :=
  let displayWidth := width dims * scalePercent / 100 in
  let displayHeight := displayWidth * img_height img / img_width img in
  let maxHeight := height dims * scalePercent / 100 in
  if Rgt_dec displayHeight maxHeight
  then (maxHeight * img_width img / img_height img, maxHeight)
  else (displayWidth, displayHeight).

(** Section 4.4: top-left is
    [((dims.width - displayWidth) * x/100, (dims.height - displayHeight) * y/100)]. *)
Definition topLeft (dims : Dims) (size : R * R) (x y : R) : R * R :=
  ((width dims - fst size) * x / 100, (height dims - snd size) * y / 100).

(** Section 4.5: greedy word wrap.  Words join the current line while the
    measured width stays within the wrap width; on overflow the line is
    committed and the overflowing word starts the next one; a word that
    starts a line is taken whatever its width. *)
Fixpoint greedyWrap (measure : string -> R) (wrapWidth : R)
    (line : string) (words : list string) : list string :=
  match words with
  | [] => if Str.truthy line then [line] else []
  | word :: rest =>
      if Str.truthy line then
        if Rle_dec (measure (line +:+ " " +:+ word)) wrapWidth
        then greedyWrap measure wrapWidth (line +:+ " " +:+ word) rest
        else line :: greedyWrap measure wrapWidth word rest
      else greedyWrap measure wrapWidth word rest
  end.

End Spec.

(** ** Concrete values

    The default settings of [state.defaults] (part_001:577-649) and a project
    around them, used where a property is run on an input. *)

Module Examples.

Import Model.
Local Open Scope R_scope.

Definition iphone : Dims := {| width := 1290; height := 2796 |}.

Definition portrait : Image :=
  {| img_src := "shot.png"; img_width := 1290; img_height := 2796 |}.

Definition landscape : Image :=
  {| img_src := "wide.png"; img_width := 2796; img_height := 1290 |}.

Definition tall : Image :=
  {| img_src := "tall.png"; img_width := 1000; img_height := 3000 |}.

Definition defaultBackground : Background :=
  {| bg_type := "gradient";
     gradient :=
       {| angle := 135;
          stops := [ {| stop_color := "#667eea"; stop_position := 0 |};
                     {| stop_color := "#764ba2"; stop_position := 100 |} ] |};
     solid := "#1a1a2e";
     bg_image := None;
     imageFit := "cover";
     imageBlur := 0;
     overlayColor := "#000000";
     overlayOpacity := 0;
     noise := false;
     noiseIntensity := 10 |}.

Definition defaultScreenshot : ScreenshotSettings :=
  {| scale := 70;
     y := 55;
     x := 50;
     rotation := 0;
     perspective := 0;
     cornerRadius := Some 24;
     use3D := false;
     shadow :=
       Some {| shadow_enabled := true; shadow_color := "#000000";
               shadow_blur := 40; shadow_opacity := 30;
               shadow_x := 0; shadow_y := 20 |};
     frame :=
       Some {| frame_enabled := false; frame_color := "#1d1d1f";
               frame_width := 12; frame_opacity := 100 |} |}.

Definition sfPro : string := "-apple-system, BlinkMacSystemFont, 'SF Pro Display'".

Definition textWith (hs : gmap string string) (hls : list string)
    (hcur : option string) : Text :=
  {| headlineEnabled := Some true;
     headlines := hs;
     headlineLanguages := hls;
     currentHeadlineLang := hcur;
     headlineFont := sfPro;
     headlineSize := 100;
     headlineWeight := "600";
     headlineItalic := false;
     headlineUnderline := false;
     headlineStrikethrough := false;
     headlineColor := "#ffffff";
     position := "top";
     offsetY := 12;
     lineHeight := 110;
     subheadlineEnabled := false;
     subheadlines := {[ "en" := EmptyString ]};
     subheadlineLanguages := ["en"];
     currentSubheadlineLang := Some "en";
     subheadlineFont := sfPro;
     subheadlineSize := 50;
     subheadlineWeight := "400";
     subheadlineItalic := false;
     subheadlineUnderline := false;
     subheadlineStrikethrough := false;
     subheadlineColor := "#ffffff";
     subheadlineOpacity := 70 |}.

Definition defaultText : Text :=
  textWith {[ "en" := EmptyString ]} ["en"] (Some "en").

(** A measure for running the text layout: one pixel a character. *)
Definition onePerChar (f : Canvas.Font) (s : string) : R :=
  INR (String.length s).

Definition headlineFontOf (t : Text) : Canvas.Font :=
  {| Canvas.font_style := "normal";
     Canvas.font_weight := headlineWeight t;
     Canvas.font_size := headlineSize t;
     Canvas.font_family := headlineFont t |}.

(** A canvas nothing was drawn on yet. *)
Definition blank : Canvas.Surface :=
  {| Canvas.s_width := 300; Canvas.s_height := 150;
     Canvas.s_style_width := 300; Canvas.s_style_height := 150;
     Canvas.s_ops := [] |}.

(** A pixel read-back for the examples: it returns no pixel. *)
Definition noPixels (s : Canvas.Surface) (x y w h : R) : list Z := [].

Definition env2D : Canvas.Env :=
  {| Canvas.hasRenderThreeJS := false; Canvas.phoneModelLoaded := false |}.

Definition solidBackground : Background :=
  {| bg_type := "solid";
     gradient := gradient defaultBackground;
     solid := "#1a1a2e";
     bg_image := None;
     imageFit := "cover";
     imageBlur := 0;
     overlayColor := "#000000";
     overlayOpacity := 0;
     noise := false;
     noiseIntensity := 10 |}.

Definition helloText : Text :=
  textWith {[ "en" := "Hi" ]} ["en"] (Some "en").

(** A unit with the default settings and the portrait image. *)
Definition unitWithImage : Screenshot :=
  {| image := Some portrait;
     localizedImages := ∅;
     background := defaultBackground;
     screenshot := defaultScreenshot;
     text := helloText |}.

(** A unit whose image is missing: solid background, headline "Hi". *)
Definition unitWithoutImage : Screenshot :=
  {| image := None;
     localizedImages := ∅;
     background := solidBackground;
     screenshot := defaultScreenshot;
     text := helloText |}.

Definition projectOf (us : list Screenshot) : State :=
  {| screenshots := us;
     selectedIndex := 0;
     currentLanguage := "en";
     projectLanguages := ["en"];
     defaults :=
       {| d_background := defaultBackground;
          d_screenshot := defaultScreenshot;
          d_text := defaultText |} |}.

(** A unit as the setters see it, saved before shadows existed: its
    screenshot settings have no [shadow] and its background no [gradient]. *)
Definition legacyUnit : Settings.Screenshot :=
  {| Settings.background :=
       Settings.JObj [("type", Settings.JStr "solid");
                      ("solid", Settings.JStr "#1a1a2e")];
     Settings.screenshot :=
       Settings.JObj [("scale", Settings.JNum 70);
                      ("x", Settings.JNum 50);
                      ("y", Settings.JNum 55)] |}.

(** A unit carrying the default shadow and gradient objects. *)
Definition currentUnit : Settings.Screenshot :=
  {| Settings.background :=
       Settings.JObj [("type", Settings.JStr "gradient");
                      ("gradient",
                       Settings.JObj [("angle", Settings.JNum 135)])];
     Settings.screenshot :=
       Settings.JObj [("scale", Settings.JNum 70);
                      ("shadow",
                       Settings.JObj [("enabled", Settings.JBool true);
                                      ("blur", Settings.JNum 40)])] |}.


(** A project in English and German.  The first unit has a German image
    and text; the second lost German from its own headline list
    ([removeHeadlineLanguage]) and had a German headline typed afterwards. *)
Definition shotDe : LocalizedImage :=
  {| li_image := Some portrait; li_src := "data:de"; li_name := "shot_de.png" |}.

Definition shotEn : LocalizedImage :=
  {| li_image := Some portrait; li_src := "data:en"; li_name := "shot.png" |}.

Definition bilingualUnit : Screenshot :=
  {| image := Some portrait;
     localizedImages := {[ "en" := shotEn; "de" := shotDe ]};
     background := defaultBackground;
     screenshot := defaultScreenshot;
     text := textWith {[ "en" := "Hi"; "de" := "Hallo" ]} ["en"; "de"] (Some "de") |}.

Definition unlistedUnit : Screenshot :=
  {| image := Some portrait;
     localizedImages := {[ "en" := shotEn ]};
     background := defaultBackground;
     screenshot := defaultScreenshot;
     text := textWith {[ "en" := "Hi"; "de" := "Hallo" ]} ["en"] (Some "de") |}.

Definition bilingualProject : State :=
  {| screenshots := [bilingualUnit; unlistedUnit];
     selectedIndex := 0;
     currentLanguage := "de";
     projectLanguages := ["en"; "de"];
     defaults :=
       {| d_background := defaultBackground;
          d_screenshot := defaultScreenshot;
          d_text := textWith {[ "en" := EmptyString; "de" := EmptyString ]}
                             ["en"; "de"] (Some "en") |} |}.

End Examples.

(** ** More concrete values *)

Module Samples.

Import Model.
Local Open Scope R_scope.

(** One unit with the default settings, in English. *)
Definition englishProject : State := Examples.projectOf [Examples.unitWithImage].

(** Two units, the second without its image. *)
Definition twoUnits : State :=
  Examples.projectOf [Examples.unitWithImage; Examples.unitWithoutImage].

(** An English-German project whose only unit lists both languages. *)
Definition germanProject : State :=
  {| screenshots := [Examples.bilingualUnit];
     selectedIndex := 0;
     currentLanguage := "de";
     projectLanguages := ["en"; "de"];
     defaults := defaults Examples.bilingualProject |}.

Definition appOf (st : State) : Preview.App :=
  {| Preview.state := st;
     Preview.outputDevice := "iphone-6.7";
     Preview.customWidth := 1290;
     Preview.customHeight := 2796 |}.

(** A page without a store and without the 3D module. *)
Definition plainEnv : Preview.MainEnv :=
  {| Preview.db := false;
     Preview.hasRenderThreeJSToCanvas := false;
     Preview.hasUpdateScreenTexture := false;
     Preview.side := Examples.env2D;
     Preview.skipSidePreviewRender := false |}.

Definition blankMain : Preview.MainCanvas :=
  {| Preview.m_width := 300; Preview.m_height := 150;
     Preview.m_style_width := 300; Preview.m_style_height := 150;
     Preview.m_ops := [] |}.

Definition blankCanvases : Preview.Canvases :=
  {| Preview.main := blankMain;
     Preview.canvasLeft := Examples.blank;
     Preview.canvasFarLeft := Examples.blank;
     Preview.canvasRight := Examples.blank;
     Preview.canvasFarRight := Examples.blank |}.

(** The wide image as a background that covers the canvas. *)
Definition coverBackground : Background :=
  {| bg_type := "image";
     gradient := gradient Examples.defaultBackground;
     solid := "#1a1a2e";
     bg_image := Some Examples.landscape;
     imageFit := "cover";
     imageBlur := 0;
     overlayColor := "#000000";
     overlayOpacity := 0;
     noise := false;
     noiseIntensity := 10 |}.

(** A headline and a subheadline at the bottom of the canvas. *)
Definition captionText : Text :=
  {| headlineEnabled := Some true;
     headlines := {[ "en" := "Hi" ]};
     headlineLanguages := ["en"];
     currentHeadlineLang := Some "en";
     headlineFont := Examples.sfPro;
     headlineSize := 100;
     headlineWeight := "600";
     headlineItalic := false;
     headlineUnderline := false;
     headlineStrikethrough := false;
     headlineColor := "#ffffff";
     position := "bottom";
     offsetY := 12;
     lineHeight := 110;
     subheadlineEnabled := true;
     subheadlines := {[ "en" := "there" ]};
     subheadlineLanguages := ["en"];
     currentSubheadlineLang := Some "en";
     subheadlineFont := Examples.sfPro;
     subheadlineSize := 50;
     subheadlineWeight := "400";
     subheadlineItalic := false;
     subheadlineUnderline := false;
     subheadlineStrikethrough := false;
     subheadlineColor := "#ffffff";
     subheadlineOpacity := 70 |}.

(** A pixel read-back of the main canvas that returns no pixel, and a
    random source that always returns one half. *)
Definition noMainPixels (c : Preview.MainCanvas) (x y w h : R) : list Z := [].

Definition half (k : nat) : R := 1 / 2.

End Samples.

(** * Properties *)

(** ** Screenshot placement *)

Section Placement.

Import Model Canvas.
Local Open Scope R_scope.

Lemma Rgtb_true a b : Rgtb a b = true <-> a > b.
Proof. unfold Rgtb. destruct (Rgt_dec a b); split; intros; try easy. Qed.

Lemma Rgtb_false a b : Rgtb a b = false <-> a <= b.
Proof. unfold Rgtb. destruct (Rgt_dec a b); split; intros; try easy; lra. Qed.

Lemma placeTransform_no_image cx cy st :
  forallb (fun c => negb (isDrawImage c)) (placeTransform cx cy st) = true.
Proof.
  unfold placeTransform.
  destruct (nonzero (rotation st)), (nonzero (perspective st)); reflexivity.
Qed.

Lemma regroup {A} (a b c l d : list A) :
  a ++ b ++ c ++ l ++ d = (a ++ b ++ c) ++ l ++ d.
Proof. now rewrite <- !app_assoc. Qed.

(** The 2D renderer clips to the box [placement] computes and draws the
    image into that box, once. *)
Lemma drawScreenshot_box dims img settings :
  exists pre post,
    drawScreenshotToContext dims (Some img) settings
    = pre
      ++ (match placement dims img settings with
          | (x, y, w, h) =>
              [ BeginPath;
                RoundRect x y w h (cornerRadius_or_0 settings * (w / 400));
                Clip;
                DrawImage img x y w h;
                Restore ]
          end)
      ++ post
    /\ forallb (fun c => negb (isDrawImage c)) pre = true
    /\ forallb (fun c => negb (isDrawImage c)) post = true.
Proof.
  unfold drawScreenshotToContext, placement.
  destruct (Rgtb _ _); cbv zeta iota beta.
  all: eexists; eexists; split; [apply regroup|].
  all: rewrite !forallb_app, placeTransform_no_image.
  all: destruct (shadow settings) as [sh|]; [destruct (shadow_enabled sh)|].
  all: destruct (frame settings) as [fr|]; [destruct (frame_enabled fr)|].
  all: cbn -[placeTransform];
    rewrite ?forallb_app, ?placeTransform_no_image; auto.
Qed.

(** The computed box is the one the specification words. *)
Lemma placement_spec dims img settings :
  let size := Spec.displaySize dims img (scale settings) in
  let corner := Spec.topLeft dims size (x settings) (y settings) in
  placement dims img settings = (fst corner, snd corner, fst size, snd size).
Proof.
  cbv zeta. unfold placement, Spec.displaySize, Spec.topLeft.
  replace (width dims * scale settings / 100 * img_height img / img_width img)
    with (img_height img / img_width img * (width dims * (scale settings / 100)))
    by (unfold Rdiv; ring).
  replace (height dims * scale settings / 100)
    with (height dims * (scale settings / 100)) by (unfold Rdiv; ring).
  unfold Rgtb.
  destruct (Rgt_dec _ _); cbn [fst snd]; repeat f_equal; unfold Rdiv; ring.
Qed.

Lemma drawScreenshot_only_image dims img settings c :
  In c (drawScreenshotToContext dims (Some img) settings) ->
  isDrawImage c = true ->
  c = match placement dims img settings with
      | (x, y, w, h) => DrawImage img x y w h
      end.
Proof.
  destruct (drawScreenshot_box dims img settings) as (pre & post & E & Hpre & Hpost).
  rewrite E. intros Hin Hc.
  rewrite forallb_forall in Hpre, Hpost.
  destruct (placement dims img settings) as [[[x0 y0] w] h].
  apply in_app_or in Hin as [Hin | Hin].
  - apply Hpre in Hin. rewrite Hc in Hin. discriminate.
  - apply in_app_or in Hin as [Hin | Hin].
    + cbn in Hin. destruct Hin as [<- | [<- | [<- | [<- | [<- | []]]]]];
        try discriminate. reflexivity.
    + apply Hpost in Hin. rewrite Hc in Hin. discriminate.
Qed.

Lemma displaySize_ratio dims img scalePercent :
  0 < img_width img -> 0 < img_height img ->
  let size := Spec.displaySize dims img scalePercent in
  fst size * img_height img = snd size * img_width img.
Proof.
  intros Hw Hh. cbv zeta. unfold Spec.displaySize.
  destruct (Rgt_dec _ _); cbn [fst snd]; field; lra.
Qed.

Lemma displaySize_fits dims img scalePercent :
  0 < img_width img -> 0 < img_height img ->
  let size := Spec.displaySize dims img scalePercent in
  fst size <= width dims * scalePercent / 100
  /\ snd size <= height dims * scalePercent / 100.
Proof.
  intros Hw Hh. cbv zeta. unfold Spec.displaySize.
  set (a := width dims * scalePercent / 100).
  set (b := height dims * scalePercent / 100).
  destruct (Rgt_dec _ _) as [Hgt | Hle]; cbn [fst snd].
  - split; [|lra].
    assert (Hb : b * img_width img < a * img_height img).
    { apply (Rmult_lt_reg_r (/ img_width img)).
      - now apply Rinv_0_lt_compat.
      - replace (b * img_width img * / img_width img) with b by (field; lra).
        unfold Rdiv in Hgt. lra. }
    apply (Rmult_le_reg_r (img_height img)); [lra|].
    replace (b * img_width img / img_height img * img_height img)
      with (b * img_width img) by (field; lra).
    lra.
  - split; lra.
Qed.

Lemma displaySize_positive dims img scalePercent :
  0 < width dims -> 0 < height dims ->
  0 < img_width img -> 0 < img_height img -> 0 < scalePercent ->
  let size := Spec.displaySize dims img scalePercent in
  0 < fst size /\ 0 < snd size.
Proof.
  intros Hdw Hdh Hw Hh Hs. cbv zeta. unfold Spec.displaySize.
  assert (Ha : 0 < width dims * scalePercent / 100).
  { apply Rdiv_lt_0_compat; [apply Rmult_lt_0_compat|]; lra. }
  assert (Hb : 0 < height dims * scalePercent / 100).
  { apply Rdiv_lt_0_compat; [apply Rmult_lt_0_compat|]; lra. }
  destruct (Rgt_dec _ _); cbn [fst snd]; split; try lra.
  all: apply Rdiv_lt_0_compat; [apply Rmult_lt_0_compat|]; lra.
Qed.

(** Interpolating between the two flush placements stays between them. *)
Lemma anchor_within (total size pct : R) :
  size <= total -> 0 <= pct <= 100 ->
  0 <= (total - size) * pct / 100
  /\ (total - size) * pct / 100 + size <= total.
Proof.
  intros Hs [H0 H1].
  assert (0 <= (total - size) * pct) by (apply Rmult_le_pos; lra).
  assert ((total - size) * pct <= (total - size) * 100)
    by (apply Rmult_le_compat_l; lra).
  lra.
Qed.

(** A portrait source taller than the canvas is bound by the height: at 70%
    of the iPhone canvas it is 1957.2 pixels high and a third of that
    wide. *)
Example displaySize_tall :
  Spec.displaySize Examples.iphone Examples.tall 70
  = (2796 * 70 / 100 * 1000 / 3000, 2796 * 70 / 100).
Proof.
  unfold Spec.displaySize. cbn [width height img_width img_height
    Examples.iphone Examples.tall].
  destruct (Rgt_dec _ _) as [_ | Hle]; [reflexivity | exfalso; lra].
Qed.

(** A landscape source is bound by the width: 903 pixels wide. *)
Example displaySize_landscape :
  Spec.displaySize Examples.iphone Examples.landscape 70
  = (1290 * 70 / 100, 1290 * 70 / 100 * 1290 / 2796).
Proof.
  unfold Spec.displaySize. cbn [width height img_width img_height
    Examples.iphone Examples.landscape].
  destruct (Rgt_dec _ _) as [Hgt | _]; [exfalso; lra | reflexivity].
Qed.

(** C1.  For every source image (of positive natural size) and every
    screenshot settings object the 2D renderer clips to, and draws the image
    into, the box the specification words: display width
    [dims.width * scalePercent/100] with the height that keeps the aspect
    ratio, or, when that height exceeds [dims.height * scalePercent/100],
    that height with the width re-derived from it; top-left at
    [((dims.width - displayWidth) * x/100, (dims.height - displayHeight) * y/100)].
    The box has the aspect ratio of the source and fits the scaled canvas,
    whether the source is portrait or landscape; the image is drawn nowhere
    else. *)
Theorem drawScreenshotToContext_geometry dims img settings :
  0 < img_width img -> 0 < img_height img ->
  let size := Spec.displaySize dims img (scale settings) in
  let corner := Spec.topLeft dims size (x settings) (y settings) in
  (exists pre post,
      drawScreenshotToContext dims (Some img) settings
      = pre
        ++ [ BeginPath;
             RoundRect (fst corner) (snd corner) (fst size) (snd size)
                       (cornerRadius_or_0 settings * (fst size / 400));
             Clip;
             DrawImage img (fst corner) (snd corner) (fst size) (snd size);
             Restore ]
        ++ post
      /\ forallb (fun c => negb (isDrawImage c)) pre = true
      /\ forallb (fun c => negb (isDrawImage c)) post = true)
  /\ fst size * img_height img = snd size * img_width img
  /\ fst size <= width dims * scale settings / 100
  /\ snd size <= height dims * scale settings / 100.
Proof.
  intros Hw Hh. cbv zeta. split.
  - destruct (drawScreenshot_box dims img settings) as (pre & post & E & Hpre & Hpost).
    exists pre, post. rewrite E.
    pose proof (placement_spec dims img settings) as P. cbv zeta in P.
    rewrite P. auto.
  - split.
    + now apply displaySize_ratio.
    + now apply displaySize_fits.
Qed.

(** The geometry at the defaults, for the tall source on the iPhone canvas:
    the aspect ratio is kept and the box fits 70% of the canvas. *)
Lemma drawScreenshotToContext_geometry_witness :
  let size := Spec.displaySize Examples.iphone Examples.tall 70 in
  (0 < img_width Examples.tall /\ 0 < img_height Examples.tall)
  /\ fst size * 3000 = snd size * 1000
  /\ fst size <= 1290 * 70 / 100
  /\ snd size <= 2796 * 70 / 100.
Proof.
  assert (Hw : 0 < img_width Examples.tall) by (simpl; lra).
  assert (Hh : 0 < img_height Examples.tall) by (simpl; lra).
  split; [split; assumption|].
  exact (proj2 (drawScreenshotToContext_geometry
                  Examples.iphone Examples.tall Examples.defaultScreenshot
                  Hw Hh)).
Defined.

(** C8.  With [scalePercent] in (0,100] and [x], [y] in [0,100], on a canvas
    and for an image of positive size, the box the image is drawn in lies
    within the canvas: its top-left corner is not negative and the corner
    plus the display size does not pass the canvas size. *)
Theorem screenshot_box_within_canvas dims img settings :
  0 < width dims -> 0 < height dims ->
  0 < img_width img -> 0 < img_height img ->
  0 < scale settings <= 100 ->
  0 <= x settings <= 100 -> 0 <= y settings <= 100 ->
  exists x0 y0 w h,
    In (DrawImage img x0 y0 w h) (drawScreenshotToContext dims (Some img) settings)
    /\ (forall c, In c (drawScreenshotToContext dims (Some img) settings) ->
                  isDrawImage c = true -> c = DrawImage img x0 y0 w h)
    /\ 0 <= x0 /\ 0 <= y0
    /\ x0 + w <= width dims /\ y0 + h <= height dims
    /\ 0 < w /\ 0 < h.
Proof.
  intros Hdw Hdh Hw Hh Hs Hx Hy.
  pose proof (drawScreenshot_only_image dims img settings) as Only.
  destruct (drawScreenshot_box dims img settings) as (pre & post & E & _).
  pose proof (placement_spec dims img settings) as P. cbv zeta in P.
  rewrite P in Only, E. clear P.
  set (size := Spec.displaySize dims img (scale settings)) in *.
  destruct (displaySize_fits dims img (scale settings) Hw Hh) as [Fw Fh].
  destruct (displaySize_positive dims img (scale settings)) as [Pw Ph];
    try assumption; try lra.
  fold size in Fw, Fh, Pw, Ph.
  assert (Sw : fst size <= width dims).
  { assert (width dims * scale settings <= width dims * 100)
      by (apply Rmult_le_compat_l; lra). lra. }
  assert (Sh : snd size <= height dims).
  { assert (height dims * scale settings <= height dims * 100)
      by (apply Rmult_le_compat_l; lra). lra. }
  destruct (anchor_within (width dims) (fst size) (x settings) Sw Hx) as [X0 X1].
  destruct (anchor_within (height dims) (snd size) (y settings) Sh Hy) as [Y0 Y1].
  eexists _, _, _, _. split; [|split; [exact Only|]].
  - rewrite E. apply in_or_app. right. apply in_or_app. left.
    cbn. right. right. right. left. reflexivity.
  - unfold Spec.topLeft. cbn [fst snd]. repeat split; assumption.
Qed.

(** The default placement of a portrait source on the iPhone canvas. *)
Lemma screenshot_box_within_canvas_witness :
  exists x0 y0 w h,
    In (DrawImage Examples.portrait x0 y0 w h)
       (drawScreenshotToContext Examples.iphone (Some Examples.portrait)
          Examples.defaultScreenshot)
    /\ (forall c,
           In c (drawScreenshotToContext Examples.iphone (Some Examples.portrait)
                   Examples.defaultScreenshot) ->
           isDrawImage c = true -> c = DrawImage Examples.portrait x0 y0 w h)
    /\ 0 <= x0 /\ 0 <= y0
    /\ x0 + w <= 1290 /\ y0 + h <= 2796
    /\ 0 < w /\ 0 < h.
Proof.
  apply (screenshot_box_within_canvas
           Examples.iphone Examples.portrait Examples.defaultScreenshot);
    simpl; lra.
Defined.

End Placement.

(** ** The noise pass *)

Section NoiseFacts.

Import Model Canvas.
Local Open Scope R_scope.

Variable getImageData : Surface -> R -> R -> R -> R -> list Z.
Variable random : nat -> R.

Local Abbreviation noiseLoop := (Canvas.noiseLoop random).
Local Abbreviation drawNoiseToContext := (Canvas.drawNoiseToContext getImageData random).

(** What one channel holds after the noise [n] was added to [v]. *)
Local Abbreviation perturbed n v :=
  (toUint8Clamped (Rmax 0 (Rmin 255 (IZR v + n)))).

Lemma toUint8Clamped_byte v : (0 <= toUint8Clamped v <= 255)%Z.
Proof. unfold toUint8Clamped. lia. Qed.

Lemma addNoise_length data j n : length (addNoise data j n) = length data.
Proof.
  unfold addNoise. destruct (data !! j); [apply length_insert | reflexivity].
Qed.

Lemma addNoise_lookup data j n i :
  addNoise data j n !! i
  = if decide (j = i) then (fun v => perturbed n v) <$> data !! i else data !! i.
Proof.
  unfold addNoise. destruct (decide (j = i)) as [-> | Hne].
  - destruct (data !! i) as [v|] eqn:E; cbn.
    + apply list_lookup_insert_eq. now apply lookup_lt_Some in E.
    + exact E.
  - destruct (data !! j); [now apply list_lookup_insert_ne | reflexivity].
Qed.

Lemma noiseLoop_length fuel amount i data k :
  length (noiseLoop fuel amount i data k).1 = length data.
Proof.
  revert i data k. induction fuel as [|fuel IH]; intros i data k;
    cbn [Canvas.noiseLoop]; [reflexivity|].
  destruct (i <? length data)%nat; [|reflexivity].
  rewrite IH, !addNoise_length. reflexivity.
Qed.

(** The loop started at pixel [q] leaves the pixels before [q] and every
    alpha byte as they are, and gives the three colour bytes of a later
    pixel [p] the value perturbed by the noise drawn for that pixel. *)
Lemma noiseLoop_lookup fuel amount q data k p c :
  (length data <= 4 * q + 4 * fuel)%nat -> (c < 4)%nat ->
  (noiseLoop fuel amount (4 * q) data k).1 !! (4 * p + c)%nat
  = if ((p <? q) || (c =? 3))%nat then data !! (4 * p + c)%nat
    else (fun v => perturbed ((random (k + (p - q)) - 1 / 2) * 255 * amount) v)
           <$> data !! (4 * p + c)%nat.
Proof.
  revert q data k. induction fuel as [|fuel IH]; intros q data k Hlen Hc.
  - cbn [Canvas.noiseLoop fst].
    destruct ((p <? q) || (c =? 3))%nat eqn:E; [reflexivity|].
    apply orb_false_iff in E as [E1 E2].
    apply Nat.ltb_ge in E1.
    rewrite (lookup_ge_None_2 data) by lia. reflexivity.
  - cbn [Canvas.noiseLoop].
    destruct (4 * q <? length data)%nat eqn:Hi.
    + replace (4 * q + 4)%nat with (4 * S q)%nat by lia.
      rewrite IH by (rewrite ?addNoise_length; lia).
      rewrite !addNoise_lookup.
      destruct (p <? q)%nat eqn:E1.
      * apply Nat.ltb_lt in E1.
        replace (p <? S q)%nat with true by (symmetry; apply Nat.ltb_lt; lia).
        cbn [orb]. repeat (destruct (decide _); [lia|]). reflexivity.
      * apply Nat.ltb_ge in E1. cbn [orb].
        destruct (c =? 3)%nat eqn:E2.
        { apply Nat.eqb_eq in E2. rewrite orb_true_r.
          repeat (destruct (decide _); [lia|]). reflexivity. }
        apply Nat.eqb_neq in E2. rewrite orb_false_r.
        destruct (p <? S q)%nat eqn:E3.
        { apply Nat.ltb_lt in E3. assert (p = q) by lia. subst p.
          replace (k + (q - q))%nat with k by lia.
          destruct (data !! (4 * q + c)%nat) as [v|] eqn:Ev;
            repeat (destruct (decide _)); try lia; reflexivity. }
        apply Nat.ltb_ge in E3.
        replace (S k + (p - S q))%nat with (k + (p - q))%nat by lia.
        repeat (destruct (decide _); [lia|]). reflexivity.
    + apply Nat.ltb_ge in Hi. cbn [fst].
      destruct ((p <? q) || (c =? 3))%nat eqn:E; [reflexivity|].
      apply orb_false_iff in E as [E1 E2].
      apply Nat.ltb_ge in E1.
      rewrite (lookup_ge_None_2 data) by lia. reflexivity.
Qed.

(** C10.  The noise pass writes back one image: it has the size of the one
    read; the alpha byte of every pixel is the one read; the red, green and
    blue bytes of pixel [p] are the bytes read plus one and the same random
    delta [(random - 0.5) * 255 * intensity/100], drawn once for that pixel,
    clamped to [0,255]. *)
Theorem drawNoiseToContext_keeps_alpha (s : Surface) (dims : Dims)
    (intensity : R) (k : nat) :
  let data := getImageData s 0 0 (width dims) (height dims) in
  exists data',
    (drawNoiseToContext s dims intensity k).1 = [PutImageData data' 0 0]
    /\ length data' = length data
    /\ (forall p, data' !! (4 * p + 3)%nat = data !! (4 * p + 3)%nat)
    /\ (forall p c, (c < 3)%nat ->
          data' !! (4 * p + c)%nat
          = (fun v => perturbed ((random (k + p) - 1 / 2) * 255 * (intensity / 100)) v)
              <$> data !! (4 * p + c)%nat)
    /\ (forall p c v, (c < 3)%nat -> data' !! (4 * p + c)%nat = Some v ->
          (0 <= v <= 255)%Z).
Proof.
  cbv zeta. unfold Canvas.drawNoiseToContext.
  set (data := getImageData s 0 0 (width dims) (height dims)).
  pose proof (noiseLoop_length (length data) (intensity / 100) 0 data k) as Hlen.
  pose proof (fun p c => noiseLoop_lookup (length data) (intensity / 100)
                           0 data k p c) as Hget.
  change (4 * 0)%nat with 0%nat in Hget.
  destruct (noiseLoop (length data) (intensity / 100) 0 data k) as [data' k'].
  cbn [fst] in *. exists data'.
  assert (Hval : forall p c, (c < 3)%nat ->
            data' !! (4 * p + c)%nat
            = (fun v => perturbed ((random (k + p) - 1 / 2) * 255 * (intensity / 100)) v)
                <$> data !! (4 * p + c)%nat).
  { intros p c Hc. specialize (Hget p c).
    rewrite Hget by lia.
    replace (c =? 3)%nat with false by (symmetry; apply Nat.eqb_neq; lia).
    cbn. now rewrite Nat.sub_0_r. }
  split; [reflexivity|]. split; [exact Hlen|]. split; [|split; [exact Hval|]].
  - intros p. specialize (Hget p 3%nat).
    rewrite Hget by lia. now rewrite orb_true_r.
  - intros p c v Hc Hv. rewrite Hval in Hv by assumption.
    destruct (data !! (4 * p + c)%nat); [|discriminate].
    injection Hv as <-. apply toUint8Clamped_byte.
Qed.

End NoiseFacts.

(** ** Line wrapping *)

Section WrapFacts.

Import Model Canvas.
Local Open Scope R_scope.

Variable text_width : Font -> string -> R.

Local Abbreviation wrapStep := (Canvas.wrapStep text_width).
Local Abbreviation wrapText := (Canvas.wrapText text_width).

Lemma append_cons (c : ascii) (a b : string) :
  String c a +:+ b = String c (a +:+ b).
Proof. reflexivity. Qed.

Lemma append_assoc (a b c : string) : (a +:+ b) +:+ c = a +:+ (b +:+ c).
Proof.
  induction a as [|x a IH]; [reflexivity|].
  now rewrite !append_cons, IH.
Qed.

Lemma truthy_append a b : Str.truthy a = true -> Str.truthy (a +:+ b) = true.
Proof. destruct a; [discriminate | reflexivity]. Qed.

Lemma falsy_empty a : Str.truthy a = false -> a = EmptyString.
Proof. destruct a; [reflexivity | discriminate]. Qed.

(** The accumulator loop of the code against the recursion of the
    specification. *)
Lemma wrap_fold font maxWidth words lines cur :
  (let '(lines', cur') := fold_left (wrapStep font maxWidth) words (lines, cur) in
   if Str.truthy cur' then lines' ++ [cur'] else lines')
  = lines ++ Spec.greedyWrap (text_width font) maxWidth cur words.
Proof.
  revert lines cur. induction words as [|word rest IH]; intros lines cur.
  - cbn. destruct (Str.truthy cur); [reflexivity | now rewrite app_nil_r].
  - cbn [fold_left Spec.greedyWrap]. unfold Canvas.wrapStep at 2.
    destruct (Str.truthy cur) eqn:Hcur.
    + unfold Rgtb. rewrite andb_true_r.
      destruct (Rgt_dec _ _) as [Hgt | Hle];
        destruct (Rle_dec _ _) as [Hle' | Hgt']; try lra.
      * rewrite IH, <- app_assoc. reflexivity.
      * apply IH.
    + rewrite andb_false_r, IH.
      apply falsy_empty in Hcur. subst cur. reflexivity.
Qed.

Lemma wrapText_refines font text maxWidth :
  wrapText font text maxWidth
  = Spec.greedyWrap (text_width font) maxWidth EmptyString (Str.split " " text).
Proof.
  unfold Canvas.wrapText.
  exact (wrap_fold font maxWidth (Str.split " " text) [] EmptyString).
Qed.

Lemma split_no_sep sep w :
  Str.includes sep w = false -> Str.split sep w = [w].
Proof.
  induction w as [|c w IH]; cbn; [reflexivity|].
  intros H. apply orb_false_iff in H as [Hc Hw].
  rewrite Hc, (IH Hw). reflexivity.
Qed.

Lemma split_word_sep sep w rest :
  Str.includes sep w = false ->
  Str.split sep (w +:+ String sep rest) = w :: Str.split sep rest.
Proof.
  induction w as [|c w IH]; rewrite ?append_cons; cbn [Str.split Str.includes].
  - change (EmptyString +:+ String sep rest) with (String sep rest).
    cbn [Str.split]. now rewrite Ascii.eqb_refl.
  - intros H. apply orb_false_iff in H as [Hc Hw].
    rewrite Hc, (IH Hw). reflexivity.
Qed.

(** Splitting what [join] made gives the words back. *)
Lemma split_join (ws : list string) :
  ws <> [] -> Forall (fun w => Str.includes " " w = false) ws ->
  Str.split " " (Str.join " " ws) = ws.
Proof.
  induction ws as [|w ws IH]; [congruence|].
  intros _ Hall. inversion Hall as [|? ? Hw Hws]; subst.
  destruct ws as [|w' ws].
  - now apply split_no_sep.
  - change (Str.join " " (w :: w' :: ws))
      with (w +:+ String " " (Str.join " " (w' :: ws))).
    rewrite split_word_sep by assumption.
    rewrite IH by (congruence || assumption). reflexivity.
Qed.

Lemma join_cons_cons a b l :
  Str.join " " ((a +:+ " " +:+ b) :: l) = Str.join " " (a :: b :: l).
Proof.
  destruct l as [|c l]; [reflexivity|].
  change (Str.join " " ((a +:+ " " +:+ b) :: c :: l))
    with ((a +:+ " " +:+ b) +:+ " " +:+ Str.join " " (c :: l)).
  change (Str.join " " (a :: b :: c :: l))
    with (a +:+ " " +:+ (b +:+ " " +:+ Str.join " " (c :: l))).
  now rewrite !append_assoc.
Qed.

(** While every line tried fits, the words stay on one line. *)
Lemma greedy_one_line measure maxWidth rest cur :
  Str.truthy cur = true ->
  (forall i, (1 <= i <= length rest)%nat ->
             measure (Str.join " " (cur :: take i rest)) <= maxWidth) ->
  Spec.greedyWrap measure maxWidth cur rest = [Str.join " " (cur :: rest)].
Proof.
  revert cur. induction rest as [|w rest IH]; intros cur Hcur Hfit.
  - cbn. now rewrite Hcur.
  - cbn [Spec.greedyWrap]. rewrite Hcur.
    assert (H1 : measure (cur +:+ " " +:+ w) <= maxWidth)
      by (apply (Hfit 1%nat); cbn [length]; lia).
    destruct (Rle_dec _ _) as [_ | Hgt]; [|lra].
    rewrite IH.
    + now rewrite join_cons_cons.
    + now apply truthy_append.
    + intros i Hi. rewrite join_cons_cons.
      apply (Hfit (S i)). cbn. lia.
Qed.

(** When the last word is the first to overflow, it alone moves to a second
    line. *)
Lemma greedy_last_wraps measure maxWidth rest cur w :
  Str.truthy cur = true -> Str.truthy w = true ->
  (forall i, (1 <= i <= length rest)%nat ->
             measure (Str.join " " (cur :: take i rest)) <= maxWidth) ->
  measure (Str.join " " (cur :: rest ++ [w])) > maxWidth ->
  Spec.greedyWrap measure maxWidth cur (rest ++ [w])
  = [Str.join " " (cur :: rest); w].
Proof.
  revert cur. induction rest as [|x rest IH]; intros cur Hcur Hw Hfit Hover.
  - cbn in *. rewrite Hcur, Hw.
    destruct (Rle_dec _ _) as [Hle | _]; [lra | reflexivity].
  - cbn [Spec.greedyWrap app]. rewrite Hcur.
    assert (H1 : measure (cur +:+ " " +:+ x) <= maxWidth)
      by (apply (Hfit 1%nat); cbn [length]; lia).
    destruct (Rle_dec _ _) as [_ | Hgt]; [|lra].
    rewrite IH.
    + now rewrite join_cons_cons.
    + now apply truthy_append.
    + assumption.
    + intros i Hi. rewrite join_cons_cons.
      apply (Hfit (S i)). cbn. lia.
    + rewrite join_cons_cons. exact Hover.
Qed.

Lemma plain_words_no_space ws :
  Forall Str.plainWord ws -> Forall (fun w => Str.includes " " w = false) ws.
Proof. intros H. eapply Forall_impl; [exact H|]. now intros w [_ ?]. Qed.

(** C3.  [wrapText] is the greedy word wrap of the specification.  A word
    joins the current line while the line measured with it is no wider than
    the wrap width; when it is wider the line is committed and the word
    starts the next line.  So a text measuring exactly the wrap width, none
    of whose shorter beginnings is wider, stays on one line, and one whose
    last word brings it to one pixel more has that word wrapped.  A single
    word is returned whole on a line of its own, whatever its width. *)
Theorem wrapText_greedy (font : Font) (maxWidth : R) :
  (forall text,
      wrapText font text maxWidth
      = Spec.greedyWrap (text_width font) maxWidth EmptyString (Str.split " " text))
  /\ (forall lines cur word,
         Str.truthy cur = true ->
         text_width font (cur +:+ " " +:+ word) <= maxWidth ->
         wrapStep font maxWidth (lines, cur) word = (lines, cur +:+ " " +:+ word))
  /\ (forall lines cur word,
         Str.truthy cur = true ->
         text_width font (cur +:+ " " +:+ word) > maxWidth ->
         wrapStep font maxWidth (lines, cur) word = (lines ++ [cur], word))
  /\ (forall words,
         words <> [] -> Forall Str.plainWord words ->
         text_width font (Str.join " " words) = maxWidth ->
         (forall i, (1 <= i <= length words)%nat ->
                    text_width font (Str.join " " (take i words))
                    <= text_width font (Str.join " " words)) ->
         wrapText font (Str.join " " words) maxWidth = [Str.join " " words])
  /\ (forall words word,
         words <> [] -> Forall Str.plainWord (words ++ [word]) ->
         text_width font (Str.join " " (words ++ [word])) = maxWidth + 1 ->
         (forall i, (1 <= i <= length words)%nat ->
                    text_width font (Str.join " " (take i words)) <= maxWidth) ->
         wrapText font (Str.join " " (words ++ [word])) maxWidth
         = [Str.join " " words; word])
  /\ (forall word, Str.plainWord word -> wrapText font word maxWidth = [word]).
Proof.
  split; [intros text; apply wrapText_refines|].
  split; [|split].
  - intros lines cur word Hcur Hfit. unfold Canvas.wrapStep.
    rewrite Hcur. replace (Rgtb _ _) with false; [reflexivity|].
    symmetry. apply Rgtb_false. exact Hfit.
  - intros lines cur word Hcur Hover. unfold Canvas.wrapStep.
    rewrite Hcur. replace (Rgtb _ _) with true; [reflexivity|].
    symmetry. apply Rgtb_true. exact Hover.
  - split; [|split].
    + intros [|w rest] Hne Hplain Hwidth Hmono; [congruence|].
      rewrite wrapText_refines, split_join
        by first [discriminate | now apply plain_words_no_space].
      pose proof Hplain as Hplain'. apply Forall_cons in Hplain' as [[Hw _] _].
      cbn [Spec.greedyWrap Str.truthy].
      apply greedy_one_line; [assumption|].
      intros i Hi. rewrite <- Hwidth.
      apply (Hmono (S i)). cbn [length]. lia.
    + intros [|w rest] word Hne Hplain Hwidth Hfit; [congruence|].
      rewrite wrapText_refines, split_join
        by first [discriminate | now apply plain_words_no_space].
      pose proof Hplain as Hplain'.
      apply Forall_cons in Hplain' as [[Hw _] Hrest].
      apply Forall_app in Hrest as [_ Hword].
      apply Forall_cons in Hword as [[Hword _] _].
      cbn [Spec.greedyWrap Str.truthy app].
      apply greedy_last_wraps; try assumption.
      * intros i Hi. apply (Hfit (S i)). cbn [length]. lia.
      * change (text_width font (Str.join " " ((w :: rest) ++ [word])) > maxWidth).
        rewrite Hwidth. lra.
    + intros word [Hw Hns].
      rewrite wrapText_refines, split_no_sep by assumption.
      cbn. now rewrite Hw.
Qed.

End WrapFacts.

(** Evaluates the widths under [Examples.onePerChar] in a goal. *)
Ltac measured :=
  unfold Examples.onePerChar;
  repeat match goal with
         | |- context [String.length ?s] =>
             let n := eval vm_compute in (String.length s) in
             change (String.length s) with n
         end;
  cbn [INR]; lra.

(** The boundary at one pixel a character and a wrap width of 5: five
    characters stay on one line, six wrap before the last word, and a lone
    word of eight characters is kept whole. *)
Lemma wrapText_greedy_witness :
  let font := Examples.headlineFontOf Examples.defaultText in
  let wrap := Canvas.wrapText Examples.onePerChar font in
  wrap "ab cd" 5%R = ["ab cd"]
  /\ wrap "ab cde" 5%R = ["ab"; "cde"]
  /\ wrap "abcdefgh" 5%R = ["abcdefgh"].
Proof.
  intros font wrap.
  destruct (wrapText_greedy Examples.onePerChar font 5%R)
    as (_ & _ & _ & Hfit & Hwrap & Hone).
  split; [|split].
  - apply (Hfit ["ab"; "cd"]).
    + discriminate.
    + repeat constructor.
    + measured.
    + intros [|[|[|i]]] Hi; cbn [length] in Hi; try lia; measured.
  - apply (Hwrap ["ab"] "cde").
    + discriminate.
    + repeat constructor.
    + measured.
    + intros [|[|i]] Hi; cbn [length] in Hi; try lia; measured.
  - apply Hone. split; reflexivity.
Defined.

(** ** The orchestrator *)

Section OrchestratorFacts.

Import Model Canvas.
Local Open Scope R_scope.

Variable text_width : Font -> string -> R.
Variable getImageData : Surface -> R -> R -> R -> R -> list Z.

Local Abbreviation render random :=
  (Canvas.renderScreenshotToCanvas text_width getImageData random).
Local Abbreviation drawNoiseToContext random :=
  (Canvas.drawNoiseToContext getImageData random).
Local Abbreviation drawTextToContext := (Canvas.drawTextToContext text_width).

(** Without a unit at [index], or without an image in it, nothing happens. *)
Lemma render_nothing random st env index target dims previewScale k :
  match screenshots st !! index with
  | None => True
  | Some u => image u = None
  end ->
  render random st env index target dims previewScale k = (target, k).
Proof.
  unfold Canvas.renderScreenshotToCanvas.
  destruct (screenshots st !! index) as [u|]; [|reflexivity].
  now intros ->.
Qed.

(** With an image the canvas is reset and receives, in this order, the
    background, the noise when enabled, the image layer and the text. *)
Lemma render_layers random st env index target dims previewScale k u img :
  screenshots st !! index = Some u -> image u = Some img ->
  let bg := background u in
  let base :=
    {| s_width := width dims; s_height := height dims;
       s_style_width := width dims * previewScale;
       s_style_height := height dims * previewScale;
       s_ops := ClearRect 0 0 (width dims) (height dims)
                  :: drawBackgroundToContext dims bg |} in
  let noiseCmds :=
    if noise bg then (drawNoiseToContext random base dims (noiseIntensity bg) k).1
    else [] in
  let layer :=
    if use3D (screenshot u) && hasRenderThreeJS env && phoneModelLoaded env
    then [RenderThreeJS (width dims) (height dims) index]
    else drawScreenshotToContext dims (Some img) (screenshot u) in
  (render random st env index target dims previewScale k).1
  = {| s_width := width dims; s_height := height dims;
       s_style_width := width dims * previewScale;
       s_style_height := height dims * previewScale;
       s_ops := ClearRect 0 0 (width dims) (height dims)
                  :: drawBackgroundToContext dims bg
                  ++ noiseCmds ++ layer ++ drawTextToContext dims (text u) |}.
Proof.
  intros Hu Himg. cbv zeta.
  unfold Canvas.renderScreenshotToCanvas. rewrite Hu, Himg.
  unfold draw, set_style, set_height, set_width.
  cbn [s_width s_height s_style_width s_style_height s_ops app].
  destruct (noise (background u)).
  - destruct (Canvas.drawNoiseToContext _ _ _ _ _ _) as [cs k'].
    cbn [s_width s_height s_style_width s_style_height s_ops app fst].
    destruct (use3D (screenshot u) && hasRenderThreeJS env && phoneModelLoaded env);
      cbn [s_width s_height s_style_width s_style_height s_ops app fst];
      now rewrite <- !app_assoc.
  - destruct (use3D (screenshot u) && hasRenderThreeJS env && phoneModelLoaded env);
      cbn [s_width s_height s_style_width s_style_height s_ops app fst];
      now rewrite <- !app_assoc.
Qed.

(** With the noise pass off the result reads neither the random source nor,
    when there is an image to draw, the canvas it is given. *)
Lemma render_without_noise random st env index target dims previewScale k u img :
  screenshots st !! index = Some u -> image u = Some img ->
  noise (background u) = false ->
  (render random st env index target dims previewScale k).1
  = {| s_width := width dims; s_height := height dims;
       s_style_width := width dims * previewScale;
       s_style_height := height dims * previewScale;
       s_ops := ClearRect 0 0 (width dims) (height dims)
                  :: drawBackgroundToContext dims (background u)
                  ++ (if use3D (screenshot u) && hasRenderThreeJS env
                         && phoneModelLoaded env
                      then [RenderThreeJS (width dims) (height dims) index]
                      else drawScreenshotToContext dims (Some img) (screenshot u))
                  ++ drawTextToContext dims (text u) |}.
Proof.
  intros Hu Himg Hnoise.
  rewrite (render_layers random st env index target dims previewScale k u img Hu Himg).
  cbv zeta. rewrite Hnoise. reflexivity.
Qed.

(** C2.  With the noise pass disabled, the surface the orchestrator produces
    is a function of the unit, the dimensions and the preview scale alone:
    two runs on the same inputs give the same surface whatever the random
    source yields; a second run on the result of the first changes nothing;
    and, when the unit has an image, the earlier contents of the canvas do
    not matter either. *)
Theorem renderScreenshotToCanvas_deterministic
    (random1 random2 : nat -> R) st env index target dims previewScale k1 k2 :
  (forall u, screenshots st !! index = Some u -> noise (background u) = false) ->
  let run random target k :=
    (renderScreenshotToCanvas text_width getImageData random
       st env index target dims previewScale k).1 in
  run random1 target k1 = run random2 target k2
  /\ run random2 (run random1 target k1) k2 = run random1 target k1
  /\ (forall u img target',
         screenshots st !! index = Some u -> image u = Some img ->
         run random1 target' k1 = run random2 target k2).
Proof.
  intros Hnoise. cbv zeta.
  destruct (screenshots st !! index) as [u|] eqn:Hu.
  - specialize (Hnoise u eq_refl).
    destruct (image u) as [img|] eqn:Himg.
    + split; [|split].
      * now rewrite !(render_without_noise _ _ _ _ _ _ _ _ u img).
      * now rewrite !(render_without_noise _ _ _ _ _ _ _ _ u img).
      * intros u' img' target' Hu' Himg'. injection Hu' as <-.
        now rewrite !(render_without_noise _ _ _ _ _ _ _ _ u img).
    + split; [|split].
      * rewrite !render_nothing by now rewrite Hu. reflexivity.
      * rewrite !render_nothing by now rewrite Hu. reflexivity.
      * intros u' img' target' Hu' Himg'. injection Hu' as <-. congruence.
  - split; [|split].
    + rewrite !render_nothing by now rewrite Hu. reflexivity.
    + rewrite !render_nothing by now rewrite Hu. reflexivity.
    + intros u' img' target' Hu'. discriminate.
Qed.

(** C7, as the code has it.  A unit without an image, like an index without
    a unit, is not rendered at all: the target canvas stays as it was and no
    random number is drawn.  A unit with an image gets, on a reset canvas,
    the background, the noise when enabled, the image layer (3D when
    selected and available, 2D otherwise) and the text, in that order. *)
Theorem renderScreenshotToCanvas_image_guard
    random st env index target dims previewScale k :
  (match screenshots st !! index with
   | None => True
   | Some u => image u = None
   end ->
   render random st env index target dims previewScale k = (target, k))
  /\ (forall u img,
         screenshots st !! index = Some u -> image u = Some img ->
         let bg := background u in
         let base :=
           {| s_width := width dims; s_height := height dims;
              s_style_width := width dims * previewScale;
              s_style_height := height dims * previewScale;
              s_ops := ClearRect 0 0 (width dims) (height dims)
                         :: drawBackgroundToContext dims bg |} in
         (render random st env index target dims previewScale k).1
         = {| s_width := width dims; s_height := height dims;
              s_style_width := width dims * previewScale;
              s_style_height := height dims * previewScale;
              s_ops :=
                ClearRect 0 0 (width dims) (height dims)
                  :: drawBackgroundToContext dims bg
                  ++ (if noise bg
                      then (drawNoiseToContext random base dims
                              (noiseIntensity bg) k).1
                      else [])
                  ++ (if use3D (screenshot u) && hasRenderThreeJS env
                         && phoneModelLoaded env
                      then [RenderThreeJS (width dims) (height dims) index]
                      else drawScreenshotToContext dims (Some img) (screenshot u))
                  ++ drawTextToContext dims (text u) |}).
Proof.
  split.
  - apply render_nothing.
  - intros u img Hu Himg. now apply render_layers.
Qed.

End OrchestratorFacts.

(** Two runs on the default unit with different random sources and call
    counts. *)
Lemma renderScreenshotToCanvas_deterministic_witness :
  let st := Examples.projectOf [Examples.unitWithImage] in
  let render random k :=
    (Canvas.renderScreenshotToCanvas Examples.onePerChar Examples.noPixels random
       st Examples.env2D 0 Examples.blank Examples.iphone 1%R k).1 in
  (forall u, Model.screenshots st !! 0%nat = Some u ->
             Model.noise (Model.background u) = false)
  /\ render (fun _ => 0%R) 0%nat = render (fun _ => 1%R) 7%nat.
Proof.
  intros st render.
  assert (Hnoise : forall u, Model.screenshots st !! 0%nat = Some u ->
                             Model.noise (Model.background u) = false).
  { intros u Hu. injection Hu as <-. reflexivity. }
  split; [exact Hnoise|].
  exact (proj1 (renderScreenshotToCanvas_deterministic
                  Examples.onePerChar Examples.noPixels
                  (fun _ => 0%R) (fun _ => 1%R)
                  st Examples.env2D 0%nat Examples.blank Examples.iphone 1%R
                  0%nat 7%nat Hnoise)).
Defined.

(** The unit without an image is left alone; the unit with one is drawn on a
    canvas reset to the iPhone size. *)
Lemma renderScreenshotToCanvas_image_guard_witness :
  let render us :=
    Canvas.renderScreenshotToCanvas Examples.onePerChar Examples.noPixels
      (fun _ => 0%R) (Examples.projectOf us) Examples.env2D 0
      Examples.blank Examples.iphone 1%R 0 in
  render [Examples.unitWithoutImage] = (Examples.blank, 0%nat)
  /\ Canvas.s_width (render [Examples.unitWithImage]).1 = 1290%R.
Proof.
  intros render. split.
  - apply (renderScreenshotToCanvas_image_guard
             Examples.onePerChar Examples.noPixels (fun _ => 0%R)
             (Examples.projectOf [Examples.unitWithoutImage])).
    reflexivity.
  - unfold render.
    rewrite (proj2 (renderScreenshotToCanvas_image_guard
                      Examples.onePerChar Examples.noPixels (fun _ => 0%R)
                      (Examples.projectOf [Examples.unitWithImage])
                      Examples.env2D 0%nat Examples.blank Examples.iphone 1%R 0%nat)
                   Examples.unitWithImage Examples.portrait eq_refl eq_refl).
    reflexivity.
Defined.

(** C7 as stated fails.  The unit has a solid background and the headline
    "Hi" but no image: the orchestrator returns the blank canvas it was
    given, so neither the background fill nor the headline is on it. *)
Lemma renderScreenshotToCanvas_skips_background_and_text :
  let u := Examples.unitWithoutImage in
  let st := Examples.projectOf [u] in
  let out :=
    (Canvas.renderScreenshotToCanvas Examples.onePerChar Examples.noPixels
       (fun _ => 0%R) st Examples.env2D 0 Examples.blank Examples.iphone 1%R 0).1 in
  Model.image u = None
  /\ out = Examples.blank
  /\ ~ (forall c,
           In c (Canvas.drawBackgroundToContext Examples.iphone (Model.background u)) ->
           In c (Canvas.s_ops out))
  /\ ~ (forall c,
           In c (Canvas.drawTextToContext Examples.onePerChar Examples.iphone
                   (Model.text u)) ->
           In c (Canvas.s_ops out)).
Proof.
  cbv zeta. split; [reflexivity|]. split; [reflexivity|]. split.
  - intros H.
    apply (H (Canvas.FillRect 0 0 (Model.width Examples.iphone)
                (Model.height Examples.iphone))).
    right. left. reflexivity.
  - intros H.
    apply (H Canvas.SetTextAlignCenter).
    left. reflexivity.
Defined.

(** ** Language detection *)

Section LangFacts.

Import Lang.

Lemma sortedLangs_eq :
  sortedLangs
  = [ "en-gb"; "pt-br"; "zh-tw";
      "en"; "de"; "fr"; "es"; "it"; "pt"; "nl"; "ru"; "ja"; "ko"; "zh"; "ar";
      "hi"; "tr"; "pl"; "sv"; "da"; "no"; "fi"; "th"; "vi"; "id" ].
Proof. reflexivity. Qed.

Lemma charIn_delim c : charIn ["_"; "-"]%char c = isDelim c.
Proof. destruct c as [[] [] [] [] [] [] [] []]; reflexivity. Qed.

Lemma isDelim_lower c : isDelim (lowerChar c) = isDelim c.
Proof. destruct c as [[] [] [] [] [] [] [] []]; reflexivity. Qed.

Lemma toLowerCase_app a b :
  toLowerCase (a +:+ b) = toLowerCase a +:+ toLowerCase b.
Proof.
  induction a as [|c a IH]; [reflexivity|].
  change (String c a +:+ b) with (String c (a +:+ b)).
  cbn [toLowerCase]. rewrite IH. reflexivity.
Qed.

Lemma noDelim_lower s : noDelim (toLowerCase s) = noDelim s.
Proof.
  induction s as [|c s IH]; [reflexivity|].
  cbn [toLowerCase noDelim]. now rewrite isDelim_lower, IH.
Qed.

Lemma test_cons r c s :
  test r (String c s) = accept r (String c s) (fun _ => true) || test r s.
Proof. reflexivity. Qed.

(** Every pattern starts with a delimiter, so a match cannot start at any
    other character. *)
Lemma accept_needs_delim lang c s k :
  isDelim c = false -> accept (langPattern lang) (String c s) k = false.
Proof.
  intros Hc. unfold langPattern. cbn [accept].
  now rewrite charIn_delim, Hc.
Qed.

Lemma test_noDelim lang s : noDelim s = true -> test (langPattern lang) s = false.
Proof.
  induction s as [|c s IH]; intros H.
  - reflexivity.
  - cbn [noDelim] in H. apply andb_true_iff in H as [Hc Hs].
    apply negb_true_iff in Hc.
    rewrite test_cons, accept_needs_delim, IH by assumption. reflexivity.
Qed.

Lemma test_skip lang a s :
  noDelim a = true ->
  test (langPattern lang) (a +:+ s) = test (langPattern lang) s.
Proof.
  induction a as [|c a IH]; intros H.
  - reflexivity.
  - cbn [noDelim] in H. apply andb_true_iff in H as [Hc Hs].
    apply negb_true_iff in Hc.
    change (String c a +:+ s) with (String c (a +:+ s)).
    rewrite test_cons, accept_needs_delim, IH by assumption. reflexivity.
Qed.

Lemma find_first {A} (p : A -> bool) (l : list A) :
  match List.find p l with
  | None => forall x, In x l -> p x = false
  | Some x =>
      exists before after,
        l = before ++ x :: after /\ p x = true
        /\ forall y, In y before -> p y = false
  end.
Proof.
  induction l as [|a l IH]; cbn [List.find].
  - intros x [].
  - destruct (p a) eqn:Ha.
    + exists [], l. split; [reflexivity|]. split; [assumption|]. intros y [].
    + destruct (List.find p l) as [x|].
      * destruct IH as (before & after & -> & Hx & Hb).
        exists (a :: before), after. split; [reflexivity|]. split; [assumption|].
        intros y [<- | Hy]; auto.
      * intros x [<- | Hx]; auto.
Qed.

(** The name is lower-cased first, and the delimiter inside a code may be
    either character or absent. *)
Example detect_upper_case : detectLanguageFromFilename "App-ZH_TW.PNG" = "zh-tw".
Proof. reflexivity. Qed.

Example detect_no_inner_delimiter :
  detectLanguageFromFilename "app_ptbr.png" = "pt-br".
Proof. reflexivity. Qed.

(** A two-letter group after a code counts as its region. *)
Example detect_region : detectLanguageFromFilename "app_de_fr.png" = "de".
Proof. reflexivity. Qed.

(** The dot that ends a match need not be the last one. *)
Example detect_inner_dot : detectLanguageFromFilename "app_de.v2.png" = "de".
Proof. reflexivity. Qed.

Example split_double_space : Str.split " " "a  b" = ["a"; ""; "b"].
Proof. reflexivity. Qed.

Example split_empty : Str.split " " "" = [""].
Proof. reflexivity. Qed.

(** Evaluates a pattern on a string that ends in a delimiter-free tail. *)
Ltac eval_test tail_ok :=
  rewrite !test_cons, (test_noDelim _ _ tail_ok); vm_compute; reflexivity.

(** Walks the tests of the sorted codes up to the first that matches. *)
Ltac first_match tail_ok :=
  repeat match goal with
         | |- context [if test ?r ?s then _ else _] =>
             let H := fresh in
             first [ assert (H : test r s = false) by eval_test tail_ok
                   | assert (H : test r s = true) by eval_test tail_ok ];
             rewrite H; clear H; cbv iota
         end.

(** A supported code set off by an underscore or a hyphen at the end of a
    base name that has neither, in front of an extension that has neither,
    is the code detected. *)
Lemma detect_suffix base ext lang sep :
  In lang supportedLangs -> isDelim sep = true ->
  noDelim base = true -> noDelim ext = true ->
  detectLanguageFromFilename (base +:+ String sep lang +:+ "." +:+ ext) = lang.
Proof.
  intros Hlang Hsep Hbase Hext.
  assert (Hsep' : sep = "_"%char \/ sep = "-"%char).
  { unfold isDelim in Hsep. apply orb_true_iff in Hsep as [H | H];
      apply Ascii.eqb_eq in H; auto. }
  unfold detectLanguageFromFilename.
  rewrite toLowerCase_app, sortedLangs_eq. cbn [List.find].
  rewrite !test_skip by now rewrite noDelim_lower.
  rewrite <- (noDelim_lower ext) in Hext.
  cbn [toLowerCase]. rewrite !toLowerCase_app.
  generalize dependent (toLowerCase ext). intros tail Htail.
  cbn in Hlang.
  destruct Hsep' as [-> | ->];
    repeat (destruct Hlang as [<- | Hlang]; [|]); try contradiction;
    cbv [String.append]; cbn [toLowerCase];
    first_match Htail; reflexivity.
Qed.

(** C6.  The detector tries the known codes longest first (ties in table
    order) and answers with the first whose pattern - a delimiter, the code,
    an optional two-letter region, a dot - matches the lower-cased name; it
    answers "en" when none matches.  A code set off as a suffix in front of
    the extension is the one detected.  "app_pt-br.png" gives "pt-br" and
    "app.png" gives "en". *)
Theorem detectLanguageFromFilename_longest_first :
  detectLanguageFromFilename "app_pt-br.png" = "pt-br"
  /\ detectLanguageFromFilename "app.png" = "en"
  /\ sortedLangs
     = [ "en-gb"; "pt-br"; "zh-tw";
         "en"; "de"; "fr"; "es"; "it"; "pt"; "nl"; "ru"; "ja"; "ko"; "zh"; "ar";
         "hi"; "tr"; "pl"; "sv"; "da"; "no"; "fi"; "th"; "vi"; "id" ]
  /\ (forall filename,
         let matches lang := test (langPattern lang) (toLowerCase filename) in
         (detectLanguageFromFilename filename = "en"
          /\ forall lang, In lang sortedLangs -> matches lang = false)
         \/ (exists before after,
                sortedLangs = before ++ detectLanguageFromFilename filename :: after
                /\ matches (detectLanguageFromFilename filename) = true
                /\ forall lang, In lang before -> matches lang = false))
  /\ (forall base ext lang sep,
         In lang supportedLangs -> isDelim sep = true ->
         noDelim base = true -> noDelim ext = true ->
         detectLanguageFromFilename (base +:+ String sep lang +:+ "." +:+ ext)
         = lang).
Proof.
  split; [reflexivity|]. split; [reflexivity|]. split; [apply sortedLangs_eq|].
  split; [|exact detect_suffix].
  intros filename matches. unfold detectLanguageFromFilename.
  pose proof (find_first matches sortedLangs) as H.
  fold matches. destruct (List.find matches sortedLangs) as [lang|].
  - right. exact H.
  - left. split; [reflexivity | exact H].
Qed.

End LangFacts.

(** The traditional-Chinese suffix with a hyphen. *)
Lemma detectLanguageFromFilename_longest_first_witness :
  (In "zh-tw" Lang.supportedLangs /\ Lang.isDelim "-" = true
   /\ Lang.noDelim "screenshot" = true /\ Lang.noDelim "png" = true)
  /\ Lang.detectLanguageFromFilename "screenshot-zh-tw.png" = "zh-tw".
Proof.
  assert (Hin : In "zh-tw" Lang.supportedLangs) by (cbn; tauto).
  split; [repeat split; assumption || reflexivity|].
  exact (proj2 (proj2 (proj2 (proj2 detectLanguageFromFilename_longest_first)))
           "screenshot" "png" "zh-tw" "-"%char Hin eq_refl eq_refl eq_refl).
Defined.

(** ** The settings setters *)

Section SettingsFacts.

Import Settings.






(** A dotted key has two parts at least. *)
Lemma split_includes sep key :
  Str.includes sep key = true ->
  exists part next rest, Str.split sep key = part :: next :: rest.
Proof.
  induction key as [|c key IH]; cbn; [discriminate|].
  destruct (Ascii.eqb c sep) eqn:E; cbn.
  - intros _. destruct (Str.split sep key) as [|w ws] eqn:Es.
    + destruct key; cbn in Es; [discriminate|].
      destruct (Ascii.eqb a sep); [discriminate|].
      destruct (Str.split sep key); discriminate.
    + eauto.
  - intros H. destruct (IH H) as (part & next & rest & ->). eauto.
Qed.






Example shadow_blur_assigned :
  assignKey (screenshot Examples.currentUnit) "shadow.blur" (JNum 12)
  = Ok (JObj [("scale", JNum 70);
              ("shadow", JObj [("enabled", JBool true); ("blur", JNum 12)])]).
Proof. reflexivity. Qed.

Example shadow_blur_throws :
  assignKey (screenshot Examples.legacyUnit) "shadow.blur" (JNum 12) = TypeError.
Proof. reflexivity. Qed.

(** A write through a number is dropped, as outside strict mode. *)
Example scale_x_dropped :
  assignKey (screenshot Examples.legacyUnit) "scale.x" (JNum 1)
  = Ok (screenshot Examples.legacyUnit).
Proof. reflexivity. Qed.


End SettingsFacts.



(** ** Project languages *)

Section ProjectFacts.

Import Model Project.

Lemma indexOf_Some x l i : indexOf x l = Some i -> l !! i = Some x.
Proof.
  unfold indexOf. intros H.
  destruct (list_find (fun y => y = x) l) as [[j y]|] eqn:E; [|discriminate].
  injection H as <-. apply list_find_Some in E as (Hy & -> & _). exact Hy.
Qed.

Lemma indexOf_elem_of x l : x ∈ l -> exists i, indexOf x l = Some i.
Proof.
  intros Hin. unfold indexOf.
  destruct (list_find_elem_of (fun y => y = x) l x Hin eq_refl) as [[i y] E].
  rewrite E. now exists i.
Qed.

Lemma indexOf_not_elem_of x l : x ∉ l -> indexOf x l = None.
Proof.
  intros Hnin. unfold indexOf.
  destruct (list_find (fun y => y = x) l) as [[j y]|] eqn:E; [|reflexivity].
  apply list_find_Some in E as (Hy & -> & _).
  exfalso. apply Hnin. eapply list_elem_of_lookup_2. exact Hy.
Qed.

Lemma dropLanguage_strings lang langs strings :
  (dropLanguage lang langs strings).2
  = if decide (lang ∈ langs) then delete lang strings else strings.
Proof.
  unfold dropLanguage. destruct (decide (lang ∈ langs)) as [Hin | Hnin].
  - destruct (indexOf_elem_of _ _ Hin) as [i ->]. reflexivity.
  - now rewrite indexOf_not_elem_of.
Qed.

(** What the [forEach] callback does to one unit. *)
Lemma removeFromScreenshot_props lang first u :
  let u' := removeFromScreenshot lang first u in
  image u' = image u
  /\ localizedImages u' = localizedImages u
  /\ background u' = background u
  /\ screenshot u' = screenshot u
  /\ headlines (text u')
     = (if decide (lang ∈ headlineLanguages (text u))
        then delete lang (headlines (text u)) else headlines (text u))
  /\ subheadlines (text u')
     = (if decide (lang ∈ subheadlineLanguages (text u))
        then delete lang (subheadlines (text u)) else subheadlines (text u))
  /\ currentHeadlineLang (text u')
     = repoint lang first (currentHeadlineLang (text u))
  /\ currentSubheadlineLang (text u')
     = repoint lang first (currentSubheadlineLang (text u)).
Proof.
  cbv zeta. unfold removeFromScreenshot.
  pose proof (dropLanguage_strings lang (headlineLanguages (text u))
                (headlines (text u))) as Hh.
  pose proof (dropLanguage_strings lang (subheadlineLanguages (text u))
                (subheadlines (text u))) as Hs.
  destruct (dropLanguage lang (headlineLanguages (text u)) _) as [hls hs].
  destruct (dropLanguage lang (subheadlineLanguages (text u)) _) as [sls ss].
  cbn in *. subst hs ss. repeat split.
Qed.

Lemma removeFromDefaults_props lang d :
  let d' := removeFromDefaults lang d in
  d_background d' = d_background d
  /\ d_screenshot d' = d_screenshot d
  /\ headlines (d_text d')
     = (if decide (lang ∈ headlineLanguages (d_text d))
        then delete lang (headlines (d_text d)) else headlines (d_text d))
  /\ subheadlines (d_text d')
     = (if decide (lang ∈ subheadlineLanguages (d_text d))
        then delete lang (subheadlines (d_text d)) else subheadlines (d_text d)).
Proof.
  cbv zeta. unfold removeFromDefaults.
  pose proof (dropLanguage_strings lang (headlineLanguages (d_text d))
                (headlines (d_text d))) as Hh.
  pose proof (dropLanguage_strings lang (subheadlineLanguages (d_text d))
                (subheadlines (d_text d))) as Hs.
  destruct (dropLanguage lang (headlineLanguages (d_text d)) _) as [hls hs].
  destruct (dropLanguage lang (subheadlineLanguages (d_text d)) _) as [sls ss].
  cbn in *. subst hs ss. repeat split.
Qed.

(** The run that no page call cuts short, or that makes none. *)
Lemma removeProjectLanguage_finished pageCalls st lang i first :
  indexOf lang (projectLanguages st) = Some i ->
  delete i (projectLanguages st) !! 0%nat = Some first ->
  (1 < length (projectLanguages st))%nat ->
  currentLanguage st <> lang
  \/ pageCalls (switchGlobalLanguage
                  (with_projectLanguages st (delete i (projectLanguages st)))
                  first) = true ->
  removeProjectLanguage pageCalls st lang
  = Finished
      (purge lang
         (if decide (currentLanguage st = lang)
          then switchGlobalLanguage
                 (with_projectLanguages st (delete i (projectLanguages st))) first
          else with_projectLanguages st (delete i (projectLanguages st)))).
Proof.
  intros Hi Hfirst Hmany Hrun. unfold removeProjectLanguage.
  apply Nat.leb_gt in Hmany. rewrite Hmany, Hi.
  cbn [with_projectLanguages currentLanguage projectLanguages].
  rewrite Hfirst. cbv zeta.
  destruct (decide (currentLanguage st = lang)) as [Hcur | Hcur]; [|reflexivity].
  destruct Hrun as [Hne | Hrun]; [contradiction|]. now rewrite Hrun.
Qed.

(** What the run to the end leaves. *)
Lemma purge_props st lang i first :
  projectLanguages st !! i = Some lang ->
  delete i (projectLanguages st) !! 0%nat = Some first ->
  let st' :=
    purge lang
      (if decide (currentLanguage st = lang)
       then switchGlobalLanguage
              (with_projectLanguages st (delete i (projectLanguages st))) first
       else with_projectLanguages st (delete i (projectLanguages st))) in
  projectLanguages st' = delete i (projectLanguages st)
  /\ projectLanguages st' !! 0%nat = Some first
  /\ currentLanguage st'
     = (if decide (currentLanguage st = lang) then first
        else currentLanguage st)
  /\ length (screenshots st') = length (screenshots st)
  /\ (forall j u,
         screenshots st !! j = Some u ->
         exists u',
           screenshots st' !! j = Some u'
           /\ image u' = image u
           /\ localizedImages u' = localizedImages u
           /\ background u' = background u
           /\ screenshot u' = screenshot u
           /\ headlines (text u')
              = (if decide (lang ∈ headlineLanguages (text u))
                 then delete lang (headlines (text u))
                 else headlines (text u))
           /\ subheadlines (text u')
              = (if decide (lang ∈ subheadlineLanguages (text u))
                 then delete lang (subheadlines (text u))
                 else subheadlines (text u))
           /\ currentHeadlineLang (text u')
              = (if decide (currentLanguage st = lang
                            \/ currentHeadlineLang (text u) = Some lang)
                 then Some first else currentHeadlineLang (text u))
           /\ currentSubheadlineLang (text u')
              = (if decide (currentLanguage st = lang
                            \/ currentSubheadlineLang (text u) = Some lang)
                 then Some first else currentSubheadlineLang (text u)))
  /\ headlines (d_text (defaults st'))
     = (if decide (lang ∈ headlineLanguages (d_text (defaults st)))
        then delete lang (headlines (d_text (defaults st)))
        else headlines (d_text (defaults st)))
  /\ subheadlines (d_text (defaults st'))
     = (if decide (lang ∈ subheadlineLanguages (d_text (defaults st)))
        then delete lang (subheadlines (d_text (defaults st)))
        else subheadlines (d_text (defaults st))).
Proof.
  intros Hlang Hfirst. cbv zeta. unfold purge.
  destruct (decide (currentLanguage st = lang)) as [Hcur | Hcur];
    cbn [switchGlobalLanguage with_projectLanguages projectLanguages
         currentLanguage screenshots defaults];
    rewrite Hfirst.
  + split; [reflexivity|]. split; [first [reflexivity | exact Hfirst]|]. split; [reflexivity|].
    split; [now rewrite !length_fmap|]. split.
    * intros j u Hu. eexists. split.
      { rewrite !list_lookup_fmap, Hu. reflexivity. }
      destruct (removeFromScreenshot_props lang (Some first)
                  (with_text u
                     (with_languages (text u)
                        (headlines (text u)) (headlineLanguages (text u))
                        (Some first)
                        (subheadlines (text u)) (subheadlineLanguages (text u))
                        (Some first))))
        as (H1 & H2 & H3 & H4 & H5 & H6 & H7 & H8).
      cbv zeta in H1, H2, H3, H4, H5, H6, H7, H8.
      rewrite H1, H2, H3, H4, H5, H6, H7, H8.
      cbn [with_text with_languages image localizedImages background
           Model.screenshot text headlines headlineLanguages
           currentHeadlineLang subheadlines subheadlineLanguages
           currentSubheadlineLang].
      unfold repoint.
      repeat (split; [reflexivity|]).
      destruct (decide (Some first = Some lang));
        repeat destruct (decide (_ \/ _)); tauto.
    * destruct (removeFromDefaults_props lang (defaults st))
        as (_ & _ & H3 & H4). auto.
  + split; [reflexivity|]. split; [first [reflexivity | exact Hfirst]|]. split; [reflexivity|].
    split; [now rewrite !length_fmap|]. split.
    * intros j u Hu. eexists. split.
      { rewrite !list_lookup_fmap, Hu. reflexivity. }
      destruct (removeFromScreenshot_props lang (Some first) u)
        as (H1 & H2 & H3 & H4 & H5 & H6 & H7 & H8).
      cbv zeta in H1, H2, H3, H4, H5, H6, H7, H8.
      rewrite H1, H2, H3, H4, H5, H6, H7, H8.
      unfold repoint.
      repeat (split; [reflexivity|]).
      split.
      { destruct (decide (currentHeadlineLang (text u) = Some lang));
          destruct (decide (_ \/ _)); tauto. }
      { destruct (decide (currentSubheadlineLang (text u) = Some lang));
          destruct (decide (_ \/ _)); tauto. }
    * destruct (removeFromDefaults_props lang (defaults st))
        as (_ & _ & H3 & H4). auto.
Qed.

(** C4, as the code has it.  Removing a language is a no-op when the project
    has one language at most, or does not have that language.  Otherwise the
    language leaves the project list.  If it was the active language, the
    new first language is switched to before anything is purged, and the
    page is repainted and the state saved there: when these calls throw, the
    function ends with the list spliced and the language switched, and
    purges nothing.  When they return, or the language was not the active
    one, every unit that showed the language (all units, when it was the
    active one) shows the new first language; and its headline and
    subheadline strings are deleted from each unit, and from the defaults,
    whose own headline or subheadline language list names it.  Images,
    localized images, backgrounds and screenshot settings are left as they
    were. *)
Theorem removeProjectLanguage_guarded pageCalls st lang :
  ((length (projectLanguages st) <= 1)%nat \/ lang ∉ projectLanguages st ->
   removeProjectLanguage pageCalls st lang = Finished st)
  /\ ((1 < length (projectLanguages st))%nat -> lang ∈ projectLanguages st ->
      exists i first,
        projectLanguages st !! i = Some lang
        /\ delete i (projectLanguages st) !! 0%nat = Some first
        /\ let switched :=
             switchGlobalLanguage
               (with_projectLanguages st (delete i (projectLanguages st)))
               first in
           (currentLanguage st = lang -> pageCalls switched = false ->
            removeProjectLanguage pageCalls st lang = Aborted switched)
           /\ (currentLanguage st <> lang \/ pageCalls switched = true ->
               exists st',
                 removeProjectLanguage pageCalls st lang = Finished st'
                 /\ projectLanguages st' = delete i (projectLanguages st)
                 /\ currentLanguage st'
                    = (if decide (currentLanguage st = lang) then first
                       else currentLanguage st)
                 /\ length (screenshots st') = length (screenshots st)
                 /\ (forall j u,
                        screenshots st !! j = Some u ->
                        exists u',
                          screenshots st' !! j = Some u'
                          /\ image u' = image u
                          /\ localizedImages u' = localizedImages u
                          /\ background u' = background u
                          /\ screenshot u' = screenshot u
                          /\ headlines (text u')
                             = (if decide (lang ∈ headlineLanguages (text u))
                                then delete lang (headlines (text u))
                                else headlines (text u))
                          /\ subheadlines (text u')
                             = (if decide (lang ∈ subheadlineLanguages (text u))
                                then delete lang (subheadlines (text u))
                                else subheadlines (text u))
                          /\ currentHeadlineLang (text u')
                             = (if decide (currentLanguage st = lang
                                           \/ currentHeadlineLang (text u)
                                              = Some lang)
                                then Some first
                                else currentHeadlineLang (text u))
                          /\ currentSubheadlineLang (text u')
                             = (if decide (currentLanguage st = lang
                                           \/ currentSubheadlineLang (text u)
                                              = Some lang)
                                then Some first
                                else currentSubheadlineLang (text u)))
                 /\ headlines (d_text (defaults st'))
                    = (if decide (lang ∈ headlineLanguages (d_text (defaults st)))
                       then delete lang (headlines (d_text (defaults st)))
                       else headlines (d_text (defaults st)))
                 /\ subheadlines (d_text (defaults st'))
                    = (if decide
                            (lang ∈ subheadlineLanguages (d_text (defaults st)))
                       then delete lang (subheadlines (d_text (defaults st)))
                       else subheadlines (d_text (defaults st))))).
Proof.
  split.
  - intros [Hone | Hnin]; unfold removeProjectLanguage.
    + apply Nat.leb_le in Hone. now rewrite Hone.
    + rewrite (indexOf_not_elem_of _ _ Hnin).
      now destruct (length (projectLanguages st) <=? 1)%nat.
  - intros Hmany Hin.
    destruct (indexOf_elem_of _ _ Hin) as [i Hi].
    pose proof (indexOf_Some _ _ _ Hi) as Hlang.
    assert (Hfirst : is_Some (delete i (projectLanguages st) !! 0%nat)).
    { apply lookup_lt_is_Some. rewrite length_delete by eauto. lia. }
    destruct Hfirst as [first Hfirst].
    exists i, first. split; [exact Hlang|]. split; [exact Hfirst|].
    cbv zeta. split.
    + intros Hcur Hthrow. unfold removeProjectLanguage.
      apply Nat.leb_gt in Hmany. rewrite Hmany, Hi.
      cbn [with_projectLanguages currentLanguage projectLanguages].
      rewrite Hfirst. cbv zeta.
      rewrite decide_True by assumption. now rewrite Hthrow.
    + intros Hrun. eexists. split.
      { exact (removeProjectLanguage_finished pageCalls st lang i first
                 Hi Hfirst Hmany Hrun). }
      destruct (purge_props st lang i first Hlang Hfirst)
        as (H1 & _ & H3 & H4 & H5 & H6 & H7).
      auto 10.
Qed.

End ProjectFacts.

(** German leaves the English-German project while the page calls return:
    English becomes the active language. *)
Lemma removeProjectLanguage_guarded_witness :
  let st := Examples.bilingualProject in
  ((1 < length (Model.projectLanguages st))%nat
   /\ "de" ∈ Model.projectLanguages st)
  /\ exists st',
       Project.removeProjectLanguage (fun _ => true) st "de" = Project.Finished st'
       /\ Model.projectLanguages st' = ["en"]
       /\ Model.currentLanguage st' = "en".
Proof.
  intros st.
  assert (Hmany : (1 < length (Model.projectLanguages st))%nat) by (cbn; lia).
  assert (Hin : "de" ∈ Model.projectLanguages st) by (cbn; set_solver).
  split; [split; assumption|].
  destruct (proj2 (removeProjectLanguage_guarded (fun _ => true) st "de") Hmany Hin)
    as (i & first & H1 & H2 & _ & Hrun).
  destruct i as [|[|i]]; try discriminate H1.
  injection H2 as <-.
  destruct (Hrun (or_intror eq_refl)) as (st' & E & P1 & P2 & _).
  exists st'. split; [exact E|]. rewrite P1, P2. split; reflexivity.
Defined.

(** C4 as stated fails.  After German is removed from the English-German
    project, the first unit still has its German image, and the second unit,
    whose own headline list did not name German, still has its German
    headline.  (The units of this project can be painted: the page calls
    inside [switchGlobalLanguage] return.) *)
Lemma removeProjectLanguage_keeps_entries :
  let st := Examples.bilingualProject in
  exists st',
    Project.removeProjectLanguage (fun _ => true) st "de" = Project.Finished st'
    /\ Model.projectLanguages st' = ["en"]
    /\ (exists u, Model.screenshots st' !! 0%nat = Some u
                  /\ Model.localizedImages u !! "de" = Some Examples.shotDe)
    /\ (exists u, Model.screenshots st' !! 1%nat = Some u
                  /\ Model.headlines (Model.text u) !! "de" = Some "Hallo").
Proof.
  cbv zeta. eexists. split; [reflexivity|]. split; [reflexivity|]. split.
  - eexists. split; reflexivity.
  - eexists. split; reflexivity.
Defined.

(** ** Project languages, continued *)

Section LanguageFacts.

Import Model Project Languages.

Lemma with_languages_id t :
  with_languages t (headlines t) (headlineLanguages t) (currentHeadlineLang t)
                 (subheadlines t) (subheadlineLanguages t)
                 (currentSubheadlineLang t) = t.
Proof. now destruct t. Qed.

Lemma with_text_id u : with_text u (text u) = u.
Proof. now destruct u. Qed.

Lemma indexOf_app_fresh x l : x ∉ l -> indexOf x (l ++ [x]) = Some (length l).
Proof.
  unfold indexOf. induction l as [|y l IH]; intros Hnin.
  - cbn. now rewrite decide_True.
  - apply not_elem_of_cons in Hnin as [Hne Hnin]. cbn.
    rewrite decide_False by congruence.
    specialize (IH Hnin).
    destruct (list_find (fun y => y = x) (l ++ [x])) as [[i z]|]; [|discriminate].
    cbn in *. congruence.
Qed.

Lemma delete_last {A} (l : list A) x : delete (length l) (l ++ [x]) = l.
Proof. induction l; cbn; [reflexivity | now f_equal]. Qed.


Lemma enableLanguage_listed lang langs strings :
  lang ∈ langs -> enableLanguage lang langs strings = (langs, strings).
Proof. intros H. unfold enableLanguage. now rewrite bool_decide_eq_true_2. Qed.

Lemma enableLanguage_elem lang langs strings :
  lang ∈ (enableLanguage lang langs strings).1.
Proof.
  unfold enableLanguage. case_bool_decide; cbn; [assumption | set_solver].
Qed.

Lemma enableLanguage_mono lang langs strings l :
  l ∈ langs -> l ∈ (enableLanguage lang langs strings).1.
Proof.
  unfold enableLanguage. case_bool_decide; cbn; [auto | set_solver].
Qed.

Lemma enableLanguage_strings lang langs strings :
  (enableLanguage lang langs strings).2
  = if decide (lang ∈ langs) then strings
    else Proto.assign lang EmptyString strings.
Proof.
  unfold enableLanguage. case_bool_decide; destruct (decide _); tauto.
Qed.

(** An assignment under a name other than [__proto__] is an insertion;
    under [__proto__] it stores nothing in a map without that key. *)
Lemma assign_insert lang v (m : gmap string string) :
  lang <> "__proto__" -> Proto.assign lang v m = <[lang := v]> m.
Proof.
  intros Hne. unfold Proto.assign.
  now rewrite (proj2 (String.eqb_neq _ _) Hne).
Qed.

Lemma assign_proto v (m : gmap string string) :
  m !! "__proto__" = None -> Proto.assign "__proto__" v m = m.
Proof.
  intros Hnone. unfold Proto.assign. cbn [String.eqb Ascii.eqb Bool.eqb andb].
  rewrite bool_decide_eq_false_2; [reflexivity|].
  rewrite Hnone. now intros [x Hx].
Qed.

Lemma delete_assign lang v (m : gmap string string) :
  m !! lang = None -> delete lang (Proto.assign lang v m) = m.
Proof.
  intros Hnone. unfold Proto.assign.
  destruct (String.eqb lang "__proto__" && _).
  - now apply delete_id.
  - now apply delete_insert_id.
Qed.



(** What [addProjectLanguage] does to one unit. *)
Lemma addToScreenshot_props lang u :
  let u' := addToScreenshot lang u in
  image u' = image u
  /\ localizedImages u' = localizedImages u
  /\ background u' = background u
  /\ screenshot u' = screenshot u
  /\ lang ∈ headlineLanguages (text u')
  /\ lang ∈ subheadlineLanguages (text u')
  /\ headlines (text u')
     = (if decide (lang ∈ headlineLanguages (text u))
        then headlines (text u)
        else Proto.assign lang EmptyString (headlines (text u)))
  /\ subheadlines (text u')
     = (if decide (lang ∈ subheadlineLanguages (text u))
        then subheadlines (text u)
        else Proto.assign lang EmptyString (subheadlines (text u)))
  /\ currentHeadlineLang (text u') = currentHeadlineLang (text u)
  /\ currentSubheadlineLang (text u') = currentSubheadlineLang (text u)
  /\ (forall l, l ∈ headlineLanguages (text u) -> l ∈ headlineLanguages (text u'))
  /\ (forall l, l ∈ subheadlineLanguages (text u) ->
                l ∈ subheadlineLanguages (text u')).
Proof.
  cbv zeta. unfold addToScreenshot.
  pose proof (enableLanguage_strings lang (headlineLanguages (text u))
                (headlines (text u))) as Hh.
  pose proof (enableLanguage_strings lang (subheadlineLanguages (text u))
                (subheadlines (text u))) as Hs.
  pose proof (enableLanguage_elem lang (headlineLanguages (text u))
                (headlines (text u))) as Hhe.
  pose proof (enableLanguage_elem lang (subheadlineLanguages (text u))
                (subheadlines (text u))) as Hse.
  pose proof (enableLanguage_mono lang (headlineLanguages (text u))
                (headlines (text u))) as Hhm.
  pose proof (enableLanguage_mono lang (subheadlineLanguages (text u))
                (subheadlines (text u))) as Hsm.
  destruct (enableLanguage lang (headlineLanguages (text u)) _) as [hls hs].
  destruct (enableLanguage lang (subheadlineLanguages (text u)) _) as [sls ss].
  cbn in *. subst hs ss.
  split; [reflexivity|]. split; [reflexivity|]. split; [reflexivity|].
  split; [reflexivity|]. split; [assumption|]. split; [assumption|].
  split; [reflexivity|]. split; [reflexivity|]. split; [reflexivity|].
  split; [reflexivity|]. split; assumption.
Qed.

Lemma addToDefaults_props lang d :
  let d' := addToDefaults lang d in
  d_background d' = d_background d
  /\ d_screenshot d' = d_screenshot d
  /\ lang ∈ headlineLanguages (d_text d')
  /\ lang ∈ subheadlineLanguages (d_text d')
  /\ headlines (d_text d')
     = (if decide (lang ∈ headlineLanguages (d_text d))
        then headlines (d_text d)
        else Proto.assign lang EmptyString (headlines (d_text d)))
  /\ subheadlines (d_text d')
     = (if decide (lang ∈ subheadlineLanguages (d_text d))
        then subheadlines (d_text d)
        else Proto.assign lang EmptyString (subheadlines (d_text d)))
  /\ (forall l, l ∈ headlineLanguages (d_text d) ->
                l ∈ headlineLanguages (d_text d'))
  /\ (forall l, l ∈ subheadlineLanguages (d_text d) ->
                l ∈ subheadlineLanguages (d_text d')).
Proof.
  cbv zeta. unfold addToDefaults.
  pose proof (enableLanguage_strings lang (headlineLanguages (d_text d))
                (headlines (d_text d))) as Hh.
  pose proof (enableLanguage_strings lang (subheadlineLanguages (d_text d))
                (subheadlines (d_text d))) as Hs.
  pose proof (enableLanguage_elem lang (headlineLanguages (d_text d))
                (headlines (d_text d))) as Hhe.
  pose proof (enableLanguage_elem lang (subheadlineLanguages (d_text d))
                (subheadlines (d_text d))) as Hse.
  pose proof (enableLanguage_mono lang (headlineLanguages (d_text d))
                (headlines (d_text d))) as Hhm.
  pose proof (enableLanguage_mono lang (subheadlineLanguages (d_text d))
                (subheadlines (d_text d))) as Hsm.
  destruct (enableLanguage lang (headlineLanguages (d_text d)) _) as [hls hs].
  destruct (enableLanguage lang (subheadlineLanguages (d_text d)) _) as [sls ss].
  cbn in *. subst hs ss.
  split; [reflexivity|]. split; [reflexivity|]. split; [assumption|].
  split; [assumption|]. split; [reflexivity|]. split; [reflexivity|].
  split; assumption.
Qed.

Lemma addProjectLanguage_fresh st lang :
  Str.truthy lang = true -> lang ∉ projectLanguages st ->
  addProjectLanguage st lang
  = {| screenshots := addToScreenshot lang <$> screenshots st;
       selectedIndex := selectedIndex st;
       currentLanguage := currentLanguage st;
       projectLanguages := projectLanguages st ++ [lang];
       defaults := addToDefaults lang (defaults st) |}.
Proof.
  intros Ht Hnin. unfold addProjectLanguage.
  now rewrite Ht, bool_decide_eq_false_2.
Qed.

(** X1: enabling a language.  An empty code or a language that is enabled
    already changes nothing.  Otherwise the language is appended to the
    project list, every unit and the defaults list it for the headline and
    for the subheadline, and a unit (or the defaults) whose own list did not
    name it has the empty string assigned for it, in place of any string it
    held; nothing else of a unit or of the defaults changes.  The assignment
    stores the empty string under every code but [__proto__], under which
    it stores nothing. *)
Theorem addProjectLanguage_enables st lang :
  (Str.truthy lang = false \/ lang ∈ projectLanguages st ->
   addProjectLanguage st lang = st)
  /\ (Str.truthy lang = true -> lang ∉ projectLanguages st ->
      let st' := addProjectLanguage st lang in
      projectLanguages st' = projectLanguages st ++ [lang]
      /\ currentLanguage st' = currentLanguage st
      /\ selectedIndex st' = selectedIndex st
      /\ length (screenshots st') = length (screenshots st)
      /\ (forall j u,
             screenshots st !! j = Some u ->
             exists u',
               screenshots st' !! j = Some u'
               /\ image u' = image u
               /\ localizedImages u' = localizedImages u
               /\ background u' = background u
               /\ screenshot u' = screenshot u
               /\ lang ∈ headlineLanguages (text u')
               /\ lang ∈ subheadlineLanguages (text u')
               /\ headlines (text u')
                  = (if decide (lang ∈ headlineLanguages (text u))
                     then headlines (text u)
                     else Proto.assign lang EmptyString (headlines (text u)))
               /\ subheadlines (text u')
                  = (if decide (lang ∈ subheadlineLanguages (text u))
                     then subheadlines (text u)
                     else Proto.assign lang EmptyString (subheadlines (text u)))
               /\ currentHeadlineLang (text u') = currentHeadlineLang (text u)
               /\ currentSubheadlineLang (text u')
                  = currentSubheadlineLang (text u))
      /\ d_background (defaults st') = d_background (defaults st)
      /\ d_screenshot (defaults st') = d_screenshot (defaults st)
      /\ lang ∈ headlineLanguages (d_text (defaults st'))
      /\ lang ∈ subheadlineLanguages (d_text (defaults st'))
      /\ headlines (d_text (defaults st'))
         = (if decide (lang ∈ headlineLanguages (d_text (defaults st)))
            then headlines (d_text (defaults st))
            else Proto.assign lang EmptyString (headlines (d_text (defaults st))))
      /\ subheadlines (d_text (defaults st'))
         = (if decide (lang ∈ subheadlineLanguages (d_text (defaults st)))
            then subheadlines (d_text (defaults st))
            else Proto.assign lang EmptyString
                   (subheadlines (d_text (defaults st)))))
  /\ (forall m : gmap string string,
        (lang <> "__proto__" ->
         Proto.assign lang EmptyString m = <[lang := EmptyString]> m)
        /\ (m !! "__proto__" = None ->
            Proto.assign "__proto__" EmptyString m = m)).
Proof.
  split; [|split].
  - intros [Hempty | Hin]; unfold addProjectLanguage.
    + now rewrite Hempty.
    + rewrite (bool_decide_eq_true_2 _ Hin). now rewrite orb_true_r.
  - intros Ht Hnin. cbv zeta. rewrite (addProjectLanguage_fresh _ _ Ht Hnin).
    cbn [projectLanguages currentLanguage selectedIndex screenshots defaults].
    split; [reflexivity|]. split; [reflexivity|]. split; [reflexivity|].
    split; [now rewrite length_fmap|]. split.
    + intros j u Hu. eexists. split.
      { rewrite list_lookup_fmap, Hu. reflexivity. }
      destruct (addToScreenshot_props lang u)
        as (H1 & H2 & H3 & H4 & H5 & H6 & H7 & H8 & H9 & H10 & _).
      cbv zeta in H1, H2, H3, H4, H5, H6, H7, H8, H9, H10.
      repeat (split; [assumption|]). assumption.
    + destruct (addToDefaults_props lang (defaults st))
        as (H1 & H2 & H3 & H4 & H5 & H6 & _).
      cbv zeta in H1, H2, H3, H4, H5, H6.
      repeat (split; [assumption|]). assumption.
  - intros m. split; [apply assign_insert | apply assign_proto].
Qed.




End LanguageFacts.

Section LanguageInvariants.

Import Model Project Languages.

Lemma elem_of_delete_other {A} (l : list A) i x y :
  l !! i = Some y -> x ∈ l -> x <> y -> x ∈ delete i l.
Proof.
  revert i. induction l as [|z l IH]; intros i Hi Hin Hne; [inversion Hin|].
  destruct i as [|i]; cbn in *.
  - injection Hi as ->. apply elem_of_cons in Hin as [->|Hin]; [congruence|assumption].
  - apply elem_of_cons in Hin as [->|Hin]; [left | right; eauto].
Qed.

Lemma elem_of_delete_inv {A} (l : list A) i x : x ∈ delete i l -> x ∈ l.
Proof.
  revert i. induction l as [|z l IH]; intros i Hin; [destruct i; inversion Hin|].
  destruct i as [|i]; cbn in *; [now right|].
  apply elem_of_cons in Hin as [->|Hin]; [left | right; eauto].
Qed.

Lemma NoDup_delete_at {A} (l : list A) i : NoDup l -> NoDup (delete i l).
Proof.
  intros H. revert i. induction H as [|z l Hz Hl IH]; intros i.
  - destruct i; constructor.
  - destruct i as [|i]; cbn; [assumption|]. constructor; [|apply IH].
    intros Hin. apply Hz. eapply elem_of_delete_inv. exact Hin.
Qed.

Lemma not_elem_of_delete_NoDup {A} (l : list A) i x :
  NoDup l -> l !! i = Some x -> x ∉ delete i l.
Proof.
  intros H. revert i. induction H as [|z l Hz Hl IH]; intros i Hi; [destruct i; discriminate|].
  destruct i as [|i]; cbn in *.
  - now injection Hi as ->.
  - apply not_elem_of_cons. split; [|eauto].
    intros ->. apply Hz. eapply list_elem_of_lookup_2. exact Hi.
Qed.

Lemma dropLanguage_langs_keep lang langs strings l :
  l ∈ langs -> l <> lang -> l ∈ (dropLanguage lang langs strings).1.
Proof.
  intros Hin Hne. unfold dropLanguage.
  destruct (indexOf lang langs) as [i|] eqn:E; cbn; [|assumption].
  apply indexOf_Some in E. eapply elem_of_delete_other; eauto.
Qed.


Lemma removeFromScreenshot_lists lang first u l :
  l <> lang ->
  (l ∈ headlineLanguages (text u) ->
   l ∈ headlineLanguages (text (removeFromScreenshot lang first u)))
  /\ (l ∈ subheadlineLanguages (text u) ->
      l ∈ subheadlineLanguages (text (removeFromScreenshot lang first u))).
Proof.
  intros Hne. unfold removeFromScreenshot.
  pose proof (dropLanguage_langs_keep lang (headlineLanguages (text u))
                (headlines (text u)) l) as Hh.
  pose proof (dropLanguage_langs_keep lang (subheadlineLanguages (text u))
                (subheadlines (text u)) l) as Hs.
  destruct (dropLanguage lang (headlineLanguages (text u)) _) as [hls hs].
  destruct (dropLanguage lang (subheadlineLanguages (text u)) _) as [sls ss].
  cbn in *. split; auto.
Qed.

Lemma removeFromDefaults_lists lang d l :
  l <> lang ->
  (l ∈ headlineLanguages (d_text d) ->
   l ∈ headlineLanguages (d_text (removeFromDefaults lang d)))
  /\ (l ∈ subheadlineLanguages (d_text d) ->
      l ∈ subheadlineLanguages (d_text (removeFromDefaults lang d))).
Proof.
  intros Hne. unfold removeFromDefaults.
  pose proof (dropLanguage_langs_keep lang (headlineLanguages (d_text d))
                (headlines (d_text d)) l) as Hh.
  pose proof (dropLanguage_langs_keep lang (subheadlineLanguages (d_text d))
                (subheadlines (d_text d)) l) as Hs.
  destruct (dropLanguage lang (headlineLanguages (d_text d)) _) as [hls hs].
  destruct (dropLanguage lang (subheadlineLanguages (d_text d)) _) as [sls ss].
  cbn in *. split; auto.
Qed.

(** The state [removeProjectLanguage] builds when it runs to its end. *)
Lemma purge_listed st lang i :
  (1 < length (projectLanguages st))%nat ->
  indexOf lang (projectLanguages st) = Some i ->
  let langs := delete i (projectLanguages st) in
  forall first, langs !! 0%nat = Some first ->
  exists us cur,
    purge lang
      (if decide (currentLanguage st = lang)
       then switchGlobalLanguage (with_projectLanguages st langs) first
       else with_projectLanguages st langs)
    = {| screenshots := removeFromScreenshot lang (langs !! 0%nat) <$> us;
         selectedIndex := selectedIndex st;
         currentLanguage := cur;
         projectLanguages := langs;
         defaults := removeFromDefaults lang (defaults st) |}
    /\ (cur = currentLanguage st /\ currentLanguage st <> lang
        \/ langs !! 0%nat = Some cur)
    /\ (forall u, u ∈ us ->
          exists v, v ∈ screenshots st
            /\ headlineLanguages (text u) = headlineLanguages (text v)
            /\ subheadlineLanguages (text u) = subheadlineLanguages (text v)
            /\ headlines (text u) = headlines (text v)
            /\ subheadlines (text u) = subheadlines (text v)
            /\ (currentHeadlineLang (text u) = currentHeadlineLang (text v)
                \/ currentHeadlineLang (text u) = langs !! 0%nat)
            /\ (currentSubheadlineLang (text u) = currentSubheadlineLang (text v)
                \/ currentSubheadlineLang (text u) = langs !! 0%nat)).
Proof.
  intros Hmany Hi. cbv zeta. intros first Hfirst. unfold purge.
  destruct (decide (currentLanguage st = lang)) as [Hcur | Hcur];
    cbn [switchGlobalLanguage with_projectLanguages projectLanguages
         currentLanguage screenshots defaults selectedIndex].
  - eexists _, first. split; [reflexivity|]. split; [now right|].
    intros u Hu.
    apply list_elem_of_fmap in Hu as (v & -> & Hv).
    exists v. cbn. repeat split; auto.
  - eexists _, (currentLanguage st). split; [reflexivity|].
    split; [left; split; [reflexivity | assumption]|].
    intros u Hu. exists u. repeat split; auto.
Qed.

(** The two ways [removeProjectLanguage] ends when it does remove. *)
Lemma removeProjectLanguage_ends pageCalls st lang i first :
  (1 < length (projectLanguages st))%nat ->
  indexOf lang (projectLanguages st) = Some i ->
  delete i (projectLanguages st) !! 0%nat = Some first ->
  let langs := delete i (projectLanguages st) in
  let switched := switchGlobalLanguage (with_projectLanguages st langs) first in
  (currentLanguage st = lang
   /\ removeProjectLanguage pageCalls st lang = Aborted switched)
  \/ removeProjectLanguage pageCalls st lang
     = Finished
         (purge lang
            (if decide (currentLanguage st = lang) then switched
             else with_projectLanguages st langs)).
Proof.
  intros Hmany Hi Hfirst. cbv zeta.
  destruct (decide (currentLanguage st = lang)) as [Hcur | Hcur].
  - destruct (pageCalls
                (switchGlobalLanguage
                   (with_projectLanguages st (delete i (projectLanguages st)))
                   first)) eqn:Hp.
    + right. rewrite (removeProjectLanguage_finished pageCalls st lang i first)
        by auto.
      now rewrite decide_True.
    + left. split; [assumption|]. unfold removeProjectLanguage.
      apply Nat.leb_gt in Hmany. rewrite Hmany, Hi.
      cbn [with_projectLanguages currentLanguage projectLanguages].
      rewrite Hfirst. cbv zeta. rewrite decide_True by assumption.
      now rewrite Hp.
  - right. rewrite (removeProjectLanguage_finished pageCalls st lang i first)
      by auto.
    now rewrite decide_False.
Qed.

(** X3: the language functions keep a project consistent: after enabling a
    language, after removing one -- also when the repaint inside the removal
    throws and cuts it short -- and after switching to an enabled language,
    the enabled languages are still distinct, the active language is still
    enabled, and every unit and the defaults still list every enabled
    language for the headline and the subheadline. *)
Theorem language_functions_keep_consistent pageCalls st lang :
  consistent st ->
  consistent (addProjectLanguage st lang)
  /\ consistent (stateOf (removeProjectLanguage pageCalls st lang))
  /\ (lang ∈ projectLanguages st -> consistent (switchGlobalLanguage st lang)).
Proof.
  intros (Hnd & Hcur & Hus & Hd). split; [|split].
  - destruct (Str.truthy lang) eqn:Ht;
      [destruct (decide (lang ∈ projectLanguages st)) as [Hin | Hnin]|].
    + unfold addProjectLanguage.
      rewrite (bool_decide_eq_true_2 _ Hin), orb_true_r. exact (conj Hnd (conj Hcur (conj Hus Hd))).
    + rewrite (addProjectLanguage_fresh _ _ Ht Hnin).
      unfold consistent.
      cbn [projectLanguages currentLanguage screenshots defaults].
      split; [|split; [|split]].
      * apply NoDup_app. split; [assumption|]. split; [|apply NoDup_singleton].
        intros x Hx Hx'. apply list_elem_of_singleton in Hx' as ->. contradiction.
      * apply elem_of_app. now left.
      * intros u Hu l Hl. apply list_elem_of_fmap in Hu as (v & -> & Hv).
        destruct (addToScreenshot_props lang v)
          as (_ & _ & _ & _ & H5 & H6 & _ & _ & _ & _ & H11 & H12).
        cbv zeta in H5, H6, H11, H12.
        apply elem_of_app in Hl as [Hl | Hl].
        -- destruct (Hus v Hv l Hl). split; auto.
        -- apply list_elem_of_singleton in Hl as ->. split; assumption.
      * intros l Hl.
        destruct (addToDefaults_props lang (defaults st))
          as (_ & _ & H3 & H4 & _ & _ & H7 & H8).
        cbv zeta in H3, H4, H7, H8.
        apply elem_of_app in Hl as [Hl | Hl].
        -- destruct (Hd l Hl). split; auto.
        -- apply list_elem_of_singleton in Hl as ->. split; assumption.
    + unfold addProjectLanguage. rewrite Ht. exact (conj Hnd (conj Hcur (conj Hus Hd))).
  - destruct (le_lt_dec (length (projectLanguages st)) 1) as [Hone | Hmany].
    { unfold removeProjectLanguage. apply Nat.leb_le in Hone. rewrite Hone.
      exact (conj Hnd (conj Hcur (conj Hus Hd))). }
    destruct (indexOf lang (projectLanguages st)) as [i|] eqn:Hi.
    2:{ unfold removeProjectLanguage. rewrite Hi.
        destruct (_ <=? _)%nat; exact (conj Hnd (conj Hcur (conj Hus Hd))). }
    pose proof (indexOf_Some _ _ _ Hi) as Hlang.
    assert (Hfirst : is_Some (delete i (projectLanguages st) !! 0%nat)).
    { apply lookup_lt_is_Some. rewrite length_delete by eauto. lia. }
    destruct Hfirst as [first Hfirst].
    assert (Hother : forall l, l ∈ delete i (projectLanguages st) ->
                               l ∈ projectLanguages st /\ l <> lang).
    { intros l Hl. split; [eapply elem_of_delete_inv; exact Hl|].
      intros ->. revert Hl. now apply not_elem_of_delete_NoDup. }
    destruct (removeProjectLanguage_ends pageCalls st lang i first Hmany Hi Hfirst)
      as [[_ ->] | ->]; cbn [stateOf].
    { unfold consistent.
      cbn [switchGlobalLanguage with_projectLanguages projectLanguages
           currentLanguage screenshots defaults].
      split; [now apply NoDup_delete_at|].
      split; [eapply list_elem_of_lookup_2; exact Hfirst|]. split.
      - intros u Hu l Hl. apply list_elem_of_fmap in Hu as (v & -> & Hv).
        destruct (Hother l Hl) as [Hin _]. exact (Hus v Hv l Hin).
      - intros l Hl. destruct (Hother l Hl) as [Hin _]. exact (Hd l Hin). }
    destruct (purge_listed st lang i Hmany Hi first Hfirst)
      as (us & cur & -> & Hcur' & Hus').
    unfold consistent.
    cbn [projectLanguages currentLanguage screenshots defaults].
    split; [|split; [|split]].
    + now apply NoDup_delete_at.
    + destruct Hcur' as [[-> Hne] | Hfirst'].
      * eapply elem_of_delete_other; eauto.
      * eapply list_elem_of_lookup_2. exact Hfirst'.
    + intros u Hu l Hl. apply list_elem_of_fmap in Hu as (w & -> & Hw).
      destruct (Hus' w Hw) as (v & Hv & Eh & Es & _).
      destruct (Hother l Hl) as [Hin Hne].
      destruct (removeFromScreenshot_lists lang
                  (delete i (projectLanguages st) !! 0%nat) w l Hne) as [H1 H2].
      destruct (Hus v Hv l Hin) as [Hh Hs].
      split; [apply H1; now rewrite Eh | apply H2; now rewrite Es].
    + intros l Hl. destruct (Hother l Hl) as [Hin Hne].
      destruct (removeFromDefaults_lists lang (defaults st) l Hne) as [H1 H2].
      destruct (Hd l Hin). split; auto.
  - intros Hin. unfold consistent.
    cbn [switchGlobalLanguage projectLanguages currentLanguage screenshots defaults].
    split; [assumption|]. split; [assumption|]. split; [|assumption].
    intros u Hu l Hl. apply list_elem_of_fmap in Hu as (v & -> & Hv).
    exact (Hus v Hv l Hl).
Qed.

End LanguageInvariants.

Section LanguagePurge.

Import Model Project Languages.

Variable text_width : Canvas.Font -> string -> R.




Lemma drawText_nothing dims t :
  default EmptyString (headlines t !! Canvas.lang_or_en (currentHeadlineLang t))
  = EmptyString ->
  default EmptyString (subheadlines t !! Canvas.lang_or_en (currentSubheadlineLang t))
  = EmptyString ->
  Canvas.drawTextToContext text_width dims t = [].
Proof.
  intros Hh Hs. unfold Canvas.drawTextToContext. cbv zeta.
  rewrite Hh, Hs.
  destruct (match headlineEnabled t with Some false => false | _ => true end),
    (subheadlineEnabled t); reflexivity.
Qed.

(** X5: switching the project language.  The language becomes the active one
    and the one every unit shows, whether it is enabled or not; strings,
    lists, images and settings stay; of two switches the second decides; and
    a unit without a headline and a subheadline in the new language gets an
    empty text layer: no string of another language stands in.  (The last
    for a language that is no name the string maps inherit.) *)
Theorem switchGlobalLanguage_shows st lang :
  let st' := switchGlobalLanguage st lang in
  currentLanguage st' = lang
  /\ projectLanguages st' = projectLanguages st
  /\ defaults st' = defaults st
  /\ selectedIndex st' = selectedIndex st
  /\ (forall lang', switchGlobalLanguage st' lang' = switchGlobalLanguage st lang')
  /\ (forall j u,
         screenshots st !! j = Some u ->
         exists u',
           screenshots st' !! j = Some u'
           /\ image u' = image u
           /\ localizedImages u' = localizedImages u
           /\ background u' = background u
           /\ screenshot u' = screenshot u
           /\ headlines (text u') = headlines (text u)
           /\ subheadlines (text u') = subheadlines (text u)
           /\ headlineLanguages (text u') = headlineLanguages (text u)
           /\ subheadlineLanguages (text u') = subheadlineLanguages (text u)
           /\ currentHeadlineLang (text u') = Some lang
           /\ currentSubheadlineLang (text u') = Some lang
           /\ (Str.truthy lang = true ->
               Proto.inherited lang = false ->
               default EmptyString (headlines (text u) !! lang) = EmptyString ->
               default EmptyString (subheadlines (text u) !! lang) = EmptyString ->
               forall dims,
                 Canvas.drawTextToContext text_width dims (text u') = [])).
Proof.
  cbv zeta. cbn [switchGlobalLanguage currentLanguage projectLanguages defaults
                 selectedIndex screenshots].
  split; [reflexivity|]. split; [reflexivity|]. split; [reflexivity|].
  split; [reflexivity|]. split.
  - intros lang'. unfold switchGlobalLanguage.
    cbn [screenshots selectedIndex projectLanguages defaults].
    f_equal. apply list_eq. intros j.
    rewrite !list_lookup_fmap. now destruct (screenshots st !! j).
  - intros j u Hu. eexists. split.
    { rewrite list_lookup_fmap, Hu. reflexivity. }
    cbn [with_text with_languages image localizedImages background
         Model.screenshot text headlines subheadlines headlineLanguages
         subheadlineLanguages currentHeadlineLang currentSubheadlineLang].
    repeat (split; [reflexivity|]).
    intros Ht _ Hh Hs dims. apply drawText_nothing;
      cbn [with_languages headlines subheadlines currentHeadlineLang
           currentSubheadlineLang Canvas.lang_or_en];
      unfold Str.or_else; rewrite Ht; assumption.
Qed.

End LanguagePurge.

(** ** Localized images *)

Section LocalizedFacts.

Import Model Project Languages Localized.

Variable text_width : Canvas.Font -> string -> R.
Variable getImageData : Canvas.Surface -> R -> R -> R -> R -> list Z.
Variable random : nat -> R.

Local Abbreviation render :=
  (Canvas.renderScreenshotToCanvas text_width getImageData random).

Lemma with_localizedImages_id u : with_localizedImages u (localizedImages u) = u.
Proof. now destruct u. Qed.

(** The renderer reads the image, the background, the screenshot settings
    and the text of the unit at [index], and nothing else of the state. *)
Lemma render_reads st st' env index target dims previewScale k :
  (forall u, screenshots st !! index = Some u ->
     exists u', screenshots st' !! index = Some u'
       /\ image u' = image u /\ background u' = background u
       /\ screenshot u' = screenshot u /\ text u' = text u) ->
  (screenshots st !! index = None -> screenshots st' !! index = None) ->
  render st' env index target dims previewScale k
  = render st env index target dims previewScale k.
Proof.
  intros Hsome Hnone. unfold Canvas.renderScreenshotToCanvas.
  destruct (screenshots st !! index) as [u|] eqn:E.
  - destruct (Hsome u eq_refl) as (u' & -> & Hi & Hb & Hs & Ht).
    rewrite Hi, Hb, Hs, Ht. reflexivity.
  - now rewrite Hnone.
Qed.

Lemma firstImage_None m langs :
  firstImage m langs = None <-> forall l, l ∈ langs -> imageOf m l = None.
Proof.
  induction langs as [|l langs IH]; cbn.
  - split; [intros _ l Hl; inversion Hl | reflexivity].
  - destruct (imageOf m l) as [img|] eqn:E.
    + split; [discriminate|]. intros H. rewrite <- E. apply H. left.
    + rewrite IH. split.
      * intros H l' Hl'. apply elem_of_cons in Hl' as [->|Hl']; auto.
      * intros H l' Hl'. apply H. now right.
Qed.

Lemma firstImage_Some m langs img :
  firstImage m langs = Some img -> exists l, l ∈ langs /\ imageOf m l = Some img.
Proof.
  induction langs as [|l langs IH]; cbn; [discriminate|].
  destruct (imageOf m l) as [img'|] eqn:E.
  - intros [= ->]. exists l. split; [left | assumption].
  - intros H. destruct (IH H) as (l' & Hl' & Hi). exists l'. split; [now right | assumption].
Qed.

Lemma getScreenshotImage_facts st keys u :
  (forall l, is_Some (localizedImages u !! l) -> l ∈ keys) ->
  (forall img, imageOf (localizedImages u) (currentLanguage st) = Some img ->
     getScreenshotImage st keys (Some u) = Some img)
  /\ (forall img, getScreenshotImage st keys (Some u) = Some img ->
        image u = Some img
        \/ exists l, imageOf (localizedImages u) l = Some img)
  /\ ((forall l, imageOf (localizedImages u) l = None) ->
      getScreenshotImage st keys (Some u) = image u)
  /\ (getScreenshotImage st keys (Some u) = None <->
      image u = None /\ forall l, imageOf (localizedImages u) l = None).
Proof.
  intros Hkeys. unfold getScreenshotImage. cbv zeta.
  split; [|split; [|split]].
  - intros img ->. reflexivity.
  - intros img.
    destruct (imageOf _ (currentLanguage st)) as [i1|] eqn:E1.
    { intros [= ->]. right. eauto. }
    destruct (firstImage _ (projectLanguages st)) as [i2|] eqn:E2.
    { intros [= ->]. right. apply firstImage_Some in E2 as (l & _ & Hl). eauto. }
    destruct (firstImage _ keys) as [i3|] eqn:E3.
    { intros [= ->]. right. apply firstImage_Some in E3 as (l & _ & Hl). eauto. }
    now left.
  - intros Hno. rewrite Hno.
    rewrite (proj2 (firstImage_None _ (projectLanguages st))) by auto.
    now rewrite (proj2 (firstImage_None _ keys)) by auto.
  - destruct (imageOf _ (currentLanguage st)) as [i1|] eqn:E1.
    { split; [discriminate|]. intros [_ H]. rewrite H in E1. discriminate. }
    destruct (firstImage _ (projectLanguages st)) as [i2|] eqn:E2.
    { split; [discriminate|]. intros [_ H].
      apply firstImage_Some in E2 as (l & _ & Hl). rewrite H in Hl. discriminate. }
    destruct (firstImage _ keys) as [i3|] eqn:E3.
    { split; [discriminate|]. intros [_ H].
      apply firstImage_Some in E3 as (l & _ & Hl). rewrite H in Hl. discriminate. }
    split; [|tauto]. intros Hi. split; [assumption|].
    intros l. destruct (imageOf (localizedImages u) l) as [img|] eqn:E; [|reflexivity].
    rewrite <- E. apply (proj1 (firstImage_None _ keys) E3).
    apply Hkeys. unfold imageOf in E.
    destruct (localizedImages u !! l); [eauto | discriminate].
Qed.

(** X6: the stored image of a unit.  An image stored for the active language
    is the one returned; whatever is returned is an image of the unit, the
    legacy one or one stored for some language; the legacy image is returned
    when no language has an image; and nothing is returned only when the
    unit has no image at all.  None of this depends on the order in which
    the languages of the unit are enumerated. *)
Theorem getScreenshotImage_picks_a_stored_image st keys u :
  (forall l, is_Some (localizedImages u !! l) -> l ∈ keys) ->
  (forall img, imageOf (localizedImages u) (currentLanguage st) = Some img ->
     getScreenshotImage st keys (Some u) = Some img)
  /\ (forall img, getScreenshotImage st keys (Some u) = Some img ->
        image u = Some img
        \/ exists l, imageOf (localizedImages u) l = Some img)
  /\ ((forall l, imageOf (localizedImages u) l = None) ->
      getScreenshotImage st keys (Some u) = image u)
  /\ (getScreenshotImage st keys (Some u) = None <->
      image u = None /\ forall l, imageOf (localizedImages u) l = None).
Proof. apply getScreenshotImage_facts. Qed.

Lemma getScreenshotImage_legacy st keys u :
  localizedImages u = ∅ -> getScreenshotImage st keys (Some u) = image u.
Proof.
  intros Hempty. unfold getScreenshotImage. cbv zeta. rewrite Hempty.
  assert (Hno : forall l, imageOf (∅ : gmap string LocalizedImage) l = None).
  { intros l. unfold imageOf. now rewrite lookup_empty. }
  rewrite Hno.
  rewrite (proj2 (firstImage_None _ (projectLanguages st))) by auto.
  now rewrite (proj2 (firstImage_None _ keys)) by auto.
Qed.

Lemma store_Some lang li (m : gmap string LocalizedImage) :
  lang <> "__proto__" -> store lang li m = Some (<[lang := li]> m).
Proof.
  intros Hne. unfold store. now rewrite (proj2 (String.eqb_neq _ _) Hne).
Qed.

Lemma store_inv lang li (m m' : gmap string LocalizedImage) :
  store lang li m = Some m' -> m' = <[lang := li]> m.
Proof.
  unfold store. destruct (String.eqb lang "__proto__" && _); congruence.
Qed.

Lemma migrate_cases name u detectedLang u' :
  migrateScreenshotToLocalized name u detectedLang = Some u' ->
  (u' = u /\ (localizedImages u = ∅ -> image u = None))
  \/ exists img li,
       image u = Some img /\ li_image li = Some img /\ localizedImages u = ∅
       /\ u' = with_localizedImages u (<[detectedLang := li]> (localizedImages u)).
Proof.
  unfold migrateScreenshotToLocalized.
  destruct (0 <? size (localizedImages u))%nat eqn:Esize.
  - intros [= <-]. left. split; [reflexivity|]. intros Hempty.
    rewrite Hempty, map_size_empty in Esize. discriminate.
  - destruct (image u) as [img|].
    + intros H. right. eexists img, _. split; [reflexivity|].
      apply Nat.ltb_ge in Esize. apply Nat.le_0_r, map_size_empty_inv in Esize.
      destruct (store detectedLang _ (localizedImages u)) as [m|] eqn:Em;
        [|discriminate].
      cbn in H. injection H as <-. apply store_inv in Em. rewrite Em.
      split; [|split; [assumption | reflexivity]]. reflexivity.
    + intros [= <-]. left. split; reflexivity.
Qed.

(** X7: migrating a unit to localized storage.  A unit that has stored images
    already, or no legacy image, is returned as it is.  A legacy unit without
    stored images gets its image stored under the detected language -- any
    code but [__proto__], under which the assignment creates no entry --
    together with the source of the image and the name of the screenshot, or
    ['screenshot.png'] where the name is missing or empty, and nothing else
    of it changes.  Migrating a migrated unit again changes nothing, and the
    image returned for the unit is the same before and after, whatever the
    active and the enabled languages are and in whatever order its languages
    are enumerated. *)
Theorem migrateScreenshotToLocalized_keeps_image st name u detectedLang :
  (localizedImages u <> ∅ \/ image u = None ->
   migrateScreenshotToLocalized name u detectedLang = Some u)
  /\ (forall img,
        localizedImages u = ∅ -> image u = Some img ->
        detectedLang <> "__proto__" ->
        exists u',
          migrateScreenshotToLocalized name u detectedLang = Some u'
          /\ localizedImages u'
             = {[ detectedLang :=
                    {| li_image := Some img;
                       li_src := img_src img;
                       li_name := match name with
                                  | Some n =>
                                      if Str.truthy n then n else "screenshot.png"
                                  | None => "screenshot.png"
                                  end |} ]}
          /\ image u' = image u /\ background u' = background u
          /\ screenshot u' = screenshot u /\ text u' = text u)
  /\ (forall u',
        migrateScreenshotToLocalized name u detectedLang = Some u' ->
        (forall name2 lang2, migrateScreenshotToLocalized name2 u' lang2 = Some u')
        /\ image u' = image u /\ background u' = background u
        /\ screenshot u' = screenshot u /\ text u' = text u
        /\ (localizedImages u = ∅ ->
            forall keys keys',
              (forall l, is_Some (localizedImages u' !! l) -> l ∈ keys') ->
              getScreenshotImage st keys' (Some u')
              = getScreenshotImage st keys (Some u))).
Proof.
  split; [|split].
  - intros Hcase. unfold migrateScreenshotToLocalized.
    destruct (0 <? size (localizedImages u))%nat eqn:Esize; [reflexivity|].
    destruct Hcase as [Hne | ->]; [|reflexivity].
    apply Nat.ltb_ge in Esize. apply Nat.le_0_r, map_size_empty_inv in Esize.
    contradiction.
  - intros img Hempty Himg Hne. unfold migrateScreenshotToLocalized.
    rewrite Hempty, map_size_empty. cbn [Nat.ltb Nat.leb]. rewrite Himg.
    rewrite store_Some by assumption. cbn [fmap option_fmap option_map].
    eexists. split; [reflexivity|].
    cbn [localizedImages with_localizedImages image background screenshot text].
    split.
    { rewrite insert_empty. unfold Str.or_else. destruct name; reflexivity. }
    repeat split; assumption || reflexivity || (now symmetry).
  - intros u' Hmig.
    destruct (migrate_cases name u detectedLang u' Hmig)
      as [[-> Hnone] | (img & li & Hi & Hli & Hempty & ->)].
    + split.
      { intros name2 lang2. unfold migrateScreenshotToLocalized.
        destruct (0 <? size (localizedImages u))%nat eqn:Esize; [reflexivity|].
        destruct (image u) as [img|] eqn:Eimg; [|reflexivity].
        apply Nat.ltb_ge in Esize. apply Nat.le_0_r, map_size_empty_inv in Esize.
        specialize (Hnone Esize). discriminate. }
      repeat (split; [reflexivity|]).
      intros Hempty keys keys' _. now rewrite !getScreenshotImage_legacy.
    + split.
      { intros name2 lang2. unfold migrateScreenshotToLocalized.
        cbn [localizedImages with_localizedImages].
        assert (Hpos : (0 <? size (<[detectedLang := li]> (localizedImages u)))%nat
                       = true).
        { destruct (size (<[detectedLang := li]> (localizedImages u))) eqn:E;
            [|reflexivity].
          apply map_size_empty_inv in E. now apply insert_non_empty in E. }
        now rewrite Hpos. }
      repeat (split; [reflexivity|]).
      intros _ keys keys' Hkeys'.
      rewrite (getScreenshotImage_legacy st keys u Hempty), Hi.
      set (u' := with_localizedImages u _) in *.
      destruct (getScreenshotImage_facts st keys' u' Hkeys')
        as (_ & Hsound & _ & Hnone).
      destruct (getScreenshotImage st keys' (Some u')) as [i|] eqn:E.
      * destruct (Hsound i eq_refl) as [Hi' | (l & Hl)].
        { cbn in Hi'. congruence. }
        subst u'. cbn [localizedImages with_localizedImages] in Hl.
        rewrite Hempty in Hl. unfold imageOf in Hl.
        destruct (decide (l = detectedLang)) as [-> | Hne].
        { rewrite lookup_insert_eq in Hl. cbn in Hl. congruence. }
        rewrite lookup_insert_ne, lookup_empty in Hl by congruence. discriminate.
      * destruct (proj1 Hnone eq_refl) as [E' _]. cbn in E'. congruence.
Qed.

Lemma addLocalizedImage_stored st i lang img src name u :
  screenshots st !! i = Some u -> lang <> "__proto__" ->
  let u1 :=
    with_localizedImages u
      (<[lang := {| li_image := Some img; li_src := src; li_name := name |}]>
         (localizedImages u)) in
  addLocalizedImage st i lang img src name
  = Some (if bool_decide (lang ∈ projectLanguages st)
          then with_screenshots st (<[i := u1]> (screenshots st))
          else addProjectLanguage
                 (with_screenshots st (<[i := u1]> (screenshots st))) lang).
Proof.
  intros Hu Hne. cbv zeta. unfold addLocalizedImage.
  rewrite Hu, store_Some by assumption. reflexivity.
Qed.

Lemma addToScreenshot_localized lang u m :
  addToScreenshot lang (with_localizedImages u m)
  = with_localizedImages (addToScreenshot lang u) m.
Proof.
  unfold addToScreenshot. cbn [text with_localizedImages].
  destruct (enableLanguage lang (headlineLanguages (text u)) _) as [hls hs].
  destruct (enableLanguage lang (subheadlineLanguages (text u)) _) as [sls ss].
  reflexivity.
Qed.

Lemma addToScreenshot_localizedImages lang u :
  localizedImages (addToScreenshot lang u) = localizedImages u.
Proof. now destruct (addToScreenshot_props lang u) as (_ & H & _). Qed.

Lemma addProjectLanguage_units st lang us :
  addProjectLanguage (with_screenshots st us) lang
  = with_screenshots (addProjectLanguage st lang)
      (if negb (Str.truthy lang) || bool_decide (lang ∈ projectLanguages st)
       then us else addToScreenshot lang <$> us).
Proof.
  unfold addProjectLanguage. cbn [with_screenshots projectLanguages].
  destruct (negb (Str.truthy lang) || bool_decide (lang ∈ projectLanguages st));
    reflexivity.
Qed.

(** X8: storing an image for a language.  With no unit at the index nothing
    happens.  Otherwise, for every language code but [__proto__] (under
    which the assignment creates no entry), the unit holds the image, its
    source and its name under the language; a language with a non-empty code
    is enabled afterwards; the stored images of the other units, and the
    legacy image, the background and the screenshot settings of every unit
    are as before; and when the language was enabled already no canvas
    changes, because the renderer draws the legacy image of a unit. *)
Theorem addLocalizedImage_stores st i lang img src name :
  (screenshots st !! i = None ->
   addLocalizedImage st i lang img src name = Some st)
  /\ (forall u, screenshots st !! i = Some u -> lang <> "__proto__" ->
        exists st',
        addLocalizedImage st i lang img src name = Some st' /\
        (exists u',
            screenshots st' !! i = Some u'
            /\ localizedImages u'
               = <[lang := {| li_image := Some img; li_src := src; li_name := name |}]>
                   (localizedImages u))
        /\ (Str.truthy lang = true -> lang ∈ projectLanguages st')
        /\ (forall j v, screenshots st !! j = Some v ->
              exists v',
                screenshots st' !! j = Some v'
                /\ image v' = image v /\ background v' = background v
                /\ screenshot v' = screenshot v
                /\ (j <> i -> localizedImages v' = localizedImages v))
        /\ (lang ∈ projectLanguages st ->
            forall env index target dims previewScale k,
              Canvas.renderScreenshotToCanvas text_width getImageData random
                st' env index target dims previewScale k
              = Canvas.renderScreenshotToCanvas text_width getImageData random
                  st env index target dims previewScale k)).
Proof.
  split.
  { intros Hnone. unfold addLocalizedImage. now rewrite Hnone. }
  intros u Hu Hproto.
  pose proof (lookup_lt_Some _ _ _ Hu) as Hlt.
  pose proof (addLocalizedImage_stored st i lang img src name u Hu Hproto) as Hst.
  cbv zeta in Hst.
  set (li := {| li_image := Some img; li_src := src; li_name := name |}) in *.
  set (u1 := with_localizedImages u (<[lang := li]> (localizedImages u))) in *.
  eexists. split; [exact Hst|]. clear Hst.
  destruct (bool_decide (lang ∈ projectLanguages st)) eqn:Hin.
  - apply bool_decide_eq_true in Hin.
    cbn [with_screenshots screenshots projectLanguages].
    split; [|split; [|split]].
    + exists u1. split; [now apply list_lookup_insert_eq | reflexivity].
    + auto.
    + intros j v Hv. destruct (decide (j = i)) as [-> | Hne].
      * exists u1. rewrite list_lookup_insert_eq by assumption.
        assert (v = u) as -> by congruence.
        split; [reflexivity|]. repeat split; try reflexivity. congruence.
      * exists v. rewrite list_lookup_insert_ne by congruence. repeat split; auto.
    + intros _ env index target dims previewScale k.
      apply render_reads; cbn [with_screenshots screenshots].
      * intros v Hv. destruct (decide (index = i)) as [-> | Hne].
        -- exists u1. rewrite list_lookup_insert_eq by assumption.
           assert (v = u) as -> by congruence. repeat split; reflexivity.
        -- exists v. rewrite list_lookup_insert_ne by congruence. repeat split; auto.
      * intros Hnone. destruct (decide (index = i)) as [-> | Hne]; [congruence|].
        now rewrite list_lookup_insert_ne by congruence.
  - apply bool_decide_eq_false in Hin.
    rewrite addProjectLanguage_units.
    cbn [with_screenshots screenshots projectLanguages].
    split; [|split; [|split]].
    + destruct (negb (Str.truthy lang) || bool_decide (lang ∈ projectLanguages st)).
      * exists u1. split; [now apply list_lookup_insert_eq | reflexivity].
      * exists (addToScreenshot lang u1).
        rewrite list_lookup_fmap, list_lookup_insert_eq by assumption.
        split; [reflexivity|]. now rewrite addToScreenshot_localizedImages.
    + intros Ht. rewrite (addProjectLanguage_fresh _ _ Ht Hin).
      cbn [projectLanguages]. apply elem_of_app. right. left.
    + intros j v Hv.
      assert (Hj : exists w, <[i := u1]> (screenshots st) !! j = Some w
                     /\ image w = image v /\ background w = background v
                     /\ screenshot w = screenshot v
                     /\ (j <> i -> localizedImages w = localizedImages v)).
      { destruct (decide (j = i)) as [-> | Hne].
        - exists u1. rewrite list_lookup_insert_eq by assumption.
          assert (v = u) as -> by congruence.
          split; [reflexivity|]. repeat split; try reflexivity. congruence.
        - exists v. rewrite list_lookup_insert_ne by congruence. repeat split; auto. }
      destruct Hj as (w & Hw & H1 & H2 & H3 & H4).
      destruct (negb (Str.truthy lang) || bool_decide (lang ∈ projectLanguages st)).
      * exists w. repeat split; assumption.
      * exists (addToScreenshot lang w). rewrite list_lookup_fmap, Hw.
        destruct (addToScreenshot_props lang w) as (G1 & G2 & G3 & G4 & _).
        cbv zeta in G1, G2, G3, G4.
        split; [reflexivity|]. rewrite G1, G2, G3, G4. repeat split; assumption.
    + intros Hin'. contradiction.
Qed.

(** X9: removing the image that was just stored.  When the unit had no image
    for the language, and the language code is not [__proto__] (under which
    nothing is stored), storing one and removing it again gives the state
    back, except that a language which was not enabled stays enabled: the
    result is the state after [addProjectLanguage].  Removing an image that
    is not there, or from a unit that is not there, changes nothing. *)
Theorem removeLocalizedImage_undoes_add st i lang img src name u :
  screenshots st !! i = Some u ->
  localizedImages u !! lang = None ->
  lang <> "__proto__" ->
  (exists st',
      addLocalizedImage st i lang img src name = Some st'
      /\ removeLocalizedImage st' i lang
         = (if bool_decide (lang ∈ projectLanguages st) then st
            else addProjectLanguage st lang))
  /\ removeLocalizedImage st i lang = st
  /\ removeLocalizedImage st (length (screenshots st)) lang = st.
Proof.
  intros Hu Hnone Hproto.
  pose proof (lookup_lt_Some _ _ _ Hu) as Hlt.
  split; [|split].
  2:{ unfold removeLocalizedImage. now rewrite Hu, Hnone. }
  2:{ unfold removeLocalizedImage. rewrite lookup_ge_None_2 by lia. reflexivity. }
  pose proof (addLocalizedImage_stored st i lang img src name u Hu Hproto) as Hst.
  cbv zeta in Hst.
  set (li := {| li_image := Some img; li_src := src; li_name := name |}) in *.
  set (u1 := with_localizedImages u (<[lang := li]> (localizedImages u))) in *.
  eexists. split; [exact Hst|]. clear Hst.
  assert (Hback : with_localizedImages u1 (delete lang (localizedImages u1)) = u).
  { subst u1. cbn [localizedImages with_localizedImages].
    rewrite delete_insert_id by assumption. now destruct u. }
  destruct (bool_decide (lang ∈ projectLanguages st)) eqn:Hin.
  - unfold removeLocalizedImage. cbn [with_screenshots screenshots].
    rewrite list_lookup_insert_eq by assumption.
    assert (Hl : localizedImages u1 !! lang = Some li) by apply lookup_insert_eq.
    rewrite Hl, Hback.
    cbn [selectedIndex currentLanguage projectLanguages defaults].
    rewrite list_insert_insert_eq, (list_insert_id _ _ _ Hu). now destruct st.
  - rewrite addProjectLanguage_units.
    destruct (negb (Str.truthy lang) || bool_decide (lang ∈ projectLanguages st)) eqn:Hg.
    + assert (Hadd : addProjectLanguage st lang = st)
        by (unfold addProjectLanguage; now rewrite Hg).
      rewrite Hadd.
      unfold removeLocalizedImage. cbn [with_screenshots screenshots].
      rewrite list_lookup_insert_eq by assumption.
      assert (Hl : localizedImages u1 !! lang = Some li) by apply lookup_insert_eq.
      rewrite Hl, Hback.
      cbn [selectedIndex currentLanguage projectLanguages defaults].
      rewrite list_insert_insert_eq, (list_insert_id _ _ _ Hu). now destruct st.
    + assert (Hadd : addProjectLanguage st lang
                     = {| screenshots := addToScreenshot lang <$> screenshots st;
                          selectedIndex := selectedIndex st;
                          currentLanguage := currentLanguage st;
                          projectLanguages := projectLanguages st ++ [lang];
                          defaults := addToDefaults lang (defaults st) |})
        by (unfold addProjectLanguage; now rewrite Hg).
      rewrite Hadd.
      unfold removeLocalizedImage. cbn [with_screenshots screenshots].
      rewrite list_lookup_fmap, list_lookup_insert_eq by assumption.
      cbn [fmap option_fmap option_map].
      rewrite addToScreenshot_localizedImages.
      assert (Hl : localizedImages u1 !! lang = Some li) by apply lookup_insert_eq.
      rewrite Hl.
      cbn [selectedIndex currentLanguage projectLanguages defaults].
      f_equal.
      assert (Hu1 : with_localizedImages (addToScreenshot lang u1)
                      (delete lang (localizedImages u1))
                    = addToScreenshot lang u).
      { rewrite <- addToScreenshot_localized.
        transitivity (addToScreenshot lang
                        (with_localizedImages u1 (delete lang (localizedImages u1)))).
        - now destruct u.
        - now rewrite Hback. }
      rewrite Hu1.
      rewrite list_fmap_insert, list_insert_insert_eq.
      rewrite <- (list_fmap_insert (addToScreenshot lang) (screenshots st) i u).
      now rewrite (list_insert_id _ _ _ Hu).
Qed.

End LocalizedFacts.

(** ** The languages of one unit *)

Section TextLanguageFacts.

Import Model Project Languages.

Lemma with_text_twice u t t' : with_text (with_text u t) t' = with_text u t'.
Proof. reflexivity. Qed.

Lemma getCurrentScreenshot_onTextSettings f st :
  getCurrentScreenshot (onTextSettings f st)
  = (fun u => with_text u (f (text u))) <$> getCurrentScreenshot st.
Proof.
  unfold onTextSettings.
  destruct (getCurrentScreenshot st) as [u|] eqn:E.
  - unfold getCurrentScreenshot in *.
    cbn [with_screenshots screenshots selectedIndex]. rewrite length_insert.
    destruct (length (screenshots st) =? 0)%nat; [discriminate|].
    cbn. apply list_lookup_insert_eq. eapply lookup_lt_Some. exact E.
  - unfold getCurrentScreenshot in *. cbn [screenshots selectedIndex].
    now rewrite E.
Qed.

Lemma getText_onTextSettings f st :
  getText (onTextSettings f st) = f (getText st).
Proof.
  unfold getText. rewrite getCurrentScreenshot_onTextSettings.
  destruct (getCurrentScreenshot st) as [u|] eqn:E; cbn; [reflexivity|].
  unfold onTextSettings. now rewrite E.
Qed.

Lemma onTextSettings_twice f g st :
  onTextSettings g (onTextSettings f st) = onTextSettings (fun t => g (f t)) st.
Proof.
  unfold onTextSettings at 1. rewrite getCurrentScreenshot_onTextSettings.
  unfold onTextSettings.
  destruct (getCurrentScreenshot st) as [u|]; cbn [fmap option_fmap option_map].
  - cbn [with_screenshots screenshots selectedIndex currentLanguage
         projectLanguages defaults text with_text].
    now rewrite list_insert_insert_eq.
  - reflexivity.
Qed.

Lemma onTextSettings_same f g st :
  f (getText st) = g (getText st) -> onTextSettings f st = onTextSettings g st.
Proof.
  unfold getText, onTextSettings.
  destruct (getCurrentScreenshot st) as [u|]; now intros ->.
Qed.

Lemma onTextSettings_id f st : f (getText st) = getText st -> onTextSettings f st = st.
Proof.
  unfold getText, onTextSettings.
  destruct (getCurrentScreenshot st) as [u|] eqn:E; intros H; rewrite H.
  - unfold getCurrentScreenshot in E.
    destruct (length (screenshots st) =? 0)%nat; [discriminate|].
    rewrite with_text_id, (list_insert_id _ _ _ E). now destruct st.
  - destruct st as [us sel cur langs [b s t]]. reflexivity.
Qed.

(** X10: the headline languages of the selected unit (of the defaults when
    no unit is selected).  English cannot be removed, an unlisted language
    neither, and a listed one is not added again.  Removing a listed
    language other than English from a list without repetition takes it from
    the list, deletes its headline, and shows English in its place if it was
    the language shown; the subheadline is left alone.  Adding an unlisted
    language appends it, assigns the empty string as its headline -- which
    stores the empty string under every code but [__proto__], and nothing
    under that one -- and shows it.  Adding a language that had no headline
    and removing it again leaves the state as it was, but showing
    English. *)
Theorem removeHeadlineLanguage_falls_back_to_english st lang :
  removeHeadlineLanguage st "en" = st
  /\ (lang ∉ headlineLanguages (getText st) -> removeHeadlineLanguage st lang = st)
  /\ (lang ∈ headlineLanguages (getText st) -> addHeadlineLanguage st lang = st)
  /\ (lang <> "en" -> lang ∈ headlineLanguages (getText st) ->
      NoDup (headlineLanguages (getText st)) ->
      let t := getText st in
      let t' := getText (removeHeadlineLanguage st lang) in
      (lang ∉ headlineLanguages t')
      /\ (forall l, l ∈ headlineLanguages t -> l <> lang -> l ∈ headlineLanguages t')
      /\ headlines t' = delete lang (headlines t)
      /\ currentHeadlineLang t'
         = (if decide (currentHeadlineLang t = Some lang) then Some "en"
            else currentHeadlineLang t)
      /\ subheadlines t' = subheadlines t
      /\ subheadlineLanguages t' = subheadlineLanguages t
      /\ currentSubheadlineLang t' = currentSubheadlineLang t)
  /\ (lang ∉ headlineLanguages (getText st) ->
      let t := getText st in
      let t' := getText (addHeadlineLanguage st lang) in
      headlineLanguages t' = headlineLanguages t ++ [lang]
      /\ headlines t' = Proto.assign lang EmptyString (headlines t)
      /\ (lang <> "__proto__" ->
          headlines t' = <[lang := EmptyString]> (headlines t))
      /\ (lang = "__proto__" -> headlines t !! lang = None ->
          headlines t' = headlines t)
      /\ currentHeadlineLang t' = Some lang)
  /\ (lang <> "en" -> lang ∉ headlineLanguages (getText st) ->
      headlines (getText st) !! lang = None ->
      removeHeadlineLanguage (addHeadlineLanguage st lang) lang
      = switchHeadlineLanguage (Some "en") st).
Proof.
  split; [reflexivity|]. split; [|split; [|split; [|split]]].
  - intros Hnin. unfold removeHeadlineLanguage. cbv zeta.
    rewrite (indexOf_not_elem_of _ _ Hnin). now destruct (String.eqb lang "en").
  - intros Hin. unfold addHeadlineLanguage. cbv zeta.
    now rewrite bool_decide_eq_true_2.
  - intros Hen Hin Hnd. cbv zeta. unfold removeHeadlineLanguage. cbv zeta.
    rewrite (proj2 (String.eqb_neq _ _) Hen).
    destruct (indexOf_elem_of _ _ Hin) as [i Hi]. rewrite Hi.
    unfold switchHeadlineLanguage.
    rewrite !getText_onTextSettings.
    cbn [with_languages headlines headlineLanguages currentHeadlineLang
         subheadlines subheadlineLanguages currentSubheadlineLang].
    apply indexOf_Some in Hi.
    split; [now apply not_elem_of_delete_NoDup|].
    split; [intros l Hl Hne; eapply elem_of_delete_other; eauto|].
    repeat (split; [reflexivity|]). reflexivity.
  - intros Hnin. cbv zeta. unfold addHeadlineLanguage. cbv zeta.
    rewrite bool_decide_eq_false_2 by assumption.
    unfold switchHeadlineLanguage. rewrite !getText_onTextSettings.
    cbn [with_languages headlines headlineLanguages currentHeadlineLang].
    split; [reflexivity|]. split; [reflexivity|].
    split; [intros Hne; now apply assign_insert|].
    split; [intros -> Hnone; now apply assign_proto | reflexivity].
  - intros Hen Hnin Hnone.
    assert (Hadd : addHeadlineLanguage st lang
                   = onTextSettings (fun t =>
                       with_languages t
                         (Proto.assign lang EmptyString (headlines t))
                         (headlineLanguages t ++ [lang]) (Some lang)
                         (subheadlines t) (subheadlineLanguages t)
                         (currentSubheadlineLang t)) st).
    { unfold addHeadlineLanguage. cbv zeta.
      rewrite bool_decide_eq_false_2 by assumption.
      unfold switchHeadlineLanguage. now rewrite onTextSettings_twice. }
    rewrite Hadd. unfold removeHeadlineLanguage. cbv zeta.
    rewrite (proj2 (String.eqb_neq _ _) Hen), getText_onTextSettings.
    cbn [with_languages headlineLanguages].
    rewrite (indexOf_app_fresh _ _ Hnin).
    unfold switchHeadlineLanguage.
    rewrite getText_onTextSettings, !onTextSettings_twice.
    apply onTextSettings_same. rewrite getText_onTextSettings.
    cbn [with_languages headlines headlineLanguages currentHeadlineLang
         subheadlines subheadlineLanguages currentSubheadlineLang].
    rewrite decide_True by reflexivity.
    rewrite delete_last, delete_assign by assumption. reflexivity.
Qed.

End TextLanguageFacts.

(** ** The unit list *)

Section UnitListFacts.

Import Model Project Units.

Lemma spliceIn_lookup {A} (i : nat) (x : A) l j :
  (i <= length l)%nat ->
  spliceIn i x l !! j
  = if (j <? i)%nat then l !! j
    else if (j =? i)%nat then Some x else l !! (j - 1)%nat.
Proof.
  intros Hi. unfold spliceIn.
  destruct (j <? i)%nat eqn:Eji.
  - apply Nat.ltb_lt in Eji.
    rewrite lookup_app_l by (rewrite length_take; lia).
    now rewrite lookup_take_lt.
  - apply Nat.ltb_ge in Eji.
    rewrite lookup_app_r by (rewrite length_take; lia).
    rewrite length_take, Nat.min_l by lia.
    destruct (j =? i)%nat eqn:E.
    + apply Nat.eqb_eq in E as ->. now rewrite Nat.sub_diag.
    + apply Nat.eqb_neq in E.
      replace (j - i)%nat with (S (j - i - 1)) by lia.
      change ((x :: drop i l) !! S (j - i - 1)) with (drop i l !! (j - i - 1)%nat).
      rewrite lookup_drop. f_equal. lia.
Qed.

Lemma delete_lookup {A} (d : nat) (l : list A) j :
  delete d l !! j = if (j <? d)%nat then l !! j else l !! S j.
Proof.
  destruct (j <? d)%nat eqn:E.
  - apply Nat.ltb_lt in E. now apply list_lookup_delete_lt.
  - apply Nat.ltb_ge in E. now apply list_lookup_delete_ge.
Qed.

Lemma spliceIn_delete_Permutation {A} (d t : nat) (x : A) l :
  l !! d = Some x -> spliceIn t x (delete d l) ≡ₚ l.
Proof.
  intros Hd. unfold spliceIn.
  rewrite <- Permutation_middle, take_drop.
  now rewrite <- delete_Permutation.
Qed.

Lemma delete_spliceIn {A} (t : nat) (x : A) l :
  (t <= length l)%nat -> delete t (spliceIn t x l) = l.
Proof.
  intros Ht. unfold spliceIn.
  rewrite delete_take_drop.
  rewrite take_app_le by (rewrite length_take; lia).
  rewrite take_take, Nat.min_id.
  rewrite drop_app_ge by (rewrite length_take; lia).
  rewrite length_take, Nat.min_l by lia.
  replace (S t - t)%nat with 1%nat by lia. cbn. rewrite drop_0.
  apply take_drop.
Qed.

Lemma dropTarget_bound dragged index dropAbove n :
  (dragged < n)%nat -> (index < n)%nat -> dragged <> index ->
  (dropTarget dragged index dropAbove <= n - 1)%nat.
Proof.
  intros Hd Hi Hne. unfold dropTarget.
  destruct dropAbove; cbv zeta;
    destruct (Nat.ltb_spec dragged index);
    repeat match goal with
           | |- context [(?a <? ?b)%nat] => destruct (Nat.ltb_spec a b)
           end; lia.
Qed.

(** X11: dragging a unit to another place in the list.  The list afterwards
    holds the same units, the dragged unit stands at the target index, the
    other units keep their order, and the unit that was selected is still
    the selected one. *)
Theorem dropOn_keeps_selection st dragged index dropAbove x :
  screenshots st !! dragged = Some x ->
  (index < length (screenshots st))%nat ->
  dragged <> index ->
  exists st',
    dropOn st (Some dragged) index dropAbove = Some st'
    /\ screenshots st' ≡ₚ screenshots st
    /\ screenshots st' !! dropTarget dragged index dropAbove = Some x
    /\ delete (dropTarget dragged index dropAbove) (screenshots st')
       = delete dragged (screenshots st)
    /\ screenshots st' !! selectedIndex st' = screenshots st !! selectedIndex st
    /\ currentLanguage st' = currentLanguage st
    /\ projectLanguages st' = projectLanguages st
    /\ defaults st' = defaults st.
Proof.
  intros Hx Hindex Hne.
  pose proof (lookup_lt_Some _ _ _ Hx) as Hd.
  pose proof (dropTarget_bound dragged index dropAbove _ Hd Hindex Hne) as Ht.
  set (t := dropTarget dragged index dropAbove) in *.
  assert (Hlen : length (delete dragged (screenshots st))
                 = (length (screenshots st) - 1)%nat).
  { rewrite length_delete by eauto. reflexivity. }
  unfold dropOn. rewrite (proj2 (Nat.eqb_neq _ _) Hne), Hx. fold t.
  eexists. split; [reflexivity|].
  cbn [with_selection screenshots selectedIndex currentLanguage
       projectLanguages defaults].
  split; [now apply spliceIn_delete_Permutation|].
  split.
  { rewrite spliceIn_lookup by lia.
    now rewrite Nat.ltb_irrefl, Nat.eqb_refl. }
  split; [apply delete_spliceIn; lia|].
  split; [|auto].
  set (s := selectedIndex st).
  rewrite spliceIn_lookup by lia. rewrite !delete_lookup.
  destruct (Nat.eqb_spec s dragged) as [-> | Hsd].
  { now rewrite Nat.ltb_irrefl, Nat.eqb_refl. }
  destruct (Nat.ltb_spec dragged s), (Nat.leb_spec s t); cbn [andb].
  - destruct (Nat.ltb_spec (s - 1) t); [|lia].
    destruct (Nat.ltb_spec (s - 1) dragged); [lia|]. f_equal. lia.
  - destruct (Nat.ltb_spec s dragged); [lia|]. cbn [andb].
    destruct (Nat.ltb_spec s t); [lia|].
    destruct (Nat.eqb_spec s t); [lia|].
    destruct (Nat.ltb_spec (s - 1) dragged); [lia|]. f_equal. lia.
  - destruct (Nat.ltb_spec s dragged); [|lia]. cbn [andb].
    destruct (Nat.leb_spec t s).
    + destruct (Nat.ltb_spec (s + 1) t); [lia|].
      destruct (Nat.eqb_spec (s + 1) t); [lia|].
      replace (s + 1 - 1)%nat with s by lia.
      destruct (Nat.ltb_spec s dragged); [reflexivity | lia].
    + destruct (Nat.ltb_spec s t); [|lia].
      destruct (Nat.ltb_spec s dragged); [reflexivity | lia].
  - destruct (Nat.ltb_spec s dragged); [|lia]. cbn [andb].
    destruct (Nat.leb_spec t s); [|lia].
    destruct (Nat.ltb_spec (s + 1) t); [lia|].
    destruct (Nat.eqb_spec (s + 1) t); [lia|].
    replace (s + 1 - 1)%nat with s by lia.
    destruct (Nat.ltb_spec s dragged); [reflexivity | lia].
Qed.

(** X12: deleting a unit.  The other units keep their order.  When the
    selection was on a unit, it is on a unit afterwards unless the list is
    empty (the index is 0 then): on the same unit when a later unit was
    deleted, otherwise not on the unit it was on, but on the one that
    followed it, or on the last unit when there is none. *)
Theorem deleteAt_keeps_selection_valid st index :
  (selectedIndex st < length (screenshots st))%nat ->
  let st' := deleteAt st index in
  screenshots st' = delete index (screenshots st)
  /\ (screenshots st' = [] -> selectedIndex st' = 0%nat)
  /\ (screenshots st' <> [] ->
      (selectedIndex st' < length (screenshots st'))%nat)
  /\ ((selectedIndex st < index)%nat ->
      selectedIndex st' = selectedIndex st
      /\ screenshots st' !! selectedIndex st' = screenshots st !! selectedIndex st)
  /\ ((index <= selectedIndex st)%nat ->
      (S (selectedIndex st) < length (screenshots st))%nat ->
      selectedIndex st' = selectedIndex st
      /\ screenshots st' !! selectedIndex st'
         = screenshots st !! S (selectedIndex st))
  /\ ((index <= selectedIndex st)%nat ->
      S (selectedIndex st) = length (screenshots st) ->
      selectedIndex st' = (length (screenshots st) - 2)%nat).
Proof.
  intros Hsel. cbv zeta. unfold deleteAt.
  cbn [with_selection screenshots selectedIndex].
  set (s := selectedIndex st) in *.
  set (l := screenshots st) in *.
  assert (Hlen : length (delete index l)
                 = if (index <? length l)%nat then (length l - 1)%nat else length l).
  { destruct (Nat.ltb_spec index (length l)) as [Hlt | Hge].
    - apply lookup_lt_is_Some in Hlt. now rewrite length_delete.
    - clear -Hge. revert index Hge. induction l as [|a l IH]; intros [|i] H; cbn in *;
        try reflexivity; try lia. f_equal. apply IH. lia. }
  split; [reflexivity|].
  split.
  { intros Hnil. rewrite Hnil. cbn. reflexivity. }
  split.
  { intros Hne. destruct (delete index l) as [|a l'] eqn:E; [congruence|].
    cbn [length] in *.
    destruct (Nat.leb_spec (S (length l')) s); lia. }
  rewrite Hlen.
  split; [|split].
  - intros Hlt. destruct (Nat.ltb_spec index (length l));
      destruct (Nat.leb_spec (length l - 1) s);
      destruct (Nat.leb_spec (length l) s); try lia;
      (split; [reflexivity|]; rewrite delete_lookup;
       destruct (Nat.ltb_spec s index); [reflexivity | lia]).
  - intros Hle Hnext.
    destruct (Nat.ltb_spec index (length l)); [|lia].
    destruct (Nat.leb_spec (length l - 1) s); [lia|].
    split; [reflexivity|]. rewrite delete_lookup.
    destruct (Nat.ltb_spec s index); [lia | reflexivity].
  - intros Hle Hlast.
    destruct (Nat.ltb_spec index (length l)); [|lia].
    destruct (Nat.leb_spec (length l - 1) s); lia.
Qed.

(** X13: copying a style from one unit to another.  The target takes the
    background, the screenshot settings and the text settings of the
    source, language lists and shown languages included, but keeps its
    images and its headline and subheadline strings; the other units stay;
    transfer mode is left.  Copying a second time, or copying back from the
    target to the source, changes nothing more.  With a missing unit only
    transfer mode is left. *)
Theorem transferStyle_keeps_content st sourceIndex targetIndex :
  (transferStyle st sourceIndex targetIndex).2 = None
  /\ (screenshots st !! sourceIndex = None \/ screenshots st !! targetIndex = None ->
      (transferStyle st sourceIndex targetIndex).1 = st)
  /\ (forall source target,
        screenshots st !! sourceIndex = Some source ->
        screenshots st !! targetIndex = Some target ->
        let st' := (transferStyle st sourceIndex targetIndex).1 in
        (exists target',
            screenshots st' !! targetIndex = Some target'
            /\ image target' = image target
            /\ localizedImages target' = localizedImages target
            /\ headlines (text target') = headlines (text target)
            /\ subheadlines (text target') = subheadlines (text target)
            /\ background target' = background source
            /\ screenshot target' = screenshot source
            /\ with_languages (text target') (headlines (text source))
                 (headlineLanguages (text target'))
                 (currentHeadlineLang (text target'))
                 (subheadlines (text source))
                 (subheadlineLanguages (text target'))
                 (currentSubheadlineLang (text target'))
               = text source)
        /\ (forall j, j <> targetIndex ->
              screenshots st' !! j = screenshots st !! j)
        /\ selectedIndex st' = selectedIndex st
        /\ (transferStyle st' sourceIndex targetIndex).1 = st'
        /\ (transferStyle st' targetIndex sourceIndex).1 = st').
Proof.
  split; [|split].
  - unfold transferStyle.
    destruct (screenshots st !! sourceIndex), (screenshots st !! targetIndex);
      reflexivity.
  - intros [H | H]; unfold transferStyle; rewrite H;
      [|destruct (screenshots st !! sourceIndex)]; reflexivity.
  - intros source target Hs Ht. cbv zeta.
    pose proof (lookup_lt_Some _ _ _ Hs) as Hsl.
    pose proof (lookup_lt_Some _ _ _ Ht) as Htl.
    set (target' :=
           {| image := image target;
              localizedImages := localizedImages target;
              background := background source;
              screenshot := screenshot source;
              text :=
                with_languages (text source)
                  (headlines (text target)) (headlineLanguages (text source))
                  (currentHeadlineLang (text source))
                  (subheadlines (text target)) (subheadlineLanguages (text source))
                  (currentSubheadlineLang (text source)) |}).
    assert (Hst : (transferStyle st sourceIndex targetIndex).1
                  = with_screenshots st (<[targetIndex := target']> (screenshots st))).
    { unfold transferStyle. rewrite Hs, Ht. reflexivity. }
    rewrite Hst. cbn [with_screenshots screenshots selectedIndex].
    split.
    { exists target'. split; [now apply list_lookup_insert_eq|].
      subst target'. cbn [image localizedImages background Model.screenshot text
                          with_languages headlines subheadlines headlineLanguages
                          subheadlineLanguages currentHeadlineLang
                          currentSubheadlineLang].
      repeat (split; [reflexivity|]). now destruct (text source). }
    split.
    { intros j Hj. now rewrite list_lookup_insert_ne by congruence. }
    split; [reflexivity|].
    destruct (decide (sourceIndex = targetIndex)) as [-> | Hne].
    + assert (source = target) as -> by congruence.
      assert (Hsame : (transferStyle
                         (with_screenshots st (<[targetIndex := target']> (screenshots st)))
                         targetIndex targetIndex).1
                      = with_screenshots st (<[targetIndex := target']> (screenshots st))).
      { unfold transferStyle. cbn [with_screenshots screenshots].
        rewrite list_lookup_insert_eq by assumption.
        cbn [fst with_screenshots screenshots selectedIndex currentLanguage
             projectLanguages defaults].
        rewrite list_insert_insert_eq. reflexivity. }
      split; exact Hsame.
    + split.
      * unfold transferStyle. cbn [with_screenshots screenshots].
        rewrite list_lookup_insert_ne, Hs by congruence.
        rewrite list_lookup_insert_eq by assumption.
        cbn [fst with_screenshots screenshots selectedIndex currentLanguage
             projectLanguages defaults].
        rewrite list_insert_insert_eq. reflexivity.
      * unfold transferStyle. cbn [with_screenshots screenshots].
        rewrite list_lookup_insert_eq by assumption.
        rewrite list_lookup_insert_ne, Hs by congruence.
        cbn [fst with_screenshots screenshots selectedIndex currentLanguage
             projectLanguages defaults].
        f_equal. apply list_insert_id.
        rewrite list_lookup_insert_ne, Hs by congruence.
        f_equal. subst target'.
        cbn [image localizedImages background Model.screenshot text
             with_languages headlines subheadlines headlineLanguages
             subheadlineLanguages currentHeadlineLang currentSubheadlineLang].
        destruct source as [i m b s t]. destruct t. reflexivity.
Qed.

End UnitListFacts.

(** ** Position presets *)

Section PresetFacts.

Import Settings Presets.

Lemma lookup_assign_eq k v props : lookup_prop k (assign_prop k v props) = Some v.
Proof.
  induction props as [|[k' v'] props IH]; cbn.
  - now rewrite String.eqb_refl.
  - destruct (String.eqb k' k) eqn:E; cbn; [now rewrite String.eqb_refl|].
    now rewrite E.
Qed.

Lemma lookup_assign_ne k k' v props :
  k <> k' -> lookup_prop k' (assign_prop k v props) = lookup_prop k' props.
Proof.
  intros Hne. induction props as [|[k0 v0] props IH]; cbn.
  - now rewrite (proj2 (String.eqb_neq _ _) Hne).
  - destruct (String.eqb k0 k) eqn:E; cbn.
    + apply String.eqb_eq in E as ->.
      now rewrite (proj2 (String.eqb_neq _ _) Hne).
    + destruct (String.eqb k0 k'); [reflexivity | exact IH].
Qed.

Lemma assign_prop_same k v props :
  lookup_prop k props = Some v -> assign_prop k v props = props.
Proof.
  induction props as [|[k0 v0] props IH]; cbn; [discriminate|].
  destruct (String.eqb k0 k) eqn:E.
  - apply String.eqb_eq in E as ->. now intros [= ->].
  - intros H. now rewrite IH.
Qed.

Lemma getCurrentScreenshot_replace st u u' :
  getCurrentScreenshot st = Some u ->
  getCurrentScreenshot (replaceCurrent st u') = Some u'.
Proof.
  unfold getCurrentScreenshot, replaceCurrent. cbn [screenshots selectedIndex].
  rewrite length_insert.
  destruct (length (screenshots st) =? 0)%nat; [discriminate|].
  intros H. apply list_lookup_insert_eq. eapply lookup_lt_Some. exact H.
Qed.

Lemma replaceCurrent_twice st u u' :
  replaceCurrent (replaceCurrent st u) u' = replaceCurrent st u'.
Proof.
  unfold replaceCurrent. cbn [screenshots selectedIndex].
  now rewrite list_insert_insert_eq.
Qed.

Lemma replaceCurrent_same st u :
  getCurrentScreenshot st = Some u -> replaceCurrent st u = st.
Proof.
  unfold getCurrentScreenshot, replaceCurrent.
  destruct (length (screenshots st) =? 0)%nat; [discriminate|].
  intros H. rewrite (list_insert_id _ _ _ H). now destruct st.
Qed.

(** A key without a dot, set on settings that are an object. *)
Lemma setScreenshotSetting_plain st u props key value :
  getCurrentScreenshot st = Some u ->
  screenshot u = JObj props ->
  Str.includes "." key = false ->
  setScreenshotSetting st key value
  = Ok (replaceCurrent st {| background := background u;
                             screenshot := JObj (assign_prop key value props) |}).
Proof.
  intros Hu Hs Hk. unfold setScreenshotSetting, assignKey.
  rewrite Hu, Hk, Hs. reflexivity.
Qed.

Local Abbreviation assigned a b c d e props :=
  (assign_prop "perspective" e
     (assign_prop "rotation" d
        (assign_prop "y" c
           (assign_prop "x" b
              (assign_prop "scale" a props))))).

Lemma setFive_object st u props a b c d e :
  getCurrentScreenshot st = Some u ->
  screenshot u = JObj props ->
  setFive st a b c d e
  = Ok (replaceCurrent st {| background := background u;
                             screenshot := JObj (assigned a b c d e props) |}).
Proof.
  intros Hu Hs. unfold setFive.
  rewrite (setScreenshotSetting_plain st u props) by (assumption || reflexivity).
  cbn [andThen].
  pose proof (getCurrentScreenshot_replace st u
                {| background := background u;
                   screenshot := JObj (assign_prop "scale" a props) |}
                Hu) as H1.
  rewrite (setScreenshotSetting_plain _ _ _ "x" _ H1 eq_refl eq_refl).
  cbn [andThen background]. rewrite replaceCurrent_twice.
  pose proof (getCurrentScreenshot_replace st u
                {| background := background u;
                   screenshot :=
                     JObj (assign_prop "x" b (assign_prop "scale" a props)) |}
                Hu) as H2.
  rewrite (setScreenshotSetting_plain _ _ _ "y" _ H2 eq_refl eq_refl).
  cbn [andThen background]. rewrite replaceCurrent_twice.
  pose proof (getCurrentScreenshot_replace st u
                {| background := background u;
                   screenshot :=
                     JObj (assign_prop "y" c
                             (assign_prop "x" b (assign_prop "scale" a props))) |}
                Hu) as H3.
  rewrite (setScreenshotSetting_plain _ _ _ "rotation" _ H3 eq_refl eq_refl).
  cbn [andThen background]. rewrite replaceCurrent_twice.
  pose proof (getCurrentScreenshot_replace st u
                {| background := background u;
                   screenshot :=
                     JObj (assign_prop "rotation" d
                             (assign_prop "y" c
                                (assign_prop "x" b
                                   (assign_prop "scale" a props)))) |}
                Hu) as H4.
  rewrite (setScreenshotSetting_plain _ _ _ "perspective" _ H4 eq_refl eq_refl).
  cbn [background]. now rewrite replaceCurrent_twice.
Qed.

Lemma setFive_nothing st a b c d e :
  getCurrentScreenshot st = None -> setFive st a b c d e = Ok st.
Proof.
  intros Hu. unfold setFive, setScreenshotSetting.
  now repeat (rewrite Hu; cbn [andThen]).
Qed.

Lemma assigned_lookup a b c d e props :
  lookup_prop "scale" (assigned a b c d e props) = Some a
  /\ lookup_prop "x" (assigned a b c d e props) = Some b
  /\ lookup_prop "y" (assigned a b c d e props) = Some c
  /\ lookup_prop "rotation" (assigned a b c d e props) = Some d
  /\ lookup_prop "perspective" (assigned a b c d e props) = Some e
  /\ (forall k, k ∉ ["scale"; "x"; "y"; "rotation"; "perspective"] ->
        lookup_prop k (assigned a b c d e props) = lookup_prop k props).
Proof.
  split; [|split; [|split; [|split; [|split]]]].
  - rewrite !lookup_assign_ne by discriminate. apply lookup_assign_eq.
  - rewrite !lookup_assign_ne by discriminate. apply lookup_assign_eq.
  - rewrite !lookup_assign_ne by discriminate. apply lookup_assign_eq.
  - rewrite !lookup_assign_ne by discriminate. apply lookup_assign_eq.
  - apply lookup_assign_eq.
  - intros k Hk. rewrite !lookup_assign_ne; [reflexivity|..];
      intros <-; apply Hk; set_solver.
Qed.

Lemma assigned_again a b c d e props :
  assigned a b c d e (assigned a b c d e props) = assigned a b c d e props.
Proof.
  destruct (assigned_lookup a b c d e props) as (H1 & H2 & H3 & H4 & H5 & _).
  rewrite (assign_prop_same "scale" _ _ H1), (assign_prop_same "x" _ _ H2),
    (assign_prop_same "y" _ _ H3), (assign_prop_same "rotation" _ _ H4).
  exact (assign_prop_same "perspective" _ _ H5).
Qed.

(** X14: applying a position preset.  A name that is neither in the table
    nor inherited by it changes nothing.  Otherwise the preset returns
    normally exactly when the control updates and the repaint at its end
    do, in the state the setters leave.  Without an active unit that state
    is the old one.  On an active unit whose screenshot settings are an
    object the five setter calls succeed, and in the state they leave scale,
    x, y, rotation and perspective read back as the preset has them, every
    other setting of the unit, its background and the other units are as
    before, and applying the same preset again leaves the same state.  A
    name the table inherits, such as 'constructor', is taken for a preset:
    it sets the five settings to [undefined]. *)
Theorem applyPositionPreset_sets_five pageCalls st preset :
  let finish st' := if pageCalls st' : bool then Ok st' else TypeError in
  (presets preset = None -> Proto.inherited preset = false ->
   applyPositionPreset pageCalls st preset = Ok st)
  /\ (getCurrentScreenshot st = None ->
      presets preset <> None \/ Proto.inherited preset = true ->
      applyPositionPreset pageCalls st preset = finish st)
  /\ (forall p u props,
        presets preset = Some p ->
        getCurrentScreenshot st = Some u ->
        screenshot u = JObj props ->
        exists props',
          let st' :=
            {| screenshots :=
                 <[selectedIndex st := {| background := background u;
                                          screenshot := JObj props' |}]>
                   (screenshots st);
               selectedIndex := selectedIndex st |} in
          applyPositionPreset pageCalls st preset = finish st'
          /\ lookup_prop "scale" props' = Some (JNum (p_scale p))
          /\ lookup_prop "x" props' = Some (JNum (p_x p))
          /\ lookup_prop "y" props' = Some (JNum (p_y p))
          /\ lookup_prop "rotation" props' = Some (JNum (p_rotation p))
          /\ lookup_prop "perspective" props' = Some (JNum (p_perspective p))
          /\ (forall k, k ∉ ["scale"; "x"; "y"; "rotation"; "perspective"] ->
                lookup_prop k props' = lookup_prop k props)
          /\ applyPositionPreset pageCalls st' preset = finish st')
  /\ (forall u props,
        Proto.inherited preset = true ->
        getCurrentScreenshot st = Some u ->
        screenshot u = JObj props ->
        exists props',
          applyPositionPreset pageCalls st preset
          = finish {| screenshots :=
                        <[selectedIndex st := {| background := background u;
                                                 screenshot := JObj props' |}]>
                          (screenshots st);
                      selectedIndex := selectedIndex st |}
          /\ lookup_prop "scale" props' = Some JUndefined
          /\ lookup_prop "x" props' = Some JUndefined
          /\ lookup_prop "y" props' = Some JUndefined
          /\ lookup_prop "rotation" props' = Some JUndefined
          /\ lookup_prop "perspective" props' = Some JUndefined).
Proof.
  cbv zeta. split; [|split; [|split]].
  - intros Hp Hi. unfold applyPositionPreset. now rewrite Hp, Hi.
  - intros Hu Hknown. unfold applyPositionPreset.
    destruct (presets preset) as [p|].
    { now rewrite (setFive_nothing _ _ _ _ _ _ Hu). }
    destruct Hknown as [Hp | ->]; [congruence|].
    now rewrite (setFive_nothing _ _ _ _ _ _ Hu).
  - intros p u props Hp Hu Hs.
    set (a := JNum (p_scale p)). set (b := JNum (p_x p)). set (c := JNum (p_y p)).
    set (d := JNum (p_rotation p)). set (e := JNum (p_perspective p)).
    exists (assigned a b c d e props).
    destruct (assigned_lookup a b c d e props) as (H1 & H2 & H3 & H4 & H5 & H6).
    assert (E : forall st',
               applyPositionPreset pageCalls st' preset
               = andThen (setFive st' a b c d e)
                   (fun st' => if pageCalls st' then Ok st' else TypeError))
      by (intros st'; unfold applyPositionPreset; now rewrite Hp).
    rewrite !E.
    split.
    { now rewrite (setFive_object st u props a b c d e Hu Hs). }
    do 6 (split; [assumption|]).
    pose proof (getCurrentScreenshot_replace st u
                  {| background := background u;
                     screenshot := JObj (assigned a b c d e props) |} Hu) as Hu'.
    change (andThen
              (setFive
                 (replaceCurrent st
                    {| background := background u;
                       screenshot := JObj (assigned a b c d e props) |})
                 a b c d e)
              (fun st' => if pageCalls st' then Ok st' else TypeError)
            = (if pageCalls
                    (replaceCurrent st
                       {| background := background u;
                          screenshot := JObj (assigned a b c d e props) |})
               then Ok (replaceCurrent st
                          {| background := background u;
                             screenshot := JObj (assigned a b c d e props) |})
               else TypeError)).
    rewrite (setFive_object _ _ (assigned a b c d e props) a b c d e Hu' eq_refl).
    cbn [background andThen]. rewrite replaceCurrent_twice, assigned_again.
    reflexivity.
  - intros u props Hi Hu Hs.
    exists (assigned JUndefined JUndefined JUndefined JUndefined JUndefined props).
    destruct (assigned_lookup JUndefined JUndefined JUndefined JUndefined JUndefined
                props) as (H1 & H2 & H3 & H4 & H5 & _).
    split; [|now repeat split].
    unfold applyPositionPreset.
    assert (Hp : presets preset = None).
    { unfold Proto.inherited in Hi. apply bool_decide_eq_true_1 in Hi.
      unfold Proto.inheritedNames in Hi.
      repeat (apply elem_of_cons in Hi as [-> | Hi]; [reflexivity|]).
      now apply elem_of_nil in Hi. }
    rewrite Hp, Hi.
    now rewrite (setFive_object st u props _ _ _ _ _ Hu Hs).
Qed.

End PresetFacts.

(** ** Line wrapping, continued *)

Section WrapInvariants.

Import Model Canvas.
Local Open Scope R_scope.

Variable text_width : Font -> string -> R.

Import Wrap.

Lemma wrapText_fold font text maxWidth :
  Canvas.wrapText text_width font text maxWidth
  = finish (fold_left (Canvas.wrapStep text_width font maxWidth)
              (Str.split " " text) ([], EmptyString)).
Proof.
  unfold Canvas.wrapText, finish.
  now destruct (fold_left _ _ _) as [lines cur].
Qed.

Lemma split_not_nil sep s : Str.split sep s <> [].
Proof.
  destruct s as [|c s]; cbn; [discriminate|].
  destruct (Ascii.eqb c sep); [discriminate|].
  destruct (Str.split sep s); discriminate.
Qed.

Lemma join_cons sep w ws :
  ws <> [] -> Str.join sep (w :: ws) = w +:+ sep +:+ Str.join sep ws.
Proof. destruct ws; [congruence | reflexivity]. Qed.

(** Joining what [split] made gives the text back. *)
Lemma join_split text : Str.join " " (Str.split " " text) = text.
Proof.
  induction text as [|c text IH]; [reflexivity|].
  cbn [Str.split]. destruct (Ascii.eqb_spec c " ") as [-> | Hc].
  - rewrite join_cons by apply split_not_nil. now rewrite IH.
  - pose proof (split_not_nil " " text) as Hne.
    destruct (Str.split " " text) as [|w ws]; [congruence|].
    destruct ws as [|w' ws].
    + cbn in *. now rewrite IH.
    + rewrite join_cons in * by discriminate.
      rewrite append_cons. now rewrite IH.
Qed.

Lemma join_merge l a b r :
  Str.join " " (l ++ (a +:+ " " +:+ b) :: r) = Str.join " " (l ++ a :: b :: r).
Proof.
  induction l as [|x l IH].
  - cbn [app]. destruct r as [|c r]; [reflexivity|].
    rewrite !join_cons by discriminate. now rewrite !append_assoc.
  - cbn [app]. rewrite !join_cons by (destruct l; discriminate). now rewrite IH.
Qed.

Lemma wrapStep_start font maxWidth lines word :
  Canvas.wrapStep text_width font maxWidth (lines, EmptyString) word = (lines, word).
Proof. unfold Canvas.wrapStep. cbn [Str.truthy]. now rewrite andb_false_r. Qed.

Lemma wrapStep_cases font maxWidth lines cur word :
  Str.truthy cur = true ->
  (text_width font (cur +:+ " " +:+ word) > maxWidth
   /\ Canvas.wrapStep text_width font maxWidth (lines, cur) word
      = (lines ++ [cur], word))
  \/ (text_width font (cur +:+ " " +:+ word) <= maxWidth
      /\ Canvas.wrapStep text_width font maxWidth (lines, cur) word
         = (lines, cur +:+ " " +:+ word)).
Proof.
  intros Hcur. unfold Canvas.wrapStep. rewrite Hcur, andb_true_r. unfold Rgtb.
  destruct (Rgt_dec _ _) as [Hgt | Hle]; [left | right]; split; (reflexivity || lra).
Qed.

(** The lines the wrap produces from words of [all] are not empty, and each
    is no wider than the wrap width or one of the words. *)
Lemma wrapStep_fitting font maxWidth (all : list string) words lines cur :
  let fitting line :=
    Str.truthy line = true
    /\ (text_width font line <= maxWidth \/ line ∈ all) in
  (forall w, w ∈ words -> w ∈ all) ->
  Forall fitting lines ->
  (cur = EmptyString \/ fitting cur) ->
  Forall fitting
         (finish (fold_left (Canvas.wrapStep text_width font maxWidth) words
                            (lines, cur))).
Proof.
  intros fitting.
  revert lines cur. induction words as [|word rest IH]; intros lines cur Hin Hl Hc.
  - unfold finish. cbn [fold_left fst snd].
    destruct Hc as [-> | Hc]; [exact Hl|].
    rewrite (proj1 Hc). apply Forall_app. split; [assumption|].
    constructor; [exact Hc | constructor].
  - cbn [fold_left].
    assert (Hword : word ∈ all) by (apply Hin; left).
    assert (Hrest : forall w, w ∈ rest -> w ∈ all) by (intros w Hw; apply Hin; now right).
    assert (Hnew : word = EmptyString \/ fitting word).
    { destruct word; [now left | right]. split; [reflexivity | now right]. }
    destruct Hc as [-> | Hc].
    + rewrite wrapStep_start. now apply IH.
    + destruct (wrapStep_cases font maxWidth lines cur word (proj1 Hc))
        as [[Hgt ->] | [Hle ->]].
      * apply IH; [assumption | | assumption].
        apply Forall_app. split; [assumption|]. constructor; [exact Hc | constructor].
      * apply IH; [assumption | assumption |]. right. split.
        -- destruct Hc as [Ht _]. now destruct cur.
        -- now left.
Qed.

(** X15: for every text and wrap width, no line of the wrapped text is empty,
    and every line either measures no more than the wrap width or is a
    single word of the text, which is then wider than the wrap width. *)
Theorem wrapText_lines_fit_or_are_one_word font text maxWidth :
  Forall (fun line =>
            Str.truthy line = true
            /\ (text_width font line <= maxWidth
                \/ (line ∈ Str.split " " text /\ text_width font line > maxWidth)))
         (Canvas.wrapText text_width font text maxWidth).
Proof.
  rewrite wrapText_fold.
  eapply Forall_impl.
  - apply (wrapStep_fitting font maxWidth (Str.split " " text));
      [auto | constructor | now left].
  - cbn beta. intros line [Ht [Hfit | Hword]]; (split; [assumption|]); [now left|].
    destruct (Rle_dec (text_width font line) maxWidth); [now left | right].
    split; [assumption | lra].
Qed.

Lemma wrapStep_join font maxWidth words lines cur :
  Str.truthy cur = true ->
  Forall (fun w => Str.truthy w = true) words ->
  Str.join " " (finish (fold_left (Canvas.wrapStep text_width font maxWidth) words
                                  (lines, cur)))
  = Str.join " " (lines ++ cur :: words).
Proof.
  revert lines cur. induction words as [|word rest IH]; intros lines cur Hcur Hall.
  - unfold finish. cbn. now rewrite Hcur.
  - apply Forall_cons in Hall as [Hword Hrest]. cbn [fold_left].
    destruct (wrapStep_cases font maxWidth lines cur word Hcur)
      as [[_ ->] | [_ ->]].
    + rewrite IH by assumption. now rewrite <- app_assoc.
    + rewrite IH by (assumption || now destruct cur).
      apply join_merge.
Qed.

(** X16: wrapping loses no character.  When the words of a text are all
    non-empty -- it has no leading, trailing or double space -- joining the
    lines of the wrapped text with single spaces gives the text back; the
    empty text wraps to no line. *)
Theorem wrapText_keeps_text font text maxWidth :
  Forall (fun w => Str.truthy w = true) (Str.split " " text) ->
  Str.join " " (Canvas.wrapText text_width font text maxWidth) = text
  /\ Canvas.wrapText text_width font EmptyString maxWidth = [].
Proof.
  intros Hall. split.
  2:{ rewrite wrapText_fold. cbn [Str.split fold_left]. now rewrite wrapStep_start. }
  rewrite wrapText_fold.
  rewrite <- (join_split text) at 2.
  destruct (Str.split " " text) as [|w rest]; [reflexivity|].
  apply Forall_cons in Hall as [Hw Hrest].
  cbn [fold_left]. rewrite wrapStep_start.
  now rewrite wrapStep_join.
Qed.

End WrapInvariants.

(** ** The main canvas *)

Section MainNoise.

Import Model Canvas.
Local Open Scope R_scope.

Variable getImageData : Surface -> R -> R -> R -> R -> list Z.
Variable getMainImageData : Preview.MainCanvas -> R -> R -> R -> R -> list Z.
Variable random : nat -> R.

Lemma clamp_either_way x : Rmin 255 (Rmax 0 x) = Rmax 0 (Rmin 255 x).
Proof. unfold Rmin, Rmax. repeat destruct (Rle_dec _ _); lra. Qed.

Lemma main_addNoise data j n : Preview.addNoise data j n = Canvas.addNoise data j n.
Proof.
  unfold Preview.addNoise, Canvas.addNoise.
  destruct (data !! j); [|reflexivity]. now rewrite clamp_either_way.
Qed.

(** The loop of [drawNoise] at the intensity [i] is the loop of
    [drawNoiseToContext] at the intensity [i * 50/255]. *)
Lemma main_noiseLoop fuel intensity i data k :
  Preview.noiseLoop random fuel (intensity / 100 * 50) i data k
  = Canvas.noiseLoop random fuel (intensity * (50 / 255) / 100) i data k.
Proof.
  revert i data k. induction fuel as [|fuel IH]; intros i data k;
    cbn [Preview.noiseLoop Canvas.noiseLoop]; [reflexivity|].
  destruct (i <? length data)%nat; [|reflexivity].
  rewrite !main_addNoise, IH.
  replace ((random k - 1 / 2) * 255 * (intensity * (50 / 255) / 100))
    with ((random k - 1 / 2) * (intensity / 100 * 50)) by field.
  reflexivity.
Qed.

(** X17: the noise pass of the main canvas.  It writes back one image of the
    size of the one read; the alpha byte of every pixel is the one read; the
    red, green and blue bytes of pixel [p] are the bytes read plus one
    random delta [(random - 0.5) * intensity/100 * 50], clamped to [0,255].
    So the main canvas gets the noise a side canvas gets at 50/255 of the
    intensity: on the same pixels and the same random numbers [drawNoise]
    at intensity [i] writes what [drawNoiseToContext] writes at
    [i * 50/255]. *)
Theorem drawNoise_is_weaker_than_side_noise (c : Preview.MainCanvas)
    (dims : Dims) (st : State) (k : nat) :
  let data := getMainImageData c 0 0 (width dims) (height dims) in
  let intensity := noiseIntensity (Preview.getBackground st) in
  (exists data',
      Preview.drawNoise getMainImageData random c dims st k
      = ([Preview.Ctx (PutImageData data' 0 0)],
         (k + Nat.div (length data + 3) 4)%nat)
      /\ length data' = length data
      /\ (forall p, data' !! (4 * p + 3)%nat = data !! (4 * p + 3)%nat)
      /\ (forall p ch, (ch < 3)%nat ->
            data' !! (4 * p + ch)%nat
            = (fun v =>
                 toUint8Clamped
                   (Rmin 255 (Rmax 0 (IZR v + (random (k + p) - 1 / 2)
                                               * (intensity / 100 * 50)))))
                <$> data !! (4 * p + ch)%nat))
  /\ (forall s : Surface,
        getImageData s 0 0 (width dims) (height dims) = data ->
        Preview.drawNoise getMainImageData random c dims st k
        = (Preview.Ctx
             <$> (Canvas.drawNoiseToContext getImageData random s dims
                    (intensity * (50 / 255)) k).1,
           (Canvas.drawNoiseToContext getImageData random s dims
              (intensity * (50 / 255)) k).2)).
Proof.
  cbv zeta.
  set (data := getMainImageData c 0 0 (width dims) (height dims)).
  set (intensity := noiseIntensity (Preview.getBackground st)).
  assert (Hcount : forall fuel amount q d k0,
             (length d <= 4 * q + 4 * fuel)%nat ->
             (Canvas.noiseLoop random fuel amount (4 * q) d k0).2
             = (k0 + (Nat.div (length d + 3) 4 - q))%nat).
  { induction fuel as [|fuel IH]; intros amount q d k0 Hlen;
      cbn [Canvas.noiseLoop snd].
    - assert (Nat.div (length d + 3) 4 < S q)%nat; [|lia].
      apply Nat.Div0.div_lt_upper_bound. lia.
    - destruct (4 * q <? length d)%nat eqn:Hi.
      + replace (4 * q + 4)%nat with (4 * S q)%nat by lia.
        rewrite IH by (rewrite !addNoise_length; lia).
        rewrite !addNoise_length.
        apply Nat.ltb_lt in Hi.
        assert (S q <= Nat.div (length d + 3) 4)%nat; [|lia].
        apply Nat.div_le_lower_bound; lia.
      + apply Nat.ltb_ge in Hi. cbn [snd].
        assert (Nat.div (length d + 3) 4 < S q)%nat; [|lia].
        apply Nat.Div0.div_lt_upper_bound. lia. }
  split.
  - unfold Preview.drawNoise. fold data. fold intensity.
    rewrite main_noiseLoop.
    pose proof (noiseLoop_length random (length data)
                  (intensity * (50 / 255) / 100) 0 data k) as Hlen.
    pose proof (fun p ch => noiseLoop_lookup random (length data)
                              (intensity * (50 / 255) / 100) 0 data k p ch) as Hget.
    pose proof (Hcount (length data) (intensity * (50 / 255) / 100) 0%nat data k)
      as Hk.
    change (4 * 0)%nat with 0%nat in Hget, Hk.
    destruct (Canvas.noiseLoop random (length data) _ 0 data k) as [data' k'].
    cbn [fst snd] in *. exists data'.
    split; [f_equal; rewrite Hk by lia; lia|].
    split; [exact Hlen|]. split.
    + intros p. rewrite (Hget p 3%nat) by lia. now rewrite orb_true_r.
    + intros p ch Hch. rewrite (Hget p ch) by lia.
      replace (ch =? 3)%nat with false by (symmetry; apply Nat.eqb_neq; lia).
      cbn [Nat.ltb Nat.leb orb]. rewrite Nat.sub_0_r.
      destruct (data !! (4 * p + ch)%nat) as [v|]; [|reflexivity].
      cbn. f_equal. rewrite clamp_either_way. do 4 f_equal. field.
  - intros s Hs. unfold Preview.drawNoise, Canvas.drawNoiseToContext.
    rewrite Hs. fold data. fold intensity. rewrite main_noiseLoop.
    now destruct (Canvas.noiseLoop random (length data) _ 0 data k).
Qed.

End MainNoise.

Section MainCanvasFacts.

Import Model Canvas Preview.
Local Open Scope R_scope.

Variable text_width : Font -> string -> R.
Variable getImageData : Surface -> R -> R -> R -> R -> list Z.
Variable getMainImageData : MainCanvas -> R -> R -> R -> R -> list Z.
Variable random : nat -> R.

Local Abbreviation updateCanvas :=
  (Preview.updateCanvas text_width getImageData getMainImageData random).
Local Abbreviation updateSidePreviews :=
  (Preview.updateSidePreviews text_width getImageData random).
Local Abbreviation drawText := (Preview.drawText text_width).
Local Abbreviation drawNoise := (Preview.drawNoise getMainImageData random).
Local Abbreviation Ok := Settings.Ok.
Local Abbreviation TypeError := Settings.TypeError.

Lemma updateSidePreviews_main dims env st cs k :
  main (updateSidePreviews dims env st cs k).1 = main cs.
Proof.
  unfold Preview.updateSidePreviews. cbv zeta.
  repeat match goal with
         | |- context [let '(_, _) := ?x in _] => destruct x
         end.
  reflexivity.
Qed.

(** The main canvas after [updateCanvas] painted the layer [layer]. *)
Lemma updateCanvas_paints env app cs k dims layer :
  saveState env (state app) = Ok tt ->
  getCanvasDimensions app = Some dims ->
  drawImageLayer dims env (state app) = Ok layer ->
  let st := state app in
  let scale := Rmin (400 / width dims) (700 / height dims) in
  let base :=
    {| m_width := width dims; m_height := height dims;
       m_style_width := width dims * scale;
       m_style_height := height dims * scale;
       m_ops := drawBackground dims st |} in
  let noiseCalls :=
    if noise (getBackground st) then (drawNoise base dims st k).1 else [] in
  exists cs' k',
    updateCanvas env app cs k = Ok (cs', k')
    /\ main cs'
       = {| m_width := width dims; m_height := height dims;
            m_style_width := width dims * scale;
            m_style_height := height dims * scale;
            m_ops := drawBackground dims st ++ noiseCalls ++ layer
                     ++ drawText dims st |}.
Proof.
  intros Hsave Hdims Hlayer. cbv zeta.
  unfold Preview.updateCanvas. rewrite Hsave, Hdims, Hlayer.
  unfold m_draw. cbn [m_width m_height m_style_width m_style_height m_ops List.app].
  destruct (noise (getBackground (state app))).
  - destruct (Preview.drawNoise _ _ _ _ _ _) as [calls k1].
    cbn [m_width m_height m_style_width m_style_height m_ops fst].
    destruct (Preview.updateSidePreviews _ _ _ _ _ _ _ _) as [cs' k'] eqn:E.
    exists cs', k'. split; [reflexivity|].
    change cs' with (cs', k').1. rewrite <- E, updateSidePreviews_main.
    cbn [main]. now rewrite <- !app_assoc.
  - cbn [m_width m_height m_style_width m_style_height m_ops].
    destruct (Preview.updateSidePreviews _ _ _ _ _ _ _ _) as [cs' k'] eqn:E.
    exists cs', k'. split; [reflexivity|].
    change cs' with (cs', k').1. rewrite <- E, updateSidePreviews_main.
    cbn [main]. now rewrite <- !app_assoc.
Qed.


Lemma current_lookup st u :
  Languages.getCurrentScreenshot st = Some u <->
  screenshots st !! selectedIndex st = Some u.
Proof.
  unfold Languages.getCurrentScreenshot.
  destruct (screenshots st) as [|v l] eqn:E; cbn [length Nat.eqb]; [|tauto].
  split; [discriminate|]. now rewrite lookup_nil.
Qed.

Lemma current_nonempty st u :
  Languages.getCurrentScreenshot st = Some u ->
  (0 <? length (screenshots st))%nat = true.
Proof.
  intros H. apply current_lookup, lookup_lt_Some in H.
  apply Nat.ltb_lt. lia.
Qed.

Lemma shared_ctx (l : list cmd) : omap shared (Ctx <$> l) = l.
Proof. induction l as [|c l IH]; [reflexivity|]. cbn. now rewrite IH. Qed.

Lemma shared_roundRect x y w h r : omap shared (roundRect x y w h r) = [].
Proof. now destruct r. Qed.

(** Apart from the rounded paths and the shadow colour, [drawScreenshot]
    issues the calls of [drawScreenshotToContext]. *)
Lemma screenshotCalls_common dims img settings sh fr :
  shadow settings = Some sh -> frame settings = Some fr ->
  List.filter common (omap shared (screenshotCalls dims img settings sh fr))
  = List.filter common (drawScreenshotToContext dims (Some img) settings).
Proof.
  intros Hsh Hfr. unfold screenshotCalls, drawScreenshotToContext.
  rewrite Hsh, Hfr. cbv zeta.
  destruct (Rgtb _ _).
  - set (w := img_width img / img_height img * (height dims * (scale settings / 100))).
    set (h := height dims * (scale settings / 100)).
    set (x0 := (width dims - w) * (x settings / 100)).
    set (y0 := (height dims - h) * (y settings / 100)).
    set (T := placeTransform (x0 + w / 2) (y0 + h / 2) settings).
    clearbody T x0 y0 w h.
    unfold drawDeviceFrame, drawDeviceFrameToContext. cbv zeta.
    destruct (shadow_enabled sh), (frame_enabled fr);
      repeat rewrite ?omap_app, ?List.filter_app, ?shared_ctx, ?shared_roundRect;
      reflexivity.
  - set (w := width dims * (scale settings / 100)).
    set (h := img_height img / img_width img * w).
    set (x0 := (width dims - w) * (x settings / 100)).
    set (y0 := (height dims - h) * (y settings / 100)).
    set (T := placeTransform (x0 + w / 2) (y0 + h / 2) settings).
    clearbody T x0 y0 w h.
    unfold drawDeviceFrame, drawDeviceFrameToContext. cbv zeta.
    destruct (shadow_enabled sh), (frame_enabled fr);
      repeat rewrite ?omap_app, ?List.filter_app, ?shared_ctx, ?shared_roundRect;
      reflexivity.
Qed.

(** The image layer in 2D mode is [drawScreenshot]. *)
Lemma drawImageLayer_2D dims env st u :
  Languages.getCurrentScreenshot st = Some u ->
  use3D (screenshot u) = false ->
  drawImageLayer dims env st = drawScreenshot dims st.
Proof.
  intros Hu H2D. unfold drawImageLayer, getScreenshotSettings.
  rewrite (current_nonempty _ _ Hu), Hu, H2D. reflexivity.
Qed.

(** X18: the main canvas against a side canvas.  When saving the state does
    not fail and the output dimensions are known, then for the selected unit
    in 2D mode, with an image, a shadow and a frame object and without noise,
    [updateCanvas] paints the main canvas at the size, and at the CSS size,
    at which [renderScreenshotToCanvas] paints a side canvas for the same
    unit, and issues the same calls in the same order -- background, image
    layer, text -- apart from three things: the side renderer clears the
    canvas first, builds its rounded paths with the context's own
    [roundRect] (the main one with the [roundRect] helper), and writes the
    shadow colour as hex with an alpha byte (the main one through
    [hexToRgba]). *)
Theorem updateCanvas_matches_side_preview env a cs k dims u img sh fr target k0 :
  saveState env (state a) = Ok tt ->
  getCanvasDimensions a = Some dims ->
  Languages.getCurrentScreenshot (state a) = Some u ->
  image u = Some img ->
  shadow (screenshot u) = Some sh ->
  frame (screenshot u) = Some fr ->
  use3D (screenshot u) = false ->
  noise (background u) = false ->
  let sideCanvas :=
    (renderScreenshotToCanvas text_width getImageData random (state a) (side env)
       (selectedIndex (state a)) target dims
       (Rmin (400 / width dims) (700 / height dims)) k0).1 in
  exists cs' k',
    updateCanvas env a cs k = Ok (cs', k')
    /\ m_width (main cs') = s_width sideCanvas
    /\ m_height (main cs') = s_height sideCanvas
    /\ m_style_width (main cs') = s_style_width sideCanvas
    /\ m_style_height (main cs') = s_style_height sideCanvas
    /\ List.filter common (s_ops sideCanvas)
       = ClearRect 0 0 (width dims) (height dims)
           :: List.filter common (omap shared (m_ops (main cs'))).
Proof.
  intros Hsave Hdims Hu Himg Hsh Hfr H2D Hnoise. cbv zeta.
  pose proof (proj1 (current_lookup _ _) Hu) as Hlook.
  rewrite (render_without_noise text_width getImageData random (state a) (side env)
             _ target dims _ k0 u img Hlook Himg Hnoise).
  rewrite H2D. cbn [andb s_width s_height s_style_width s_style_height s_ops].
  assert (Hlayer : drawImageLayer dims env (state a)
                   = Ok (screenshotCalls dims img (screenshot u) sh fr)).
  { rewrite (drawImageLayer_2D dims env _ u Hu H2D).
    unfold drawScreenshot, getScreenshotSettings.
    now rewrite Hlook, Himg, Hu, Hsh, Hfr. }
  pose proof (screenshotCalls_common dims img (screenshot u) sh fr Hsh Hfr) as Hsame.
  set (layer := screenshotCalls dims img (screenshot u) sh fr) in *.
  clearbody layer.
  destruct (updateCanvas_paints env a cs k dims layer Hsave Hdims Hlayer)
    as (cs' & k' & Hrun & Hmain).
  cbv zeta in Hmain. exists cs', k'. split; [exact Hrun|].
  rewrite Hmain. cbn [m_width m_height m_style_width m_style_height m_ops].
  repeat (split; [reflexivity|]).
  unfold getBackground. rewrite Hu, Hnoise.
  unfold Preview.drawBackground, Preview.drawText, getBackground, Languages.getText.
  rewrite Hu. cbn [List.app].
  rewrite !omap_app, !shared_ctx. cbn [List.filter common].
  now rewrite !List.filter_app, Hsame.
Qed.


Lemma saveState_closed env st : db env = false -> saveState env st = Ok tt.
Proof. intros H. unfold saveState. now rewrite H. Qed.

Lemma drawScreenshot_throws dims st u :
  screenshots st !! selectedIndex st = Some u ->
  image u = None \/ shadow (screenshot u) = None \/ frame (screenshot u) = None ->
  drawScreenshot dims st = TypeError.
Proof.
  intros Hlook Hmiss. unfold drawScreenshot, getScreenshotSettings.
  rewrite Hlook, (proj2 (current_lookup _ _) Hlook).
  destruct (image u) as [img|]; [|reflexivity].
  destruct Hmiss as [H | [H | H]]; [discriminate| |].
  - now rewrite H.
  - rewrite H. now destruct (shadow (screenshot u)).
Qed.

Lemma updateCanvas_throws_2D env a cs k u :
  Languages.getCurrentScreenshot (state a) = Some u ->
  use3D (screenshot u) = false ->
  image u = None \/ shadow (screenshot u) = None \/ frame (screenshot u) = None ->
  updateCanvas env a cs k = TypeError.
Proof.
  intros Hu H2D Hmiss. unfold Preview.updateCanvas.
  destruct (saveState env (state a)); [|reflexivity].
  destruct (getCanvasDimensions a) as [dims|]; [|reflexivity].
  rewrite (drawImageLayer_2D dims env _ u Hu H2D).
  rewrite (drawScreenshot_throws dims _ u (proj1 (current_lookup _ _) Hu) Hmiss).
  destruct (noise _); [|reflexivity].
  now destruct (Preview.drawNoise _ _ _ _ _ _).
Qed.

(** X19: when [updateCanvas] throws.  It throws a [TypeError] when the
    output device is neither 'custom' nor a name the device table has or
    inherits; when the store is open and some unit, selected or not, has no
    image; and when the selected unit is in 2D mode and lacks its image, or
    its settings lack the shadow or the frame object.  (A device name the
    table inherits, such as 'constructor', is left out of the first and the
    last case.) *)
Theorem updateCanvas_throws env a cs k :
  (getCanvasDimensions a = None -> Proto.inherited (outputDevice a) = false ->
   updateCanvas env a cs k = TypeError)
  /\ (db env = true ->
      (exists u, u ∈ screenshots (state a) /\ image u = None) ->
      updateCanvas env a cs k = TypeError)
  /\ (forall u,
        Proto.inherited (outputDevice a) = false ->
        Languages.getCurrentScreenshot (state a) = Some u ->
        use3D (screenshot u) = false ->
        image u = None \/ shadow (screenshot u) = None
        \/ frame (screenshot u) = None ->
        updateCanvas env a cs k = TypeError).
Proof.
  split; [|split].
  - intros Hdims _. unfold Preview.updateCanvas. rewrite Hdims.
    now destruct (saveState env (state a)).
  - intros Hdb (u & Hin & Himg). unfold Preview.updateCanvas, saveState.
    rewrite Hdb. cbn [andb].
    replace (existsb _ _) with true; [reflexivity|].
    symmetry. apply existsb_exists. exists u. split.
    + now apply list_elem_of_In.
    + now rewrite Himg.
  - intros u _. apply updateCanvas_throws_2D.
Qed.

(** X20: when the main canvas gets no image layer.  Without any unit
    [updateCanvas] still paints the background and the text of the defaults.
    With the selected unit in 3D mode while the 3D renderer is missing or
    its model not loaded, it paints the unit's background (and noise) and
    text and nothing between them, where [renderScreenshotToCanvas], on a
    side canvas, falls back to the 2D image for the same unit. *)
Theorem updateCanvas_without_image_layer env a cs k dims :
  saveState env (state a) = Ok tt ->
  getCanvasDimensions a = Some dims ->
  let st := state a in
  let scale := Rmin (400 / width dims) (700 / height dims) in
  let base :=
    {| m_width := width dims; m_height := height dims;
       m_style_width := width dims * scale;
       m_style_height := height dims * scale;
       m_ops := drawBackground dims st |} in
  let noiseCalls :=
    if noise (getBackground st) then (drawNoise base dims st k).1 else [] in
  (screenshots st = [] ->
   getBackground st = d_background (defaults st)
   /\ Languages.getText st = d_text (defaults st)
   /\ exists cs' k',
        updateCanvas env a cs k = Ok (cs', k')
        /\ m_ops (main cs')
           = drawBackground dims st ++ noiseCalls ++ drawText dims st)
  /\ (forall u img,
        Languages.getCurrentScreenshot st = Some u ->
        image u = Some img ->
        use3D (screenshot u) = true ->
        hasRenderThreeJSToCanvas env && phoneModelLoaded (side env) = false ->
        (exists cs' k',
            updateCanvas env a cs k = Ok (cs', k')
            /\ m_ops (main cs')
               = drawBackground dims st ++ noiseCalls ++ drawText dims st)
        /\ (hasRenderThreeJS (side env) && phoneModelLoaded (side env) = false ->
            forall target k0 previewScale,
              let '(x, y, w, h) := placement dims img (screenshot u) in
              exists before after,
                s_ops (renderScreenshotToCanvas text_width getImageData random st
                         (side env) (selectedIndex st) target dims previewScale
                         k0).1
                = before ++ DrawImage img x y w h :: after)).
Proof.
  intros Hsave Hdims. cbv zeta. split.
  - intros Hempty.
    assert (Hnone : Languages.getCurrentScreenshot (state a) = None).
    { unfold Languages.getCurrentScreenshot. now rewrite Hempty. }
    split; [unfold getBackground; now rewrite Hnone|].
    split; [unfold Languages.getText; now rewrite Hnone|].
    assert (Hlayer : drawImageLayer dims env (state a) = Ok []).
    { unfold drawImageLayer. now rewrite Hempty. }
    destruct (updateCanvas_paints env a cs k dims [] Hsave Hdims Hlayer)
      as (cs' & k' & Hrun & Hmain).
    cbv zeta in Hmain. exists cs', k'. split; [exact Hrun|].
    now rewrite Hmain.
  - intros u img Hu Himg H3D Hmissing. split.
    + assert (Hlayer : drawImageLayer dims env (state a) = Ok []).
      { unfold drawImageLayer, getScreenshotSettings.
        rewrite (current_nonempty _ _ Hu), Hu, H3D.
        cbn [orb negb]. rewrite <- andb_assoc, Hmissing. reflexivity. }
      destruct (updateCanvas_paints env a cs k dims [] Hsave Hdims Hlayer)
        as (cs' & k' & Hrun & Hmain).
      cbv zeta in Hmain. exists cs', k'. split; [exact Hrun|].
      now rewrite Hmain.
    + intros Hside target k0 previewScale.
      pose proof (proj1 (current_lookup _ _) Hu) as Hlook.
      rewrite (render_layers text_width getImageData random (state a) _
                 _ target dims previewScale k0 u img Hlook Himg).
      cbv zeta. rewrite <- andb_assoc, Hside, andb_false_r.
      destruct (drawScreenshot_box dims img (screenshot u))
        as (pre & post & Hbox & _ & _).
      rewrite Hbox. clear Hbox.
      destruct (placement dims img (screenshot u)) as [[[x y] w] h].
      set (B := drawBackgroundToContext dims (background u)).
      set (N := if noise (background u) then _ else _).
      set (T := drawTextToContext text_width dims (text u)).
      clearbody B N T.
      exists (ClearRect 0 0 (width dims) (height dims)
                :: B ++ N ++ pre
                ++ [BeginPath;
                    RoundRect x y w h
                      (cornerRadius_or_0 (screenshot u) * (w / 400));
                    Clip]),
             (Restore :: post ++ T).
      cbn [s_ops List.app]. f_equal. rewrite <- !app_assoc.
      cbn [List.app]. reflexivity.
Qed.





(** *** The export *)

Local Abbreviation exportLoop :=
  (Preview.exportLoop text_width getImageData getMainImageData random).
Local Abbreviation exportAll :=
  (Preview.exportAll text_width getImageData getMainImageData random).

Lemma append_length a b : String.length (a +:+ b) = (String.length a + String.length b)%nat.
Proof.
  induction a as [|c a IH]; [reflexivity|].
  rewrite append_cons. cbn [String.length]. now rewrite IH.
Qed.



Lemma select_state a i :
  screenshots (state (select a i)) = screenshots (state a)
  /\ selectedIndex (state (select a i)) = i
  /\ getCanvasDimensions (select a i) = getCanvasDimensions a.
Proof. repeat split. Qed.


Lemma saveState_select env a i :
  saveState env (state (select a i)) = saveState env (state a).
Proof. reflexivity. Qed.




Lemma exportLoop_throws env a indices j :
  j ∈ indices ->
  (forall cs k, updateCanvas env (select a j) cs k = TypeError) ->
  forall zip cs k, exportLoop env a indices zip cs k = TypeError.
Proof.
  intros Hj Hthrow. induction indices as [|i rest IH]; intros zip cs k.
  - inversion Hj.
  - cbn [Preview.exportLoop].
    destruct (decide (i = j)) as [-> | Hne]; [now rewrite Hthrow|].
    destruct (updateCanvas env (select a i) cs k) as [[cs1 k1]|]; [|reflexivity].
    apply IH. apply elem_of_cons in Hj as [-> | Hj]; [congruence | exact Hj].
Qed.

(** X23: one unit that cannot be painted ends the export.  When some unit in
    2D mode has no image, or settings without a shadow or a frame object,
    [exportAll] throws: no archive is made, whatever the other units are
    (the output device being no name the device table inherits).
    Without any unit it returns without an archive and changes nothing. *)
Theorem exportAll_aborts_on_unpaintable_unit env a cs k :
  (forall j u,
      Proto.inherited (outputDevice a) = false ->
      screenshots (state a) !! j = Some u ->
      use3D (screenshot u) = false ->
      image u = None \/ shadow (screenshot u) = None
      \/ frame (screenshot u) = None ->
      exportAll env a cs k = TypeError)
  /\ (screenshots (state a) = [] -> exportAll env a cs k = Ok (None, a, cs, k)).
Proof.
  split.
  - intros j u _ Hu H2D Hmiss. unfold Preview.exportAll.
    pose proof (lookup_lt_Some _ _ _ Hu) as Hlt.
    assert (Hn : (length (screenshots (state a)) =? 0)%nat = false)
      by (apply Nat.eqb_neq; lia).
    rewrite Hn.
    rewrite (exportLoop_throws env a (seq 0 (length (screenshots (state a)))) j);
      [reflexivity | apply elem_of_seq; lia |].
    intros cs0 k0.
    apply (updateCanvas_throws_2D env (select a j) cs0 k0 u); [|assumption..].
    apply current_lookup. exact Hu.
  - intros Hempty. unfold Preview.exportAll. now rewrite Hempty.
Qed.

End MainCanvasFacts.

(** ** File names of localized screenshots *)

Section FileFacts.

Import Model Lang Files.

Lemma append_nil_r (a : string) : a +:+ EmptyString = a.
Proof. induction a as [|c a IH]; [reflexivity|]. now rewrite append_cons, IH. Qed.

Lemma noDot_dot a b : noDot (a +:+ String "." b) = false.
Proof.
  induction a as [|c a IH]; [reflexivity|].
  rewrite append_cons. cbn [noDot]. now rewrite IH, andb_false_r.
Qed.

(** An extension, a dot and then at least one character none of which is a
    dot, is what [withoutExt] removes. *)
Lemma withoutExt_ext a ext :
  Str.truthy ext = true -> noDot ext = true ->
  withoutExt (a +:+ "." +:+ ext) = a.
Proof.
  intros Ht Hd. induction a as [|c a IH].
  - change (EmptyString +:+ "." +:+ ext) with (String "." ext).
    cbn [withoutExt]. now rewrite Ascii.eqb_refl, Ht, Hd.
  - rewrite append_cons. cbn [withoutExt].
    change ("." +:+ ext) with (String "." ext).
    rewrite noDot_dot, andb_false_r.
    change (String "." ext) with ("." +:+ ext). now rewrite IH.
Qed.

Lemma accept_base_needs_delim lang c s k :
  isDelim c = false -> accept (basePattern lang) (String c s) k = false.
Proof.
  intros Hc. unfold basePattern. cbn [accept]. now rewrite charIn_delim, Hc.
Qed.

Lemma cutMatch_skip lang a s :
  noDelim a = true ->
  cutMatch (basePattern lang) (a +:+ s)
  = String.append a <$> cutMatch (basePattern lang) s.
Proof.
  induction a as [|c a IH]; intros H.
  - change (EmptyString +:+ s) with s.
    now destruct (cutMatch (basePattern lang) s).
  - cbn [noDelim] in H. apply andb_true_iff in H as [Hc Ha].
    apply negb_true_iff in Hc.
    rewrite append_cons. cbn [cutMatch].
    rewrite accept_base_needs_delim, IH by assumption.
    now destruct (cutMatch (basePattern lang) s).
Qed.

Lemma cutMatch_noDelim lang s :
  noDelim s = true -> cutMatch (basePattern lang) s = None.
Proof.
  induction s as [|c s IH]; intros H.
  - reflexivity.
  - cbn [noDelim] in H. apply andb_true_iff in H as [Hc Hs].
    apply negb_true_iff in Hc.
    cbn [cutMatch]. now rewrite accept_base_needs_delim, IH.
Qed.

Lemma firstCut_skip langs a s :
  noDelim a = true -> firstCut langs (a +:+ s) = a +:+ firstCut langs s.
Proof.
  intros Ha. induction langs as [|lang langs IH]; [reflexivity|].
  cbn [firstCut]. rewrite cutMatch_skip by assumption.
  destruct (cutMatch (basePattern lang) s); [reflexivity | exact IH].
Qed.

Lemma firstCut_noDelim langs s : noDelim s = true -> firstCut langs s = s.
Proof.
  intros Hs. induction langs as [|lang langs IH]; [reflexivity|].
  cbn [firstCut]. now rewrite cutMatch_noDelim.
Qed.

(** A delimiter and a supported code, on their own, are cut off whole. *)
Lemma firstCut_suffix lang sep :
  In lang supportedLangs -> isDelim sep = true ->
  firstCut sortedLangs (String sep lang) = EmptyString.
Proof.
  intros Hlang Hsep.
  assert (Hsep' : sep = "_"%char \/ sep = "-"%char).
  { unfold isDelim in Hsep. apply orb_true_iff in Hsep as [H | H];
      apply Ascii.eqb_eq in H; auto. }
  cbn in Hlang.
  destruct Hsep' as [-> | ->];
    repeat (destruct Hlang as [<- | Hlang]; [vm_compute; reflexivity|]);
    contradiction.
Qed.

Lemma getBaseFilename_suffix base ext lang sep :
  In lang supportedLangs -> isDelim sep = true ->
  noDelim base = true ->
  Str.truthy ext = true -> noDot ext = true ->
  getBaseFilename (base +:+ String sep lang +:+ "." +:+ ext) = base.
Proof.
  intros Hlang Hsep Hbase Ht Hd. unfold getBaseFilename.
  rewrite <- append_assoc, withoutExt_ext by assumption.
  rewrite firstCut_skip by assumption.
  now rewrite firstCut_suffix, append_nil_r.
Qed.

Lemma getBaseFilename_plain name ext :
  noDelim name = true ->
  Str.truthy ext = true -> noDot ext = true ->
  getBaseFilename (name +:+ "." +:+ ext) = name.
Proof.
  intros Hname Ht Hd. unfold getBaseFilename.
  rewrite withoutExt_ext by assumption. now apply firstCut_noDelim.
Qed.

(** X24: the base name of a file.  For a name made of a base without
    underscore and hyphen, a delimiter, a supported language code, a dot and
    an extension (not empty, without a dot), the base name is the base; so
    the files of one screenshot in two languages, whatever delimiters and
    extensions they use, have one base name, which is also that of the file
    without a language suffix; and when the extension has no delimiter
    either, the language detected for the file is the code. *)
Theorem getBaseFilename_strips_language base ext lang sep :
  In lang supportedLangs -> isDelim sep = true ->
  noDelim base = true ->
  Str.truthy ext = true -> noDot ext = true ->
  getBaseFilename (base +:+ String sep lang +:+ "." +:+ ext) = base
  /\ getBaseFilename (base +:+ "." +:+ ext) = base
  /\ (forall ext' lang' sep',
        In lang' supportedLangs -> isDelim sep' = true ->
        Str.truthy ext' = true -> noDot ext' = true ->
        getBaseFilename (base +:+ String sep' lang' +:+ "." +:+ ext')
        = getBaseFilename (base +:+ String sep lang +:+ "." +:+ ext))
  /\ (noDelim ext = true ->
      detectLanguageFromFilename (base +:+ String sep lang +:+ "." +:+ ext)
      = lang).
Proof.
  intros Hlang Hsep Hbase Ht Hd.
  split; [now apply getBaseFilename_suffix|].
  split; [now apply getBaseFilename_plain|].
  split.
  - intros ext' lang' sep' Hlang' Hsep' Ht' Hd'.
    now rewrite !getBaseFilename_suffix.
  - intros Hext. now apply detect_suffix.
Qed.

Lemma hasBaseName_spec baseName u :
  hasBaseName baseName u = true <->
  exists lang li,
    localizedImages u !! lang = Some li
    /\ li_name li <> EmptyString
    /\ getBaseFilename (li_name li) = baseName.
Proof.
  unfold hasBaseName. rewrite existsb_exists. split.
  - intros (li & Hin & Hli).
    apply list_elem_of_In, list_elem_of_fmap in Hin as ([lang li'] & -> & Hin).
    apply elem_of_map_to_list in Hin. cbn [snd] in Hli.
    apply andb_true_iff in Hli as [Ht He]. apply String.eqb_eq in He.
    exists lang, li'. split; [assumption|]. split; [|assumption].
    intros E. rewrite E in Ht. discriminate.
  - intros (lang & li & Hl & Hn & Hb). exists li. split.
    + apply list_elem_of_In, list_elem_of_fmap. exists (lang, li).
      split; [reflexivity|]. now apply elem_of_map_to_list.
    + apply andb_true_iff. split; [now destruct (li_name li)|].
      now apply String.eqb_eq.
Qed.

(** X25: finding the unit a file belongs to.  The index returned is that of
    the first unit that stores an image whose (non-empty) name has the base
    name of the file; it is an index of the list; and none is returned
    exactly when no unit stores such an image.  In particular a file
    'base-fr.png' finds a unit that stores 'base_de.jpg' when no earlier
    unit stores a file of that base name. *)
Theorem findScreenshotByBaseFilename_first_match st filename :
  let same u :=
    exists lang li,
      localizedImages u !! lang = Some li
      /\ li_name li <> EmptyString
      /\ getBaseFilename (li_name li) = getBaseFilename filename in
  (forall i,
      findScreenshotByBaseFilename st filename = Some i <->
      exists u, screenshots st !! i = Some u /\ same u
                /\ forall j v, (j < i)%nat -> screenshots st !! j = Some v -> ~ same v)
  /\ (findScreenshotByBaseFilename st filename = None <->
      forall u, u ∈ screenshots st -> ~ same u)
  /\ (forall i u key li base sep lang ext sep' lang' ext',
        filename = base +:+ String sep' lang' +:+ "." +:+ ext' ->
        In lang' supportedLangs -> isDelim sep' = true ->
        Str.truthy ext' = true -> noDot ext' = true ->
        noDelim base = true ->
        screenshots st !! i = Some u ->
        localizedImages u !! key = Some li ->
        li_name li = base +:+ String sep lang +:+ "." +:+ ext ->
        In lang supportedLangs -> isDelim sep = true ->
        Str.truthy ext = true -> noDot ext = true ->
        (forall j v, (j < i)%nat -> screenshots st !! j = Some v -> ~ same v) ->
        findScreenshotByBaseFilename st filename = Some i).
Proof.
  intros same.
  assert (Hsame : forall u, hasBaseName (getBaseFilename filename) u = true <-> same u)
    by (intros u; apply hasBaseName_spec).
  assert (Hfind : forall i,
            findScreenshotByBaseFilename st filename = Some i <->
            exists u, screenshots st !! i = Some u /\ same u
              /\ forall j v, (j < i)%nat -> screenshots st !! j = Some v -> ~ same v).
  { intros i. unfold findScreenshotByBaseFilename. cbv zeta. split.
    - intros H.
      destruct (list_find _ (screenshots st)) as [[i' u]|] eqn:E; [|discriminate].
      injection H as ->. apply list_find_Some in E as (Hu & Hp & Hbefore).
      exists u. split; [assumption|]. split; [now apply Hsame|].
      intros j v Hj Hv Hs. apply (Hbefore j v Hv Hj). now apply Hsame.
    - intros (u & Hu & Hs & Hbefore).
      assert (E : list_find (fun u => hasBaseName (getBaseFilename filename) u = true)
                            (screenshots st) = Some (i, u)).
      { apply list_find_Some. split; [assumption|]. split; [now apply Hsame|].
        intros j v Hv Hj Hp. apply (Hbefore j v Hj Hv). now apply Hsame. }
      now rewrite E. }
  split; [exact Hfind|]. split.
  - unfold findScreenshotByBaseFilename. cbv zeta. split.
    + intros H u Hu Hs.
      destruct (list_find _ (screenshots st)) as [[i' u']|] eqn:E; [discriminate|].
      apply list_find_None in E.
      rewrite Forall_forall in E. apply (E u Hu). now apply Hsame.
    + intros H.
      destruct (list_find _ (screenshots st)) as [[i' u']|] eqn:E; [|reflexivity].
      apply list_find_Some in E as (Hu & Hp & _). exfalso.
      apply (H u'); [eapply list_elem_of_lookup_2; exact Hu | now apply Hsame].
  - intros i u key li base sep lang ext sep' lang' ext'
      -> Hl' Hs' Ht' Hd' Hb Hu Hli Hname Hl Hs Ht Hd Hbefore.
    apply Hfind. exists u. split; [assumption|]. split; [|assumption].
    exists key, li. split; [assumption|]. split.
    + rewrite Hname. intros E. apply (f_equal String.length) in E.
      rewrite !append_length in E. cbn in E. lia.
    + rewrite Hname. now rewrite !getBaseFilename_suffix.
Qed.

End FileFacts.

(** ** The AI providers *)

Section ProviderFacts.

Import Providers.

Lemma prefix_spec p key :
  String.prefix p key = true <-> exists rest, key = p +:+ rest.
Proof.
  revert key. induction p as [|c p IH]; intros key.
  - split; [intros _; now exists key | now destruct key].
  - destruct key as [|d key]; cbn [String.prefix].
    + split; [discriminate|]. intros (rest & E).
      rewrite append_cons in E. discriminate.
    + destruct (Ascii.ascii_dec c d) as [-> | Hne].
      * rewrite IH. split; intros (rest & E); exists rest.
        -- now rewrite append_cons, E.
        -- rewrite append_cons in E. now injection E.
      * split; [discriminate|]. intros (rest & E).
        rewrite append_cons in E. injection E as E1 E2. congruence.
Qed.

Lemma inherited_no_provider provider :
  Proto.inherited provider = true -> llmProviders provider = None.
Proof.
  unfold Proto.inherited. intros Hi. apply bool_decide_eq_true_1 in Hi.
  unfold Proto.inheritedNames in Hi.
  repeat (apply elem_of_cons in Hi as [-> | Hi]; [reflexivity|]).
  now apply elem_of_nil in Hi.
Qed.

(** X26: the format check of an API key.  A provider name that is neither
    in the table nor inherited by it accepts no key; for a provider of the
    table a key is accepted exactly when it starts with the provider's
    prefix; for a name the table inherits, such as 'constructor', exactly
    the keys that start with 'undefined' are accepted.  The prefixes
    overlap: every key accepted for Anthropic is accepted for OpenAI too,
    while a key accepted for Google is accepted for neither of the two. *)
Theorem validateApiKeyFormat_prefixes key :
  (forall provider,
      llmProviders provider = None -> Proto.inherited provider = false ->
      validateApiKeyFormat provider key = false)
  /\ (forall provider config,
        llmProviders provider = Some config ->
        (validateApiKeyFormat provider key = true <->
         exists rest, key = keyPrefix config +:+ rest))
  /\ (forall provider,
        Proto.inherited provider = true ->
        (validateApiKeyFormat provider key = true <->
         exists rest, key = "undefined" +:+ rest))
  /\ (validateApiKeyFormat "anthropic" key = true ->
      validateApiKeyFormat "openai" key = true)
  /\ (validateApiKeyFormat "google" key = true ->
      validateApiKeyFormat "openai" key = false
      /\ validateApiKeyFormat "anthropic" key = false).
Proof.
  split; [|split; [|split; [|split]]].
  - intros provider H Hi. unfold validateApiKeyFormat. now rewrite H, Hi.
  - intros provider config H. unfold validateApiKeyFormat. rewrite H.
    apply prefix_spec.
  - intros provider Hi. unfold validateApiKeyFormat.
    rewrite (inherited_no_provider provider Hi), Hi. apply prefix_spec.
  - change (String.prefix "sk-ant-" key = true -> String.prefix "sk-" key = true).
    rewrite !prefix_spec. intros (rest & ->). exists ("ant-" +:+ rest).
    reflexivity.
  - change (String.prefix "AIza" key = true ->
            String.prefix "sk-" key = false /\ String.prefix "sk-ant-" key = false).
    rewrite prefix_spec. intros (rest & ->). split; reflexivity.
Qed.

(** X27: the selected model.  For a provider of the table there is always a
    model, and never the empty string: the stored one when one is stored
    and not empty, otherwise the provider's default, which is one of the
    models the table lists for it.  For a name that is neither in the table
    nor inherited by it the result is [null]; for an inherited name it is
    [undefined] unless an item is stored under 'undefined'. *)
Theorem getSelectedModel_falls_back_to_default localStorage provider :
  (llmProviders provider = None -> Proto.inherited provider = false ->
   getSelectedModel localStorage provider = Settings.JNull)
  /\ (Proto.inherited provider = true ->
      localStorage !! "undefined" = None ->
      getSelectedModel localStorage provider = Settings.JUndefined)
  /\ (forall config,
        llmProviders provider = Some config ->
        defaultModel config ∈ (models config).*1
        /\ exists model,
             getSelectedModel localStorage provider = Settings.JStr model
             /\ model <> EmptyString
             /\ (forall v, localStorage !! modelStorageKey config = Some v ->
                           v <> EmptyString -> model = v)
             /\ (localStorage !! modelStorageKey config = None
                 \/ localStorage !! modelStorageKey config = Some EmptyString ->
                 model = defaultModel config)).
Proof.
  split; [|split].
  - intros H Hi. unfold getSelectedModel. now rewrite H, Hi.
  - intros Hi Hnone. unfold getSelectedModel.
    now rewrite (inherited_no_provider provider Hi), Hi, Hnone.
  - intros config Hc.
    assert (Hdef : defaultModel config ∈ (models config).*1
                   /\ defaultModel config <> EmptyString).
    { unfold llmProviders in Hc.
      repeat (destruct (String.eqb provider _);
              [injection Hc as <-; cbn; split; [set_solver | discriminate]|]).
      discriminate. }
    destruct Hdef as [Hin Hne]. split; [exact Hin|].
    unfold getSelectedModel. rewrite Hc.
    destruct (localStorage !! modelStorageKey config) as [v|] eqn:E.
    + destruct v as [|c v].
      * eexists. split; [reflexivity|]. cbn. split; [assumption|].
        split; [intros v [= <-]; congruence | auto].
      * eexists. split; [reflexivity|]. cbn. split; [discriminate|].
        split; [now intros v' [= <-] | intros [H | H]; discriminate].
    + eexists. split; [reflexivity|]. split; [assumption|].
      split; [discriminate | auto].
Qed.

End ProviderFacts.

(** ** The image background *)

Section ImageBackground.

Import Model Canvas.
Local Open Scope R_scope.

(** The calls for an image background, with the crop and the box named. *)
Lemma drawBackground_image dims bg img :
  bg_type bg = "image" -> bg_image bg = Some img ->
  let imgRatio := img_width img / img_height img in
  let canvasRatio := width dims / height dims in
  let cover := String.eqb (imageFit bg) "cover" in
  let contain := negb cover && String.eqb (imageFit bg) "contain" in
  let sw := if cover && Rgtb imgRatio canvasRatio
            then img_height img * canvasRatio else img_width img in
  let sh := if cover && negb (Rgtb imgRatio canvasRatio)
            then img_width img / canvasRatio else img_height img in
  let dw := if contain && negb (Rgtb imgRatio canvasRatio)
            then height dims * imgRatio else width dims in
  let dh := if contain && Rgtb imgRatio canvasRatio
            then width dims / imgRatio else height dims in
  drawBackgroundToContext dims bg
  = (if contain then [SetFillStyle (CssColor "#000");
                      FillRect 0 0 (width dims) (height dims)] else [])
    ++ (if Rgtb (imageBlur bg) 0 then [SetFilter (FilterBlur (imageBlur bg))] else [])
    ++ [DrawImageCrop img
          (if cover && Rgtb imgRatio canvasRatio then (img_width img - sw) / 2 else 0)
          (if cover && negb (Rgtb imgRatio canvasRatio)
           then (img_height img - sh) / 2 else 0)
          sw sh
          (if contain && negb (Rgtb imgRatio canvasRatio)
           then (width dims - dw) / 2 else 0)
          (if contain && Rgtb imgRatio canvasRatio
           then (height dims - dh) / 2 else 0)
          dw dh;
        SetFilter FilterNone]
    ++ (if Rgtb (overlayOpacity bg) 0 then
          [ SetFillStyle (CssColor (overlayColor bg));
            SetGlobalAlpha (overlayOpacity bg / 100);
            FillRect 0 0 (width dims) (height dims);
            SetGlobalAlpha 1 ]
        else []).
Proof.
  intros Htype Himg. cbv zeta. unfold drawBackgroundToContext.
  rewrite Htype, Himg.
  change (String.eqb "image" "gradient") with false.
  change (String.eqb "image" "solid") with false.
  change (String.eqb "image" "image") with true. cbv iota.
  destruct (String.eqb (imageFit bg) "cover");
    destruct (String.eqb (imageFit bg) "contain");
    destruct (Rgtb (img_width img / img_height img) (width dims / height dims));
    reflexivity.
Qed.


(** X28: an image background is never distorted by 'cover' or 'contain'.  For
    an image and a canvas of positive size the one [drawImage] call copies
    a centred part of the image, lying within the image, into a centred box
    lying within the canvas.  With 'cover' the part has the proportions of
    the canvas, spans the image in one direction and fills the canvas; with
    'contain' the whole image goes into a box of the image's proportions
    that spans the canvas in one direction; with any other fit the whole
    image is stretched over the whole canvas. *)
Theorem drawBackgroundToContext_image_fit dims bg img :
  bg_type bg = "image" -> bg_image bg = Some img ->
  0 < img_width img -> 0 < img_height img ->
  0 < width dims -> 0 < height dims ->
  exists pre post sx sy sw sh dx dy dw dh,
    drawBackgroundToContext dims bg
    = pre ++ DrawImageCrop img sx sy sw sh dx dy dw dh :: post
    /\ (0 <= sx /\ 0 <= sy /\ 0 < sw /\ 0 < sh
        /\ sx + sw <= img_width img /\ sy + sh <= img_height img
        /\ sx = (img_width img - sw) / 2 /\ sy = (img_height img - sh) / 2)
    /\ (0 <= dx /\ 0 <= dy /\ 0 < dw /\ 0 < dh
        /\ dx + dw <= width dims /\ dy + dh <= height dims
        /\ dx = (width dims - dw) / 2 /\ dy = (height dims - dh) / 2)
    /\ (imageFit bg = "cover" ->
        sw * height dims = sh * width dims
        /\ dw = width dims /\ dh = height dims
        /\ (sw = img_width img \/ sh = img_height img))
    /\ (imageFit bg = "contain" ->
        dw * img_height img = dh * img_width img
        /\ sw = img_width img /\ sh = img_height img
        /\ (dw = width dims \/ dh = height dims))
    /\ (imageFit bg <> "cover" -> imageFit bg <> "contain" ->
        sw = img_width img /\ sh = img_height img
        /\ dw = width dims /\ dh = height dims).
Proof.
  intros Htype Himg Hiw Hih HW HH.
  rewrite (drawBackground_image dims bg img Htype Himg). cbv zeta.
  set (iw := img_width img) in *. set (ih := img_height img) in *.
  set (W := width dims) in *. set (H := height dims) in *.
  set (p := iw / ih). set (q := W / H).
  assert (Hp : p * ih = iw) by (unfold p; field; lra).
  assert (Hq : q * H = W) by (unfold q; field; lra).
  assert (Hp0 : 0 < p) by (apply Rdiv_lt_0_compat; assumption).
  assert (Hq0 : 0 < q) by (apply Rdiv_lt_0_compat; assumption).
  assert (Hr : iw / q * q = iw) by (field; lra).
  assert (Ht : W / p * p = W) by (field; lra).
  set (r := iw / q) in *. set (t := W / p) in *.
  clearbody p q r t iw ih W H.
  assert (E : forall (A B : list cmd) D F O,
             A ++ B ++ [D; F] ++ O = (A ++ B) ++ D :: F :: O)
    by (intros; now rewrite <- app_assoc).
  rewrite E. clear E.
  do 10 eexists. split; [reflexivity|].
  destruct (String.eqb_spec (imageFit bg) "cover") as [Ec | Ec];
    destruct (String.eqb_spec (imageFit bg) "contain") as [En | En];
    try (rewrite Ec in En; discriminate);
    destruct (Rgtb p q) eqn:Eg;
    [apply Rgtb_true in Eg | apply Rgtb_false in Eg
    | apply Rgtb_true in Eg | apply Rgtb_false in Eg
    | apply Rgtb_true in Eg | apply Rgtb_false in Eg ];
    cbn [andb negb];
    (split; [repeat split; nra|]);
    (split; [repeat split; nra|]);
    (split; [intros E; try congruence; repeat split; try nra; (left; nra) || (right; nra)|]);
    (split; [intros E; try congruence; repeat split; try nra; (left; nra) || (right; nra)|]);
    intros E1 E2; try congruence; repeat split; reflexivity.
Qed.

End ImageBackground.

(** ** What the layers leave of the drawing state *)

Section DrawingState.

Import Model Canvas Look.
Local Open Scope R_scope.

Variable text_width : Font -> string -> R.
Variable getImageData : Surface -> R -> R -> R -> R -> list Z.
Variable random : nat -> R.

Lemma run_app l saved a b :
  run l saved (a ++ b) = run (run l saved a).1 (run l saved a).2 b.
Proof.
  revert l saved. induction a as [|c a IH]; intros l saved; [reflexivity|].
  destruct c; cbn [List.app run]; try apply IH.
  destruct saved; apply IH.
Qed.

Lemma run_plain l saved cs :
  forallb plain cs = true -> (run l saved cs).2 = saved.
Proof.
  revert l. induction cs as [|c cs IH]; intros l H; [reflexivity|].
  cbn [forallb] in H. apply andb_prop in H as [Hc Hcs].
  destruct c; try discriminate Hc; cbn [run]; now apply IH.
Qed.

(** Whatever is done between [save] and its [restore] is undone. *)
Lemma run_bracket l saved cs rest :
  forallb plain cs = true ->
  run l saved (Save :: cs ++ Restore :: rest) = run l saved rest.
Proof.
  intros H. cbn [run]. rewrite run_app.
  pose proof (run_plain l (l :: saved) cs H) as E.
  destruct (run l (l :: saved) cs) as [l' s']. cbn [fst snd] in *. subst s'.
  reflexivity.
Qed.

Lemma placeTransform_plain cx cy settings :
  forallb plain (placeTransform cx cy settings) = true.
Proof.
  unfold placeTransform.
  destruct (nonzero (rotation settings)), (nonzero (perspective settings));
    reflexivity.
Qed.

Lemma layer_run l saved (A B : list cmd) a b c d rest :
  forallb plain A = true -> forallb plain B = true ->
  forallb plain [a; b; c; d] = true ->
  run l saved ([Save] ++ A ++ B ++ [a; b; c; d; Restore] ++ rest)
  = run l saved rest.
Proof.
  intros HA HB HD.
  replace ([Save] ++ A ++ B ++ [a; b; c; d; Restore] ++ rest)
    with (Save :: (A ++ B ++ [a; b; c; d]) ++ Restore :: rest)
    by (cbn [List.app]; now rewrite <- !app_assoc).
  rewrite run_bracket; [reflexivity|].
  now rewrite !forallb_app, HA, HB, HD.
Qed.

Lemma frame_run l saved (A B : list cmd) :
  forallb plain A = true -> forallb plain B = true ->
  run l saved ([Save] ++ A ++ B ++ [Restore]) = (l, saved).
Proof.
  intros HA HB.
  replace ([Save] ++ A ++ B ++ [Restore])
    with (Save :: (A ++ B) ++ Restore :: [])
    by (cbn [List.app]; now rewrite <- !app_assoc).
  rewrite run_bracket; [reflexivity|].
  now rewrite !forallb_app, HA, HB.
Qed.

(** The screenshot layer leaves the drawing state as it found it. *)
Lemma drawScreenshotToContext_run dims img settings l saved :
  run l saved (drawScreenshotToContext dims img settings) = (l, saved).
Proof.
  unfold drawScreenshotToContext. destruct img as [img|]; [|reflexivity].
  cbv zeta.
  destruct (Rgtb _ _); cbv beta iota.
  all: rewrite layer_run;
    [ destruct (frame settings) as [fr|]; [|reflexivity];
      destruct (frame_enabled fr); [|reflexivity];
      apply frame_run; [apply placeTransform_plain | reflexivity]
    | apply placeTransform_plain
    | destruct (shadow settings) as [sh|]; [|reflexivity];
      destruct (shadow_enabled sh); reflexivity
    | reflexivity ].
Qed.

(** The background layer returns opacity and filter to their fresh
    values. *)
Lemma drawBackgroundToContext_run dims bg saved :
  run fresh saved (drawBackgroundToContext dims bg) = (fresh, saved).
Proof.
  unfold drawBackgroundToContext.
  destruct (String.eqb (bg_type bg) "gradient"); [reflexivity|].
  destruct (String.eqb (bg_type bg) "solid"); [reflexivity|].
  destruct (String.eqb (bg_type bg) "image"); [|reflexivity].
  destruct (bg_image bg) as [img|]; [|reflexivity].
  cbv zeta.
  destruct (String.eqb (imageFit bg) "cover");
    destruct (String.eqb (imageFit bg) "contain");
    destruct (Rgtb (img_width img / img_height img) (width dims / height dims));
    cbn [negb andb]; cbv beta iota;
    destruct (Rgtb (imageBlur bg) 0); destruct (Rgtb (overlayOpacity bg) 0);
    reflexivity.
Qed.

Local Abbreviation render :=
  (Canvas.renderScreenshotToCanvas text_width getImageData random).

(** X29: the text of a unit drawn in two dimensions is drawn in a fresh
    drawing state.  What [renderScreenshotToCanvas] issues before the text
    layer leaves the context at full opacity, without filter or shadow,
    untransformed and unclipped, with nothing saved: the blur and the overlay
    of the background, and the rotation, the clip and the shadow of the
    screenshot do not reach the text. *)
Theorem renderScreenshotToCanvas_draws_text_in_fresh_state
    st env index target dims previewScale k u img :
  screenshots st !! index = Some u -> image u = Some img ->
  use3D (screenshot u) && hasRenderThreeJS env && phoneModelLoaded env = false ->
  exists before,
    s_ops (render st env index target dims previewScale k).1
    = before ++ Canvas.drawTextToContext text_width dims (text u)
    /\ run fresh [] before = (fresh, []).
Proof.
  intros Hu Himg H2D.
  rewrite (render_layers text_width getImageData random st env index target dims
             previewScale k u img Hu Himg).
  cbv zeta. rewrite H2D. cbn [s_ops].
  set (noiseCmds := if noise (background u) then _ else _).
  exists (ClearRect 0 0 (width dims) (height dims)
            :: drawBackgroundToContext dims (background u)
            ++ noiseCmds
            ++ drawScreenshotToContext dims (Some img) (screenshot u)).
  split; [cbn [List.app]; now rewrite <- !app_assoc|].
  cbn [run Look.apply]. rewrite run_app, drawBackgroundToContext_run.
  cbn [fst snd]. rewrite run_app.
  assert (En : run fresh [] noiseCmds = (fresh, [])).
  { subst noiseCmds. destruct (noise (background u)); [|reflexivity].
    unfold Canvas.drawNoiseToContext.
    destruct (noiseLoop _ _ _ _ _ _) as [data k']. reflexivity. }
  rewrite En. apply drawScreenshotToContext_run.
Qed.

End DrawingState.

(** ** Where the text layer puts its lines *)

Section TextLayout.

Import Model Canvas.
Local Open Scope R_scope.

Variable text_width : Font -> string -> R.

Local Abbreviation wrapText := (Canvas.wrapText text_width).
Local Abbreviation drawTextToContext := (Canvas.drawTextToContext text_width).

Lemma elem_of_concat_imap {A B} (f : nat -> A -> list B) l i x y :
  l !! i = Some x -> y ∈ f i x -> y ∈ concat (imap f l).
Proof.
  intros Hl Hy. apply list_elem_of_In, in_concat. exists (f i x). split.
  - apply list_elem_of_In. apply (list_elem_of_lookup_2 _ i).
    now rewrite list_lookup_imap, Hl.
  - now apply list_elem_of_In.
Qed.

(** A text of one word wraps to that word. *)
Lemma wrapText_one_word font word maxWidth :
  Str.split " " word = [word] -> Str.truthy word = true ->
  wrapText font word maxWidth = [word].
Proof.
  intros Hs Ht. unfold Canvas.wrapText. rewrite Hs.
  cbn [fold_left]. unfold wrapStep. cbn [Str.truthy]. rewrite andb_false_r.
  change (EmptyString +:+ EmptyString +:+ word) with word. now rewrite Ht.
Qed.

(** X30: where the text layer puts its lines, for a headline that is
    enabled and not empty.  Every line is drawn centred at half the canvas
    width.  In 'bottom' position the headline lines are
    stacked upwards from the anchor [textY]: the last one is at [textY]
    whatever their number; in any other position they are stacked downwards
    from it.  After at least one headline line the subheadline lines follow
    1.4 subheadline sizes apart: in 'top' position from where one more
    headline line would be drawn, in 'bottom' position from below the
    anchor, lower by the lead of the headline (line height minus size). *)
Theorem drawTextToContext_stacks_lines dims txt headline :
  headlineEnabled txt <> Some false ->
  headlines txt !! lang_or_en (currentHeadlineLang txt) = Some headline ->
  Str.truthy headline = true ->
  let font :=
    {| font_style := italic_or_normal (headlineItalic txt);
       font_weight := headlineWeight txt;
       font_size := headlineSize txt;
       font_family := headlineFont txt |} in
  let maxWidth := width dims - width dims * (8 / 100) * 2 in
  let lines := wrapText font headline maxWidth in
  let n := length lines in
  let lh := headlineSize txt * (lineHeight txt / 100) in
  let top := String.eqb (position txt) "top" in
  let bottom := String.eqb (position txt) "bottom" in
  let textY :=
    if top then height dims * (offsetY txt / 100)
    else height dims * (1 - offsetY txt / 100) in
  (forall i line,
      lines !! i = Some line ->
      FillText line (width dims / 2)
        (if bottom then textY - (INR n - 1 - INR i) * lh else textY + INR i * lh)
      ∈ drawTextToContext dims txt)
  /\ (forall sub,
        subheadlineEnabled txt = true ->
        subheadlines txt !! lang_or_en (currentSubheadlineLang txt) = Some sub ->
        Str.truthy sub = true ->
        n <> 0%nat ->
        let subFont :=
          {| font_style := italic_or_normal (subheadlineItalic txt);
             font_weight := Str.or_else (subheadlineWeight txt) "400";
             font_size := subheadlineSize txt;
             font_family := Str.or_else (subheadlineFont txt) (headlineFont txt) |} in
        let subLines := wrapText subFont sub maxWidth in
        let subY :=
          if top then textY + INR n * lh
          else if bottom then textY + (lh - headlineSize txt)
               else textY + INR n * lh - headlineSize txt in
        forall j line,
          subLines !! j = Some line ->
          FillText line (width dims / 2)
            (subY + INR j * (subheadlineSize txt * (14 / 10)))
          ∈ drawTextToContext dims txt).
Proof.
  intros Hen Hh Ht. cbv zeta.
  assert (Een : match headlineEnabled txt with Some false => false | _ => true end
                = true) by (destruct (headlineEnabled txt) as [[|]|]; congruence).
  unfold Canvas.drawTextToContext. cbv zeta. rewrite Een, Hh.
  cbv beta iota. cbn [from_option]. unfold Datatypes.id. rewrite Ht. cbn [negb andb].
  set (font := {| font_style := italic_or_normal (headlineItalic txt);
                  font_weight := _; font_size := _; font_family := _ |}).
  set (maxWidth := width dims - width dims * (8 / 100) * 2).
  set (lines := wrapText font headline maxWidth).
  set (lh := headlineSize txt * (lineHeight txt / 100)).
  set (textY := if String.eqb (position txt) "top" then _ else _).
  split.
  - intros i line Hl.
    apply elem_of_app. right. apply elem_of_app. left.
    apply elem_of_app. right.
    apply (elem_of_concat_imap _ lines i line _ Hl).
    unfold headlineLine. cbv zeta. apply elem_of_app. left.
    apply list_elem_of_singleton. f_equal.
    destruct (String.eqb (position txt) "bottom"); ring.
  - intros sub Hsen Hs Hst Hn j line Hl.
    rewrite Hsen, Hs. cbv beta iota. cbn [from_option]. unfold Datatypes.id. rewrite Hst.
    apply elem_of_app. right. apply elem_of_app. right.
    destruct (length lines) as [|n'] eqn:En; [contradiction|].
    cbv iota beta.
    apply elem_of_app. right. apply elem_of_app. right.
    apply elem_of_app. left.
    apply (elem_of_concat_imap _ _ j line _ Hl).
    unfold subheadlineLine. cbv zeta. apply elem_of_app. left.
    apply list_elem_of_singleton. f_equal.
    rewrite S_INR.
    destruct (String.eqb_spec (position txt) "top") as [E1|E1];
      destruct (String.eqb_spec (position txt) "bottom") as [E2|E2];
      try (rewrite E1 in E2; discriminate); ring.
Qed.

End TextLayout.

(** ** The properties above at concrete values *)


Lemma englishProject_consistent : Languages.consistent Samples.englishProject.
Proof.
  unfold Languages.consistent, Languages.lists. cbn.
  split; [apply NoDup_singleton|]. split; [set_solver|]. split.
  - intros u Hu l Hl. apply list_elem_of_singleton in Hu as ->. cbn.
    split; exact Hl.
  - intros l Hl. split; exact Hl.
Qed.

(** The English project stays consistent when French is enabled. *)
Lemma language_functions_keep_consistent_witness :
  Languages.consistent Samples.englishProject
  /\ Languages.consistent (Languages.addProjectLanguage Samples.englishProject "fr").
Proof.
  split; [exact englishProject_consistent|].
  exact (proj1 (language_functions_keep_consistent (fun _ => true)
                  Samples.englishProject "fr" englishProject_consistent)).
Defined.




(** The German image of the bilingual unit is the one returned while German
    is the active language. *)
Lemma getScreenshotImage_picks_a_stored_image_witness :
  Localized.getScreenshotImage Samples.germanProject ["en"; "de"]
    (Some Examples.bilingualUnit)
  = Some Examples.portrait.
Proof.
  refine (proj1 (getScreenshotImage_picks_a_stored_image
                   Samples.germanProject ["en"; "de"] Examples.bilingualUnit _)
            Examples.portrait eq_refl).
  intros l [x Hx]. cbn in Hx.
  apply lookup_insert_Some in Hx as [[<- _] | [_ Hx]]; [set_solver|].
  apply lookup_singleton_Some in Hx as [<- _]. set_solver.
Defined.

(** An English image is stored for the only unit and removed again. *)
Lemma removeLocalizedImage_undoes_add_witness :
  exists st',
    Localized.addLocalizedImage Samples.englishProject 0 "en"
      Examples.portrait "data:en" "shot.png" = Some st'
    /\ Localized.removeLocalizedImage st' 0 "en" = Samples.englishProject.
Proof.
  destruct (removeLocalizedImage_undoes_add
              Samples.englishProject 0 "en" Examples.portrait "data:en"
              "shot.png" Examples.unitWithImage eq_refl eq_refl)
    as [(st' & Hadd & Hrem) _]; [discriminate|].
  exists st'. split; [exact Hadd | exact Hrem].
Defined.

(** The first of two units, the selected one, is dropped below the second. *)
Lemma dropOn_keeps_selection_witness :
  exists st',
    Units.dropOn Samples.twoUnits (Some 0%nat) 1 false = Some st'
    /\ Model.screenshots st' !! Model.selectedIndex st'
       = Some Examples.unitWithImage.
Proof.
  destruct (dropOn_keeps_selection Samples.twoUnits 0 1 false
              Examples.unitWithImage)
    as (st' & Hrun & _ & _ & _ & Hsel & _).
  - reflexivity.
  - cbn. lia.
  - lia.
  - exists st'. split; [exact Hrun | exact Hsel].
Defined.

(** The first of two units, the selected one, is deleted. *)
Lemma deleteAt_keeps_selection_valid_witness :
  let st' := Units.deleteAt Samples.twoUnits 0 in
  Model.screenshots st' = [Examples.unitWithoutImage]
  /\ (Model.selectedIndex st' < length (Model.screenshots st'))%nat.
Proof.
  intros st'.
  destruct (deleteAt_keeps_selection_valid Samples.twoUnits 0)
    as (Hlist & _ & Hvalid & _).
  - cbn. lia.
  - split; [exact Hlist|]. apply Hvalid. subst st'. rewrite Hlist. discriminate.
Defined.

(** Wrapping at one pixel a character and a wrap width of 5. *)
Lemma wrapText_keeps_text_witness :
  Str.join " "
    (Canvas.wrapText Examples.onePerChar
       (Examples.headlineFontOf Examples.defaultText) "ab cde" 5%R)
  = "ab cde".
Proof.
  apply (wrapText_keeps_text Examples.onePerChar).
  repeat constructor.
Defined.

(** The default unit on the iPhone 6.7 canvas. *)
Lemma updateCanvas_matches_side_preview_witness :
  exists cs' k',
    Preview.updateCanvas Examples.onePerChar Examples.noPixels
      Samples.noMainPixels Samples.half Samples.plainEnv
      (Samples.appOf Samples.englishProject) Samples.blankCanvases 0
    = Settings.Ok (cs', k')
    /\ Preview.m_width (Preview.main cs') = 1290%R.
Proof.
  destruct (updateCanvas_matches_side_preview Examples.onePerChar
              Examples.noPixels Samples.noMainPixels Samples.half
              Samples.plainEnv (Samples.appOf Samples.englishProject)
              Samples.blankCanvases 0 Examples.iphone Examples.unitWithImage
              Examples.portrait
              {| Model.shadow_enabled := true; Model.shadow_color := "#000000";
                 Model.shadow_blur := 40; Model.shadow_opacity := 30;
                 Model.shadow_x := 0; Model.shadow_y := 20 |}
              {| Model.frame_enabled := false; Model.frame_color := "#1d1d1f";
                 Model.frame_width := 12; Model.frame_opacity := 100 |}
              Examples.blank 0
              eq_refl eq_refl eq_refl eq_refl eq_refl eq_refl eq_refl eq_refl)
    as (cs' & k' & Hrun & Hw & _).
  exists cs', k'. split; [exact Hrun|].
  rewrite Hw.
  now rewrite (render_without_noise Examples.onePerChar Examples.noPixels
                 Samples.half Samples.englishProject Examples.env2D 0
                 Examples.blank Examples.iphone _ 0 Examples.unitWithImage
                 Examples.portrait eq_refl eq_refl eq_refl).
Defined.

(** A project without units: the main canvas is painted all the same. *)
Lemma updateCanvas_without_image_layer_witness :
  exists cs' k',
    Preview.updateCanvas Examples.onePerChar Examples.noPixels
      Samples.noMainPixels Samples.half Samples.plainEnv
      (Samples.appOf (Examples.projectOf [])) Samples.blankCanvases 0
    = Settings.Ok (cs', k').
Proof.
  destruct (proj1 (updateCanvas_without_image_layer Examples.onePerChar
                     Examples.noPixels Samples.noMainPixels Samples.half
                     Samples.plainEnv (Samples.appOf (Examples.projectOf []))
                     Samples.blankCanvases 0 Examples.iphone eq_refl eq_refl)
              eq_refl)
    as (_ & _ & cs' & k' & Hrun & _).
  exists cs', k'. exact Hrun.
Defined.




(** The Brazilian-Portuguese file of 'screenshot'. *)
Lemma getBaseFilename_strips_language_witness :
  Files.getBaseFilename "screenshot_pt-br.png" = "screenshot"
  /\ Files.getBaseFilename "screenshot.png" = "screenshot".
Proof.
  destruct (getBaseFilename_strips_language "screenshot" "png" "pt-br" "_")
    as (H1 & H2 & _).
  - cbn. tauto.
  - reflexivity.
  - reflexivity.
  - reflexivity.
  - reflexivity.
  - split; [exact H1 | exact H2].
Defined.

(** The wide image covering the portrait canvas: the part copied has the
    proportions of the canvas and fills it. *)
Lemma drawBackgroundToContext_image_fit_witness :
  exists pre post sx sy sw sh dx dy dw dh,
    Canvas.drawBackgroundToContext Examples.iphone Samples.coverBackground
    = pre ++ Canvas.DrawImageCrop Examples.landscape sx sy sw sh dx dy dw dh :: post
    /\ (sw * 2796 = sh * 1290 /\ dw = 1290 /\ dh = 2796)%R.
Proof.
  destruct (drawBackgroundToContext_image_fit Examples.iphone
              Samples.coverBackground Examples.landscape)
    as (pre & post & sx & sy & sw & sh & dx & dy & dw & dh & E & _ & _ & Hc & _).
  - reflexivity.
  - reflexivity.
  - cbn. lra.
  - cbn. lra.
  - cbn. lra.
  - cbn. lra.
  - exists pre, post, sx, sy, sw, sh, dx, dy, dw, dh. split; [exact E|].
    destruct (Hc eq_refl) as (H1 & H2 & H3 & _). cbn in H1, H2, H3.
    split; [exact H1 | split; [exact H2 | exact H3]].
Defined.

(** The default unit, drawn in two dimensions. *)
Lemma renderScreenshotToCanvas_draws_text_in_fresh_state_witness :
  exists before,
    Canvas.s_ops
      (Canvas.renderScreenshotToCanvas Examples.onePerChar Examples.noPixels
         Samples.half Samples.englishProject Examples.env2D 0 Examples.blank
         Examples.iphone 1 0).1
    = before ++ Canvas.drawTextToContext Examples.onePerChar Examples.iphone
                  Examples.helloText
    /\ Look.run Look.fresh [] before = (Look.fresh, []).
Proof.
  apply (renderScreenshotToCanvas_draws_text_in_fresh_state
           Examples.onePerChar Examples.noPixels Samples.half
           Samples.englishProject Examples.env2D 0 Examples.blank Examples.iphone
           1 0 Examples.unitWithImage Examples.portrait).
  - reflexivity.
  - reflexivity.
  - reflexivity.
Defined.

(** 'Hi' over 'there' at the bottom of the iPhone canvas. *)
Lemma drawTextToContext_stacks_lines_witness :
  exists y ys,
    Canvas.FillText "Hi" (1290 / 2) y
    ∈ Canvas.drawTextToContext Examples.onePerChar Examples.iphone
        Samples.captionText
    /\ Canvas.FillText "there" (1290 / 2) ys
       ∈ Canvas.drawTextToContext Examples.onePerChar Examples.iphone
           Samples.captionText
    /\ (y = 2796 * (1 - 12 / 100) /\ ys = y + 10)%R.
Proof.
  destruct (drawTextToContext_stacks_lines Examples.onePerChar Examples.iphone
              Samples.captionText "Hi") as [H1 H2].
  - discriminate.
  - reflexivity.
  - reflexivity.
  - specialize (H1 0%nat "Hi"). specialize (H2 "there").
    rewrite (wrapText_one_word Examples.onePerChar _ "Hi") in H1, H2
      by reflexivity.
    specialize (H1 eq_refl).
    specialize (H2 eq_refl eq_refl eq_refl ltac:(discriminate)).
    cbv zeta in H2.
    rewrite (wrapText_one_word Examples.onePerChar _ "there") in H2
      by reflexivity.
    specialize (H2 0%nat "there" eq_refl).
    eexists _, _. split; [exact H1|]. split; [exact H2|].
    cbn. split; lra.
Defined.
